(** * oekobaudat-bsdd-mapping: the alignment pipeline, embedded and verified

    A shallow embedding of the Python sources
      01_build_oekobaudat_rdf.py, 02_map_etim_to_oekobaudat_llm.py,
      03_create_validation_sample.py, 03_validate_accuracy.py and
      utils/llm_matcher_azure.py
    followed by the theorems that settle the specification's claims. *)

From Stdlib Require Import QArith Ascii String.
From stdpp Require Import base option list strings gmap.

Local Open Scope string_scope.
Set Warnings "-register-all,-clear-no-such-hyp".
Set Default Proof Using "Type".

(** ** The characters of a Python [str]

    A [str] is kept as the string of its UTF-8 bytes.  A character is the
    string of the bytes of one code point: a byte that is no continuation
    byte, with the continuation bytes (10xxxxxx) that follow it. *)
Module Unicode.

Definition continues (a : ascii) : bool :=
  let n := nat_of_ascii a in (128 <=? n)%nat && (n <? 192)%nat.

(** The text starts with a continuation byte, as the rest of a text cut
    inside a character does. *)
Definition starts_inside (s : string) : bool :=
  match s with
  | EmptyString => false
  | String a _ => continues a
  end.

(** The characters of a text, in their order. *)
Fixpoint chars (s : string) : list string :=
  match s with
  | EmptyString => []
  | String a s' =>
      if starts_inside s' then
        match chars s' with
        | c :: rest => String a c :: rest
        | [] => [String a EmptyString]
        end
      else String a EmptyString :: chars s'
  end.

(** [''.join(l)] *)
Fixpoint text (l : list string) : string :=
  match l with
  | [] => EmptyString
  | c :: l' => c ++ text l'
  end.

(** Continuation bytes only. *)
Fixpoint continuation (t : string) : bool :=
  match t with
  | EmptyString => true
  | String b t' => continues b && continuation t'
  end.

(** One character: a byte and continuation bytes after it. *)
Definition is_char (c : string) : bool :=
  match c with
  | EmptyString => false
  | String _ t => continuation t
  end.

(** One character as every [str] is made of: its first byte is no
    continuation byte. *)
Definition starts_char (c : string) : bool :=
  is_char c && negb (starts_inside c).

(** The bits a first byte gives to the code point. *)
Definition lead_bits (a : ascii) : N :=
  let n := N_of_ascii a in
  if (n <? 192)%N then n
  else if (n <? 224)%N then (n - 192)%N
  else if (n <? 240)%N then (n - 224)%N
  else (n - 240)%N.

(** Six more bits from each continuation byte. *)
Fixpoint continued (acc : N) (t : string) : N :=
  match t with
  | EmptyString => acc
  | String b t' => continued (acc * 64 + N_of_ascii b mod 64)%N t'
  end.

(** The code point of a character. *)
Definition codepoint (c : string) : N :=
  match c with
  | EmptyString => 0%N
  | String a t => continued (lead_bits a) t
  end.

(** [str.isspace] of a character, which is also the class [\s] of [re] and
    what [str.split] and [str.strip] cut at: TAB..CR, FS..US, the blank,
    U+0085, U+00A0, U+1680, U+2000..U+200A, U+2028, U+2029, U+202F, U+205F
    and U+3000. *)
Definition isspace (c : string) : bool :=
  let n := codepoint c in
  ((9 <=? n) && (n <=? 13) || (28 <=? n) && (n <=? 32)
   || (n =? 133) || (n =? 160) || (n =? 5760)
   || (8192 <=? n) && (n <=? 8202) || (n =? 8232) || (n =? 8233)
   || (n =? 8239) || (n =? 8287) || (n =? 12288))%N.

(** [str.isalnum] on the code points from 128 on: a table of the Unicode
    database the interpreter is built with. *)
Class Alphanumeric : Type := { isalnum : N -> bool }.

(** The class [\w] of [re] on a [str]: alphanumeric or the underscore; below
    128, the ASCII letters and digits and the underscore. *)
Definition isword `{Alphanumeric} (c : string) : bool :=
  let n := codepoint c in
  (if (n <? 128)%N then
     (48 <=? n) && (n <=? 57) || (65 <=? n) && (n <=? 90)
     || (97 <=? n) && (n <=? 122) || (n =? 95)
   else isalnum n)%N.

End Unicode.

(** ** Python values shared by all modules *)
Module Py.

(** A Python [float]: the rational a finite double denotes, the two
    infinities, or NaN.  Every comparison with NaN is false. *)
Inductive pyfloat : Type :=
  | Fin (q : Q)
  | PosInf
  | NegInf
  | NaN.

(** [a < b] on floats. *)
Definition flt (a b : pyfloat) : bool :=
  match a, b with
  | NaN, _ | _, NaN => false
  | Fin x, Fin y => negb (Qle_bool y x)
  | Fin _, PosInf => true
  | Fin _, NegInf => false
  | PosInf, _ => false
  | NegInf, NegInf => false
  | NegInf, _ => true
  end.

(** [a <= b] on floats. *)
Definition fle (a b : pyfloat) : bool :=
  match a, b with
  | NaN, _ | _, NaN => false
  | Fin x, Fin y => Qle_bool x y
  | Fin _, PosInf => true
  | Fin _, NegInf => false
  | PosInf, PosInf => true
  | PosInf, _ => false
  | NegInf, _ => true
  end.

(** [a >= b] on floats. *)
Definition fge (a b : pyfloat) : bool := fle b a.

(** [math.isnan] *)
Definition isnan (a : pyfloat) : bool :=
  match a with NaN => true | _ => false end.

(** The value [json.loads] hands back.  An object is kept as the item list
    of the resulting dict; a key is looked up from the front. *)
Inductive json : Type :=
  | JNull
  | JBool (b : bool)
  | JInt (z : Z)
  | JFloat (f : pyfloat)
  | JStr (s : string)
  | JArr (l : list json)
  | JObj (kv : list (string * json)).

(** [d.get(key)] on the items of a dict. *)
Fixpoint dict_get (kv : list (string * json)) (key : string) : option json :=
  match kv with
  | [] => None
  | (k, v) :: rest => if String.eqb k key then Some v else dict_get rest key
  end.

(** [result[key]]: [None] stands for the exception raised (KeyError on a
    missing key, TypeError when [result] is not a dict). *)
Definition subscript (result : json) (key : string) : option json :=
  match result with
  | JObj kv => dict_get kv key
  | _ => None
  end.

(** [result.get(key, default)]: AttributeError ([None]) off a dict. *)
Definition get_default (result : json) (key : string) (default : json)
  : option json :=
  match result with
  | JObj kv => Some (from_option id default (dict_get kv key))
  | _ => None
  end.

(** The least magnitude of an int that no double is near enough to:
    [2^1024 - 2^970]. *)
Definition float_overflow : Z := (2 ^ 1024 - 2 ^ 970)%Z.

(** [float(v)].  A string is parsed by Python's own float grammar, taken as
    [float_of_str]; an int converts to the double nearest to it, written here
    as the integer itself, and overflows from [float_overflow] on.  [None]
    is TypeError, ValueError or OverflowError. *)
Definition py_float (float_of_str : string -> option pyfloat) (v : json)
  : option pyfloat :=
  match v with
  | JBool b => Some (Fin (if b then 1 else 0))
  | JInt z =>
      if (Z.abs z <? float_overflow)%Z then Some (Fin (inject_Z z)) else None
  | JFloat f => Some f
  | JStr s => float_of_str s
  | JNull | JArr _ | JObj _ => None
  end.

(** The integer nearest to [num / den], for [0 < den]; of two that are
    equally near, the even one. *)
Definition nearest_even (num den : Z) : Z :=
  let m := (num / den)%Z in
  let r := (num mod den)%Z in
  if (den <? 2 * r)%Z || ((2 * r =? den)%Z && Z.odd m) then (m + 1)%Z else m.

(** [n / d] on ints with [0 <= n] and [0 < d]: Python returns the double
    nearest to the quotient, a tie going to the even mantissa; here, the
    rational that double denotes, in lowest terms.  A quotient other than 0
    is scaled by the power of two that brings it into [2^52, 2^53) and
    rounded to an integer mantissa [m]; the double is [m * 2^e].  The
    operands are a counter and the length of a list: their quotient is far
    from the overflow and from the subnormal range of the doubles. *)
Definition true_div (n d : Z) : Q :=
  if (n =? 0)%Z then 0%Q
  else
    let scaled_num e := (n * 2 ^ Z.max 0 (- e))%Z in
    let scaled_den e := (d * 2 ^ Z.max 0 e)%Z in
    let e0 := (Z.log2 n - Z.log2 d - 52)%Z in
    let e :=
      if (scaled_num e0 <? 2 ^ 52 * scaled_den e0)%Z then (e0 - 1)%Z else e0 in
    let m := nearest_even (scaled_num e) (scaled_den e) in
    Qred (Qmake (m * 2 ^ Z.max 0 e) (Z.to_pos (2 ^ Z.max 0 (- e)))).

(** [attr == v] for an attribute that is a [str] or [None]. *)
Definition eq_attr (attr : option string) (v : json) : bool :=
  match attr, v with
  | Some s, JStr s' => String.eqb s s'
  | None, JNull => true
  | _, _ => false
  end.

(** The characters left of [s.lstrip()] and of [s.rstrip()]. *)
Fixpoint lstrip (l : list string) : list string :=
  match l with
  | [] => []
  | c :: l' => if Unicode.isspace c then lstrip l' else l
  end.

Fixpoint rstrip (l : list string) : list string :=
  match l with
  | [] => []
  | c :: l' =>
      match rstrip l' with
      | [] => if Unicode.isspace c then [] else [c]
      | r => c :: r
      end
  end.

(** [s.strip()] *)
Definition strip (s : string) : string :=
  Unicode.text (rstrip (lstrip (Unicode.chars s))).

(** Truthiness of a [str]. *)
Definition truthy (s : string) : bool :=
  match s with EmptyString => false | _ => true end.

(** Truthiness of a [str]-or-[None] attribute. *)
Definition truthy_opt (s : option string) : bool :=
  match s with Some s => truthy s | None => false end.

(** [str(x)] inside an f-string for a [str]-or-[None] attribute. *)
Definition fmt (s : option string) : string := default "None" s.

End Py.

(** ** 02_map_etim_to_oekobaudat_llm.py *)
Module MapLlm.
Import Py.

Record OekobaudatCategory : Type := {
  id : option string;
  name_de : option string;
  parent_id : option string;
  full_path_de : option string;
  uri : string
}.

Record BsddClass : Type := {
  bsdd_uri : string;
  code : string;
  name : string;
  definition : string;
  domain_namespace : string
}.

Record Mapping : Type := {
  bsdd_class : BsddClass;
  oekobaudat_category : OekobaudatCategory;
  match_type : json;
  confidence_score : pyfloat;
  reasoning : json;
  method : string
}.

(** What [create_prompt] puts into the prompt text: the product's name and
    definition and, for each listed candidate, its rank, ID, name and path. *)
Record Prompt : Type := {
  product_name : string;
  product_definition : string;
  candidates_text : list (nat * option string * option string * option string)
}.

(** What [query_llm] can do: raise, or return the message content, which the
    SDK types as an optional string. *)
Inductive Reply : Type :=
  | Raised
  | Content (c : option string).

(** [candidates[:10]]: the candidates the prompt lists. *)
Definition shown (candidates : list OekobaudatCategory)
  : list OekobaudatCategory :=
  take 10 candidates.

Definition create_prompt (cls : BsddClass) (candidates : list OekobaudatCategory)
  : Prompt :=
  {| product_name := name cls;
     product_definition :=
       if truthy (definition cls) then definition cls else "Not provided";
     candidates_text :=
       imap (fun i cat => (S i, id cat, name_de cat, full_path_de cat))
            (shown candidates) |}.

(** [next((c for c in categories if c.id == v), None)] *)
Definition find_category (categories : list OekobaudatCategory) (v : json)
  : option OekobaudatCategory :=
  List.find (fun c => eq_attr (id c) v) categories.

Section Matcher.
(** The model behind [query_llm], Python's [json.loads] ([None] is
    JSONDecodeError) and Python's parser of float literals. *)
Variable query_llm : Prompt -> Reply.
Variable json_loads : string -> option json.
Variable float_of_str : string -> option pyfloat.

(** The body of the [try] once the response text is known non-empty.
    [None] covers both [return None] and every caught exception. *)
Definition mapping_of_response (cls : BsddClass)
    (categories : list OekobaudatCategory) (response : string)
  : option Mapping :=
  result ← json_loads (strip response);
  wanted ← subscript result "category_id";
  category ← find_category categories wanted;
  raw ← subscript result "confidence";
  confidence ← py_float float_of_str raw;
  if flt confidence (Fin (1 # 2)) then
    why ← subscript result "reasoning";
    Some {| bsdd_class := cls;
            oekobaudat_category := category;
            match_type := JStr "noMatch";
            confidence_score := confidence;
            reasoning := why;
            method := "llm-only" |}
  else
    label ← get_default result "match_type" (JStr "closeMatch");
    why ← subscript result "reasoning";
    Some {| bsdd_class := cls;
            oekobaudat_category := category;
            match_type := label;
            confidence_score := confidence;
            reasoning := why;
            method := "llm-only" |}.

(** [LLMOnlyMatcher.create_mapping]; the debug printing leaves the
    returned value as it is. *)
Definition create_mapping (cls : BsddClass)
    (categories : list OekobaudatCategory) : option Mapping :=
  match query_llm (create_prompt cls categories) with
  | Raised => None
  | Content None => None
  | Content (Some response) =>
      if negb (truthy response) || negb (truthy (strip response)) then None
      else mapping_of_response cls categories response
  end.
End Matcher.

End MapLlm.

(** ** Python [str] methods used by the matcher and the translator *)
Module Str.
Import Py.

(** [s.split(sep)] for a one-character separator: empty pieces are kept and
    the result is never empty. *)
Fixpoint split_on (sep : ascii) (s : string) : list string :=
  match s with
  | EmptyString => [EmptyString]
  | String a s' =>
      if Ascii.eqb a sep then EmptyString :: split_on sep s'
      else match split_on sep s' with
           | [] => [String a EmptyString]
           | piece :: rest => String a piece :: rest
           end
  end.

(** [sep.join(pieces)] *)
Definition join (sep : string) (pieces : list string) : string :=
  String.concat sep pieces.

(** [s.split()]: the maximal runs of characters that are no whitespace;
    [cur] is the run being read. *)
Fixpoint split_from (cur : string) (l : list string) : list string :=
  match l with
  | [] => if truthy cur then [cur] else []
  | c :: l' =>
      if Unicode.isspace c then
        if truthy cur then cur :: split_from EmptyString l'
        else split_from EmptyString l'
      else split_from (cur ++ c) l'
  end.

Definition split (s : string) : list string :=
  split_from EmptyString (Unicode.chars s).

(** [s.replace(old, new)] for a non-empty [old], as at both call sites:
    occurrences are replaced from the left and do not overlap; [skip] counts
    the characters of a matched occurrence still to be passed over. *)
Fixpoint replace_from (old new : string) (skip : nat) (s : string) : string :=
  match s with
  | EmptyString => EmptyString
  | String a s' =>
      match skip with
      | S k => replace_from old new k s'
      | O =>
          if String.prefix old s
          then new ++ replace_from old new (Nat.pred (String.length old)) s'
          else String a (replace_from old new O s')
      end
  end.

Definition replace (old new s : string) : string := replace_from old new 0 s.

(** [l[1:-1]] *)
Definition inner {A} (l : list A) : list A := removelast (tail l).

(** [l[:n]] for a Python int [n]; a negative [n] counts from the end. *)
Definition upto {A} (l : list A) (n : Z) : list A :=
  if (0 <=? n)%Z then take (Z.to_nat n) l
  else take (length l - Z.to_nat (- n)) l.

End Str.

(** ** utils/llm_matcher_azure.py *)
Module LlmMatcherAzure.
Import Py.

Record LLMMatchResult : Type := {
  category_id : json;
  category_name : json;
  confidence : pyfloat;
  reasoning : json;
  match_type : json
}.

(** A candidate as the caller passes it: (id, name_de, name_en, full_path_en). *)
Definition Candidate : Type := (string * string * string * string)%type.

(** What [create_prompt] puts into the prompt text. *)
Record Prompt : Type := {
  product_name : string;
  product_definition : string;
  categories_text : list (nat * Candidate)
}.

Definition create_prompt (bsdd_class_name bsdd_definition : string)
    (oekobaudat_categories : list Candidate) : Prompt :=
  {| product_name := bsdd_class_name;
     product_definition :=
       if truthy bsdd_definition then bsdd_definition else "Not provided";
     categories_text := imap (fun i cat => (S i, cat)) oekobaudat_categories |}.

(** The markdown fence of three backquotes. *)
Definition fence : string :=
  let q := ascii_of_nat 96 in String q (String q (String q EmptyString)).

(** The clean-up of a fenced answer, applied when the text starts with a
    fence. *)
Definition unfence (response_text : string) : string :=
  let lines := Str.split_on (ascii_of_nat 10) response_text in
  let body :=
    if (2 <? length lines)%nat
    then Str.join (String (ascii_of_nat 10) EmptyString) (Str.inner lines)
    else response_text in
  strip (Str.replace fence "" (Str.replace (fence ++ "json") "" body)).

Section Matcher.
Variable query_azure_openai : Prompt -> MapLlm.Reply.
Variable json_loads : string -> option json.
Variable float_of_str : string -> option pyfloat.

(** Lines 164-172: parse the text and build the result.  [None] is the
    value returned after a caught exception. *)
Definition result_of_text (response_text : string) : option LLMMatchResult :=
  result ← json_loads response_text;
  cid ← subscript result "category_id";
  cname ← subscript result "category_name";
  raw ← subscript result "confidence";
  conf ← py_float float_of_str raw;
  label ← get_default result "match_type" (JStr "closeMatch");
  why ← subscript result "reasoning";
  Some {| category_id := cid;
          category_name := cname;
          confidence := conf;
          match_type := label;
          reasoning := why |}.

Definition find_best_match_llm (bsdd_class_name bsdd_definition : string)
    (oekobaudat_categories : list Candidate) (top_n : Z)
  : option LLMMatchResult :=
  let candidates := Str.upto oekobaudat_categories top_n in
  let prompt := create_prompt bsdd_class_name bsdd_definition candidates in
  match query_azure_openai prompt with
  | MapLlm.Raised => None
  | MapLlm.Content None => None
  | MapLlm.Content (Some text) =>
      let response_text := strip text in
      let response_text :=
        if String.prefix fence response_text then unfence response_text
        else response_text in
      result_of_text response_text
  end.
End Matcher.

End LlmMatcherAzure.

(** ** 03_validate_accuracy.py *)
Module ValidateAccuracy.
Import Py.

(** An annotated record of the validation file. *)
Record GroundTruth : Type := {
  gt_code : string;
  correct_oekobaudat_id : string
}.

(** A prediction is either a mapping object, read through its attributes
    [bsdd_class.code], [oekobaudat_category.id] and [confidence_score], or a
    dict read through [get], where any of the three keys may be missing. *)
Inductive Prediction : Type :=
  | Object (code : string) (category_id : string) (confidence_score : pyfloat)
  | Dict (code : option string) (oekobaudat_category_id : option string)
         (confidence : option pyfloat).

Record Error : Type := {
  err_code : string;
  predicted : option string;
  actual : string;
  err_confidence : pyfloat
}.

Definition pred_code (pred : Prediction) : option string :=
  match pred with
  | Object c _ _ => Some c
  | Dict c _ _ => c
  end.

Definition pred_id (pred : Prediction) : option string :=
  match pred with
  | Object _ i _ => Some i
  | Dict _ i _ => i
  end.

Definition pred_confidence (pred : Prediction) : pyfloat :=
  match pred with
  | Object _ _ s => s
  | Dict _ _ s => default (Fin 0) s
  end.

(** [{v['code']: v['correct_oekobaudat_id'] for v in ground_truth}]: a later
    record replaces an earlier one with the same code. *)
Definition gt_lookup (ground_truth : list GroundTruth) : gmap string string :=
  foldl (fun d v => <[gt_code v := correct_oekobaudat_id v]> d) ∅ ground_truth.

(** One turn of the loop over the predictions, on the pair
    ([correct], [errors]). *)
Definition step (gt_dict : gmap string string) (acc : Z * list Error)
    (pred : Prediction) : Z * list Error :=
  let '(correct, errors) := acc in
  match pred_code pred with
  | None => acc
  | Some code =>
      match gt_dict !! code with
      | None => acc
      | Some actual_id =>
          if bool_decide (pred_id pred = Some actual_id)
          then ((correct + 1)%Z, errors)
          else (correct,
                (errors ++ [{| err_code := code;
                               predicted := pred_id pred;
                               actual := actual_id;
                               err_confidence := pred_confidence pred |}])%list)
      end
  end.

(** [evaluate_method]: the accuracy and the errors.  The accuracy is the
    float [correct / total], given as the rational it denotes, or the int 0
    when there is no ground truth. *)
Definition evaluate_method (method_name : string)
    (predictions : list Prediction) (ground_truth : list GroundTruth)
  : Q * list Error :=
  let total := Z.of_nat (length ground_truth) in
  let gt_dict := gt_lookup ground_truth in
  let '(correct, errors) := foldl (step gt_dict) (0%Z, []) predictions in
  let accuracy :=
    if (0 <? total)%Z then true_div correct total else 0%Q in
  (accuracy, errors).

(** The ground-truth identifier a prediction is judged against, with the
    code: none when the prediction's code has no ground truth. *)
Definition judged (gt_dict : gmap string string) (pred : Prediction)
  : option (string * string) :=
  code ← pred_code pred;
  actual_id ← gt_dict !! code;
  Some (code, actual_id).

(** A judged prediction that names the ground-truth identifier. *)
Definition hit (gt_dict : gmap string string) (pred : Prediction) : bool :=
  match judged gt_dict pred with
  | Some (_, actual_id) => bool_decide (pred_id pred = Some actual_id)
  | None => false
  end.

(** The error recorded for a judged prediction that names another one. *)
Definition miss (gt_dict : gmap string string) (pred : Prediction)
  : option Error :=
  match judged gt_dict pred with
  | Some (code, actual_id) =>
      if bool_decide (pred_id pred = Some actual_id) then None
      else Some {| err_code := code;
                   predicted := pred_id pred;
                   actual := actual_id;
                   err_confidence := pred_confidence pred |}
  | None => None
  end.

End ValidateAccuracy.

(** ** Python's [random.sample] *)
Module Random.
Section Generator.
(** The generator: [rnd n] is its [n]-th raw draw; the state is the number
    of draws made so far. *)
Variable rnd : nat -> nat.
Context {A : Type}.

(** Draw [k] entries, each from the positions not drawn before. *)
Fixpoint draw (k : nat) (pool : list A) (st : nat) : list A * nat :=
  match k with
  | O => ([], st)
  | S k' =>
      let j := (rnd st mod length pool)%nat in
      match pool !! j with
      | None => ([], st)
      | Some x =>
          let '(rest, st') := draw k' (delete j pool) (S st) in
          (x :: rest, st')
      end
  end.

(** [random.sample(population, k)]: ValueError ([None]) when [k] is
    negative or larger than the population. *)
Definition sample (population : list A) (k : Z) (st : nat)
  : option (list A * nat) :=
  if (k <? 0)%Z || (Z.of_nat (length population) <? k)%Z then None
  else Some (draw (Z.to_nat k) population st).
End Generator.
End Random.

(** ** 03_create_validation_sample.py *)
Module ValidationSample.
Import Py.

(** The exceptions a call of the sampler ends with: the NameError of a name
    that is bound nowhere, the ValueError of [random.sample], or what the
    matcher raises. *)
Inductive Exception : Type := NameError | ValueError | MatcherError.

(** What a call does: it returns a value or it raises. *)
Inductive Outcome (A : Type) : Type :=
  | Returns (a : A)
  | Raises (e : Exception).
Arguments Returns {A} a.
Arguments Raises {A} e.

Section Sample.
Context {BsddClass : Type}.
Variable rnd : nat -> nat.

(** What evaluating [MultilingualSemanticMatcher()] does.  The module binds
    this name nowhere (its import is left as a TODO), so that as the file
    stands the evaluation raises NameError; it returns a matcher only when a
    caller has put the class into the module's namespace.  A matcher is
    taken as far as the sampler reads it: [create_mapping(cls, categories)]
    raises, or returns [None] or a mapping, of which the sampler reads
    [confidence_score]. *)
Variable matcher : Outcome (BsddClass -> Outcome (option pyfloat)).

(** The scoring loop: the classes that got a mapping, each with its score;
    the first call that raises ends the loop. *)
Fixpoint scored_classes (create_mapping : BsddClass -> Outcome (option pyfloat))
    (bsdd_classes : list BsddClass) : Outcome (list (BsddClass * pyfloat)) :=
  match bsdd_classes with
  | [] => Returns []
  | cls :: rest =>
      match create_mapping cls with
      | Raises e => Raises e
      | Returns mapping =>
          match scored_classes create_mapping rest with
          | Raises e => Raises e
          | Returns scored =>
              Returns match mapping with
                      | Some s => (cls, s) :: scored
                      | None => scored
                      end
          end
      end
  end.

(** The tests of the three comprehensions: [s >= 0.8], [0.5 <= s < 0.8]
    and [s < 0.5]. *)
Definition is_high (s : pyfloat) : bool := fge s (Fin (8 # 10)).
Definition is_medium (s : pyfloat) : bool :=
  fle (Fin (5 # 10)) s && flt s (Fin (8 # 10)).
Definition is_low (s : pyfloat) : bool := flt s (Fin (5 # 10)).

Definition high_conf (scored : list (BsddClass * pyfloat)) : list BsddClass :=
  (List.filter (fun cs => is_high cs.2) scored).*1.

Definition medium_conf (scored : list (BsddClass * pyfloat)) : list BsddClass :=
  (List.filter (fun cs => is_medium cs.2) scored).*1.

Definition low_conf (scored : list (BsddClass * pyfloat)) : list BsddClass :=
  (List.filter (fun cs => is_low cs.2) scored).*1.

Definition n_high (scored : list (BsddClass * pyfloat)) (sample_size : Z) : Z :=
  Z.of_nat (length (high_conf scored)) `min` (sample_size `div` 2).

Definition n_medium (scored : list (BsddClass * pyfloat)) (sample_size : Z) : Z :=
  Z.of_nat (length (medium_conf scored)) `min` (sample_size `div` 3).

Definition n_low (scored : list (BsddClass * pyfloat)) (sample_size : Z) : Z :=
  Z.of_nat (length (low_conf scored))
    `min` (sample_size - n_high scored sample_size
                       - n_medium scored sample_size).

(** [random.sample], with its ValueError. *)
Definition sample {A} (population : list A) (k : Z) (st : nat)
  : Outcome (list A * nat) :=
  match Random.sample rnd population k st with
  | Some drawn => Returns drawn
  | None => Raises ValueError
  end.

(** [create_validation_sample], started with the generator in state [st]. *)
Definition create_validation_sample (bsdd_classes : list BsddClass)
    (sample_size : Z) (stratified : bool) (st : nat)
  : Outcome (list BsddClass) :=
  if stratified then
    match matcher with
    | Raises e => Raises e
    | Returns create_mapping =>
        match scored_classes create_mapping bsdd_classes with
        | Raises e => Raises e
        | Returns scored =>
            match sample (high_conf scored) (n_high scored sample_size) st with
            | Raises e => Raises e
            | Returns (high, st) =>
                match sample (medium_conf scored)
                             (n_medium scored sample_size) st with
                | Raises e => Raises e
                | Returns (medium, st) =>
                    match sample (low_conf scored)
                                 (n_low scored sample_size) st with
                    | Raises e => Raises e
                    | Returns (low, st) => Returns (high ++ medium ++ low)%list
                    end
                end
            end
        end
    end
  else
    match sample bsdd_classes
                 (sample_size `min` Z.of_nat (length bsdd_classes)) st with
    | Raises e => Raises e
    | Returns (drawn, st) => Returns drawn
    end.
End Sample.

End ValidationSample.

(** ** 01_build_oekobaudat_rdf.py *)
Module BuildRdf.
Import Py.

Record OekobaudatCategory : Type := {
  id : option string;
  name_de : option string;
  name_en : option string;
  parent_id : option string;
  children_ids : list (option string);
  level : Z;
  full_path_de : option string;
  full_path_en : option string
}.

(** The categories dict of the builder, keyed by the [id] attribute as
    [Element.get] returned it: [None] when the attribute is missing. *)
Abbreviation Categories := (gmap (option string) OekobaudatCategory).

(** *** The XML document *)

(** An [xml.etree] element: its qualified tag, attributes and children. *)
Inductive Element : Type :=
  | Elem (tag : string) (attrib : list (string * string))
         (children : list Element).

Definition tag_of (e : Element) : string :=
  match e with Elem t _ _ => t end.

Definition children_of (e : Element) : list Element :=
  match e with Elem _ _ cs => cs end.

(** [e.get(key)] *)
Definition get (e : Element) (key : string) : option string :=
  match e with
  | Elem _ attrib _ =>
      snd <$> List.find (fun kv => String.eqb kv.1 key) attrib
  end.

Definition ns2 : string := "http://lca.jrc.it/ILCD/Categories".

(** The qualified tag behind the path [ns2:local]. *)
Definition qname (local : string) : string := "{" ++ ns2 ++ "}" ++ local.

Definition is_category (e : Element) : bool :=
  String.eqb (tag_of e) (qname "category").

(** [e.iter()]: the element and its descendants in document order. *)
Fixpoint iter (e : Element) : list Element :=
  match e with
  | Elem _ _ cs => e :: flat_map iter cs
  end.

(** [root.find('.//ns2:categories[@dataType="Process"]', ns)] *)
Definition find_process_categories (root : Element) : option Element :=
  List.find
    (fun e => String.eqb (tag_of e) (qname "categories")
              && bool_decide (get e "dataType" = Some "Process"))
    (flat_map iter (children_of root)).

(** What [ET.parse] makes of the file: a ParseError, or a document. *)
Inductive Source : Type :=
  | Unparsable
  | Document (root : Element).

(** *** Parsing *)

(** The path of a node below [parent_path]. *)
Definition path_below (parent_path cat_name_de : option string)
  : option string :=
  if truthy_opt parent_path
  then Some (fmt parent_path ++ "/" ++ fmt cat_name_de)
  else cat_name_de.

Definition append_child (cat_id : option string) (parent : OekobaudatCategory)
  : OekobaudatCategory :=
  {| id := id parent; name_de := name_de parent; name_en := name_en parent;
     parent_id := parent_id parent;
     children_ids := (children_ids parent ++ [cat_id])%list;
     level := level parent; full_path_de := full_path_de parent;
     full_path_en := full_path_en parent |}.

(** The body of the loop of [_parse_categories_recursive] up to the
    recursive call: store the node, then extend its parent's children. *)
Definition store (category : Element) (parent_id parent_path : option string)
    (level : Z) (cats : Categories) : Categories :=
  let cat_id := get category "id" in
  let cat_name_de := get category "name" in
  let cat_obj :=
    {| id := cat_id; name_de := cat_name_de; name_en := None;
       parent_id := parent_id; children_ids := []; level := level;
       full_path_de := path_below parent_path cat_name_de;
       full_path_en := None |} in
  let cats := <[cat_id := cat_obj]> cats in
  if truthy_opt parent_id && bool_decide (is_Some (cats !! parent_id))
  then alter (append_child cat_id) parent_id cats
  else cats.

(** [_parse_categories_recursive] *)
Fixpoint parse_categories_recursive (parent_elem : Element)
    (parent_id parent_path : option string) (level : Z) (cats : Categories)
    {struct parent_elem} : Categories :=
  match parent_elem with
  | Elem _ _ children =>
      (fix each (l : list Element) (cats : Categories) : Categories :=
         match l with
         | [] => cats
         | category :: rest =>
             if is_category category then
               let cats := store category parent_id parent_path level cats in
               each rest
                 (parse_categories_recursive category (get category "id")
                    (path_below parent_path (get category "name"))
                    (level + 1) cats)
             else each rest cats
         end) children cats
  end.

(** One turn of the loop of [_parse_categories_recursive] on a child of the
    parent element. *)
Definition turn (parent_id parent_path : option string) (level : Z)
    (cats : Categories) (category : Element) : Categories :=
  if is_category category then
    parse_categories_recursive category (get category "id")
      (path_below parent_path (get category "name")) (level + 1)
      (store category parent_id parent_path level cats)
  else cats.

(** What holds of the stored categories throughout parsing: a category
    sits under its own id, has a path when it has a name, and its parent, if
    it names one, is stored. *)
Definition well_stored (cats : Categories) : Prop :=
  forall k c,
    cats !! k = Some c ->
    id c = k
    /\ (is_Some (name_de c) -> is_Some (full_path_de c))
    /\ (forall p, parent_id c = Some p -> is_Some (cats !! Some p)).

(** The parent id handed down is absent or stored. *)
Definition known (cats : Categories) (parent_id : option string) : Prop :=
  forall p, parent_id = Some p -> is_Some (cats !! Some p).

(** The [category] elements the recursion reaches below [parent_elem], in
    the order of the calls. *)
Fixpoint visited (parent_elem : Element) : list Element :=
  match parent_elem with
  | Elem _ _ children =>
      flat_map (fun category =>
                  if is_category category then category :: visited category
                  else [])
               children
  end.

(** The [category] elements [parse_xml] reaches in a document. *)
Definition visited_in (root : Element) : list Element :=
  match find_process_categories root with
  | Some categories_elem => visited categories_elem
  | None => []
  end.

(** [parse_xml] on a fresh builder; [None] is the ParseError that leaves
    the run. *)
Definition parse_xml (source : Source) : option Categories :=
  match source with
  | Unparsable => None
  | Document root =>
      match find_process_categories root with
      | Some categories_elem =>
          Some (parse_categories_recursive categories_elem None (Some "") 0 ∅)
      | None => Some ∅
      end
  end.

(** A turn of the loop of [_parse_categories_recursive] that stores a
    node: the [category] element with the parent id, the parent path and
    the level in force. *)
Record Visit : Type := {
  node : Element;
  below_id : option string;
  below_path : option string;
  depth : Z
}.

(** The object built for a visit, with the empty list of children it starts
    with. *)
Definition cat_obj (v : Visit) : OekobaudatCategory :=
  {| id := get (node v) "id"; name_de := get (node v) "name";
     name_en := None; parent_id := below_id v; children_ids := [];
     level := depth v;
     full_path_de := path_below (below_path v) (get (node v) "name");
     full_path_en := None |}.

(** The visits of the recursion below [parent_elem], in the order in which
    they store their node. *)
Fixpoint visits (parent_elem : Element) (parent_id parent_path : option string)
    (level : Z) : list Visit :=
  match parent_elem with
  | Elem _ _ children =>
      flat_map (fun category =>
                  if is_category category then
                    {| node := category; below_id := parent_id;
                       below_path := parent_path; depth := level |}
                    :: visits category (get category "id")
                         (path_below parent_path (get category "name"))
                         (level + 1)
                  else [])
               children
  end.

(** The visits of [parse_xml] in a document. *)
Definition visits_in (root : Element) : list Visit :=
  match find_process_categories root with
  | Some categories_elem => visits categories_elem None (Some "") 0
  | None => []
  end.

(** A stored category without the children gathered since it was stored. *)
Definition without_children (c : OekobaudatCategory) : OekobaudatCategory :=
  {| id := id c; name_de := name_de c; name_en := name_en c;
     parent_id := parent_id c; children_ids := []; level := level c;
     full_path_de := full_path_de c; full_path_en := full_path_en c |}.

(** *** The translator *)

Definition TRANSLATION_ITEMS : list (string * string) :=
  [ ("Mineralische Baustoffe", "Mineral Building Materials");
    ("Dämmstoffe", "Insulation Materials");
    ("Holz", "Wood");
    ("Metalle", "Metals");
    ("Beschichtungen", "Coatings");
    ("Kunststoffe", "Plastics");
    ("Komponenten von Fenstern und Vorhangfassaden",
     "Components of Windows and Curtain Facades");
    ("Gebäudetechnik", "Building Services");
    ("Sonstige", "Other");
    ("Komposite", "Composites");
    ("End of Life", "End of Life");
    ("Bindemittel", "Binders");
    ("Zement", "Cement");
    ("Kalk", "Lime");
    ("Gips", "Gypsum");
    ("Lehm", "Clay");
    ("Zuschläge", "Aggregates");
    ("Sand und Kies", "Sand and Gravel");
    ("Naturstein", "Natural Stone");
    ("Steine und Elemente", "Bricks and Elements");
    ("Kalksandstein", "Calcium Silicate Brick");
    ("Ziegel", "Brick");
    ("Porenbeton", "Aerated Concrete");
    ("Leichtbeton", "Lightweight Concrete");
    ("Betonfertigteile und Betonwaren", "Precast Concrete Elements");
    ("Gipsplatten", "Gypsum Board");
    ("Fliesen und Platten", "Tiles and Slabs");
    ("Mörtel und Beton", "Mortar and Concrete");
    ("Beton", "Concrete");
    ("Mauermörtel", "Masonry Mortar");
    ("Estrich trocken", "Dry Screed");
    ("Mineralwolle", "Mineral Wool");
    ("Glaswolle", "Glass Wool");
    ("Steinwolle", "Stone Wool");
    ("Holzfaserdämmplatte", "Wood Fiber Insulation Board");
    ("Vollholz", "Solid Wood");
    ("Holzwerkstoffe", "Wood-Based Materials");
    ("Stahl", "Steel");
    ("Stahlprofile", "Steel Profiles");
    ("Aluminium", "Aluminum");
    ("Platten", "Boards");
    ("und", "and");
    ("mit", "with");
    ("für", "for") ].

(** The fallback table; no key occurs twice in the literal. *)
Definition TRANSLATION_DICT : gmap string string :=
  list_to_map TRANSLATION_ITEMS.

(** One turn of the word loop of [translate]. *)
Definition translate_word (cache : gmap string string)
    (translated_words : list string) (word : string) : list string :=
  match cache !! word with
  | Some t => (translated_words ++ [t])%list
  | None =>
      match TRANSLATION_DICT !! word with
      | Some t => (translated_words ++ [t])%list
      | None => (translated_words ++ [word])%list
      end
  end.

(** [AutoTranslator.translate] *)
Definition translate (cache : gmap string string) (german_text : string)
  : string :=
  match cache !! german_text with
  | Some t => t
  | None =>
      match TRANSLATION_DICT !! german_text with
      | Some t => t
      | None =>
          let words := Str.split german_text in
          Str.join " " (foldl (translate_word cache) [] words)
      end
  end.

(** [AutoTranslator.translate_category]; [None] is the AttributeError of
    [split] on a missing name or path. *)
Definition translate_category (cache : gmap string string)
    (category : OekobaudatCategory) : option OekobaudatCategory :=
  german ← name_de category;
  path ← full_path_de category;
  let path_parts := Str.split_on "/" path in
  let translated_parts := translate cache <$> path_parts in
  Some {| id := id category; name_de := name_de category;
          name_en := Some (translate cache german);
          parent_id := parent_id category;
          children_ids := children_ids category; level := level category;
          full_path_de := full_path_de category;
          full_path_en := Some (Str.join "/" translated_parts) |}.

(** *** The OWL graph *)

(** An rdflib term: a URI reference, or a literal with a language tag. *)
Inductive Term : Type :=
  | URIRef (u : string)
  | Literal (lexical : string) (lang : string).

#[global] Instance Term_eq_dec : EqDecision Term.
Proof. solve_decision. Defined.

#[global] Instance Term_countable : Countable Term.
Proof.
  refine (inj_countable'
    (fun t => match t with
              | URIRef u => inl u
              | Literal s l => inr (s, l)
              end)
    (fun x => match x with
              | inl u => URIRef u
              | inr (s, l) => Literal s l
              end) _).
  by intros [].
Defined.

(** An rdflib graph is a set of triples. *)
Abbreviation Triple := (Term * Term * Term)%type.
Abbreviation Graph := (gset Triple).

Definition OBD : string := "https://oekobaudat.de/class/".
Definition OEKOCAT : string := "https://oekobaudat.de/category/".
Definition RDF_type : Term :=
  URIRef "http://www.w3.org/1999/02/22-rdf-syntax-ns#type".
Definition RDFS_label : Term :=
  URIRef "http://www.w3.org/2000/01/rdf-schema#label".
Definition RDFS_comment : Term :=
  URIRef "http://www.w3.org/2000/01/rdf-schema#comment".
Definition RDFS_subClassOf : Term :=
  URIRef "http://www.w3.org/2000/01/rdf-schema#subClassOf".
Definition OWL_Class : Term := URIRef "http://www.w3.org/2002/07/owl#Class".
Definition OWL_ObjectProperty : Term :=
  URIRef "http://www.w3.org/2002/07/owl#ObjectProperty".

(** [namespace[key]]: rdflib appends the key when it is a [str] and nothing
    otherwise. *)
Definition term (namespace : string) (key : option string) : Term :=
  URIRef (namespace ++ default "" key).

Definition okobaudatCategory : Term := term OBD (Some "okobaudatCategory").

(** The graph after [_define_custom_property]. *)
Definition define_custom_property : Graph :=
  {[ (okobaudatCategory, RDF_type, OWL_ObjectProperty);
     (okobaudatCategory, RDFS_label,
      Literal "ÖKOBAUDAT category reference" "en");
     (okobaudatCategory, RDFS_label,
      Literal "ÖKOBAUDAT Kategorie-Referenz" "de");
     (okobaudatCategory, RDFS_comment,
      Literal "Links an OWL class to its Ökobaudat category ID" "en") ]}.

Section Classes.
(** The table behind [\w]. *)
Context {alphanumeric : Unicode.Alphanumeric}.

Definition ishyphen (c : string) : bool := String.eqb c "-".

(** [re.sub(r'[^\w\s-]', '', s)], on the characters of [s] *)
Fixpoint drop_special (l : list string) : list string :=
  match l with
  | [] => []
  | c :: l' =>
      if Unicode.isword c || Unicode.isspace c || ishyphen c
      then c :: drop_special l'
      else drop_special l'
  end.

(** [re.sub(r'[\s-]+', '_', s)], on the characters of [s]; [in_run] tells
    that the run being read has been replaced already. *)
Fixpoint collapse_runs (in_run : bool) (l : list string) : list string :=
  match l with
  | [] => []
  | c :: l' =>
      if Unicode.isspace c || ishyphen c then
        if in_run then collapse_runs true l'
        else "_" :: collapse_runs true l'
      else c :: collapse_runs false l'
  end.

(** [_name_to_class_name] *)
Definition name_to_class_name (name_de : string) : string :=
  Unicode.text (collapse_runs false (drop_special (Unicode.chars name_de))).

(** The class node of a category named [german]. *)
Definition class_uri (german : string) : Term :=
  term OBD (Some (name_to_class_name german)).

(** The label or comment [add_category_to_graph] adds for an English text:
    none when the text is missing or empty. *)
Definition english (class_node predicate : Term) (text : option string)
  : Graph :=
  match text with
  | Some en => if truthy en then {[ (class_node, predicate, Literal en "en") ]}
               else ∅
  | None => ∅
  end.

(** The triples [add_category_to_graph] adds for the category stored under
    [cat_id], in the order of its [graph.add] calls.  [None] is an
    exception: the TypeError of [re.sub] on a missing name, of the category
    or of its parent.  A category stored by the parser has a path whenever
    it has a name. *)
Definition category_triples (cats : Categories) (cat_id : option string)
    (category : OekobaudatCategory) : option Graph :=
  german ← name_de category;
  path ← full_path_de category;
  let node := class_uri german in
  let own : Graph :=
    {[ (node, RDF_type, OWL_Class) ]}
    ∪ {[ (node, RDFS_label, Literal german "de") ]}
    ∪ english node RDFS_label (name_en category)
    ∪ {[ (node, RDFS_comment, Literal path "de") ]}
    ∪ english node RDFS_comment (full_path_en category)
    ∪ {[ (node, okobaudatCategory, term OEKOCAT cat_id) ]} in
  if truthy_opt (parent_id category) then
    match cats !! parent_id category with
    | Some parent_cat =>
        parent_german ← name_de parent_cat;
        Some (own ∪ {[ (node, RDFS_subClassOf, class_uri parent_german) ]})
    | None => Some own
    end
  else Some own.

(** [add_category_to_graph]: nothing is added for an id that is not
    stored. *)
Definition add_category_to_graph (cats : Categories) (cat_id : option string)
    (graph : Graph) : option Graph :=
  match cats !! cat_id with
  | None => Some graph
  | Some category =>
      added ← category_triples cats cat_id category;
      Some (graph ∪ added)
  end.

(** The loop [for cat_id in self.categories.keys()] over a graph.  The
    graph is a set and any exception ends the run, so the order in which
    the keys come does not show in the result. *)
Definition add_all (cats : Categories) (graph : Graph) : option Graph :=
  foldr (fun cat_id acc => graph ← acc; add_category_to_graph cats cat_id graph)
        (Some graph) (map_to_list cats).*1.

(** The (identifier, parent-identifier) pairs of the stored categories. *)
Definition pairs (cats : Categories)
  : gset (option string * option string) :=
  list_to_set ((fun kc => (kc.1, parent_id kc.2)) <$> map_to_list cats).

(** Every stored category has an identifier, not empty, and a name. *)
Definition identified (cats : Categories) : bool :=
  bool_decide
    (map_Forall (fun k c => is_Some k /\ k <> Some "" /\ is_Some (name_de c))
                cats).

(** The class names of the stored categories, one per category. *)
Definition class_names (cats : Categories) : list (option string) :=
  (fun kc => name_to_class_name <$> name_de kc.2) <$> map_to_list cats.

(** No two stored categories share a class name. *)
Definition distinct_class_names (cats : Categories) : bool :=
  bool_decide (NoDup (class_names cats)).

(** [build_complete_graph] on a fresh builder. *)
Definition build_complete_graph (source : Source) : option Graph :=
  cats ← parse_xml source;
  add_all cats define_custom_property.

(** The loop [for cat in builder.categories.values()] of [main]: every
    category is translated in place; an exception ends the run. *)
Definition translate_all (cache : gmap string string) (cats : Categories)
  : option Categories :=
  if decide (map_Forall (fun _ c => is_Some (translate_category cache c)) cats)
  then Some (omap (translate_category cache) cats)
  else None.

(** [main] up to serialisation: parse, translate every category, add every
    category to the graph. *)
Definition main (source : Source) (cache : gmap string string)
  : option (Categories * Graph) :=
  cats ← parse_xml source;
  translated ← translate_all cache cats;
  graph ← add_all translated define_custom_property;
  Some (translated, graph).
End Classes.

End BuildRdf.

(** ** Re-ingestion of the exported taxonomy graph *)
Module Reingest.
Import Py BuildRdf.

(** [s] without the prefix [pre], when it starts with it. *)
Fixpoint strip_prefix (pre s : string) : option string :=
  match pre with
  | EmptyString => Some s
  | String a pre' =>
      match s with
      | EmptyString => None
      | String b s' => if Ascii.eqb a b then strip_prefix pre' s' else None
      end
  end.

(** Modelled from the spec: the source identifier a cross-reference link
    points to, read off the link's target in the category namespace. *)
Definition identifier_of (t : Term) : option string :=
  match t with
  | URIRef u => strip_prefix OEKOCAT u
  | Literal _ _ => None
  end.

(** The objects of the triples of [g] with the given subject and
    predicate. *)
Definition objects (g : Graph) (subject predicate : Term) : list Term :=
  omap (fun t : Triple =>
          if decide (t.1.1 = subject /\ t.1.2 = predicate) then Some t.2
          else None)
       (elements g).

(** Modelled from the spec: the source identifiers a class node is
    cross-referenced to. *)
Definition identifiers (g : Graph) (node : Term) : list string :=
  omap identifier_of (objects g node okobaudatCategory).

(** Modelled from the spec: the parent identifiers read off a class node,
    through its subclass edges; none marks a root, a node without such an
    edge. *)
Definition parent_identifiers (g : Graph) (node : Term)
  : list (option string) :=
  match objects g node RDFS_subClassOf with
  | [] => [None]
  | parents => Some <$> (parents ≫= identifiers g)
  end.

(** Modelled from the spec: the re-ingestion of an exported taxonomy graph,
    for which the sources hold no code (the loader of the exported file is
    not among them).  Section 4.5 gives every class node a cross-reference
    link to its source identifier and a subclass edge to its parent, absent
    for roots; re-ingestion reads the (identifier, parent-identifier) pairs
    back from these links and edges. *)
Definition reingest (g : Graph) : gset (option string * option string) :=
  list_to_set
    (t ← elements g;
     if decide (t.1.2 = okobaudatCategory) then
       match identifier_of t.2 with
       | Some i => (fun parent => (Some i, parent))
                   <$> parent_identifiers g t.1.1
       | None => []
       end
     else []).

End Reingest.

(** ** The specification's own notions, written from its words *)
Module Spec.
Import Py.

(** The match-type bands of the table of section 4.3. *)
Inductive Band : Type := exact | close | related | none.

(** The banding table, row by row; a NaN fits no row. *)
Definition banding (c : pyfloat) : option Band :=
  if fge c (Fin (9 # 10)) then Some exact
  else if fle (Fin (7 # 10)) c && flt c (Fin (9 # 10)) then Some close
  else if fle (Fin (5 # 10)) c && flt c (Fin (7 # 10)) then Some related
  else if flt c (Fin (5 # 10)) then Some none
  else None.

(** The label the mapper writes for a band. *)
Definition label (b : Band) : string :=
  match b with
  | exact => "exactMatch"
  | close => "closeMatch"
  | related => "relatedMatch"
  | none => "noMatch"
  end.

(** A mapping whose match-type is the band of its confidence. *)
Definition banded (m : MapLlm.Mapping) : Prop :=
  Some (MapLlm.match_type m)
  = (fun b => JStr (label b)) <$> banding (MapLlm.confidence_score m).

(** A confidence in the closed interval from 0 to 1. *)
Definition in_unit_interval (c : pyfloat) : bool :=
  fle (Fin 0) c && fle c (Fin 1).

(** Label resolution as section 4.2 words it, on the characters of a
    phrase.  A phrase starts blank when it is empty or starts with a
    whitespace character. *)
Definition starts_blank (l : list string) : bool :=
  match l with
  | [] => true
  | c :: _ => Unicode.isspace c
  end.

(** Whether a whitespace character occurs in [s]. *)
Definition has_space (s : string) : bool :=
  existsb Unicode.isspace (Unicode.chars s).

(** The whitespace-delimited tokens of a phrase, read from its end: a
    character that is not whitespace opens a token before a blank and
    otherwise joins the token that follows it. *)
Fixpoint tokens (l : list string) : list string :=
  match l with
  | [] => []
  | c :: l' =>
      if Unicode.isspace c then tokens l'
      else if starts_blank l' then c :: tokens l'
      else match tokens l' with
           | t :: rest => (c ++ t) :: rest
           | [] => [c]
           end
  end.

(** A token through cache, then fallback, then identity. *)
Definition resolve_token (cache fallback : gmap string string) (token : string)
  : string :=
  match cache !! token with
  | Some t => t
  | None => default token (fallback !! token)
  end.

(** [resolve]: the whole phrase in the cache, else the whole phrase in the
    fallback table, else the tokens resolved one by one and rejoined with
    single spaces. *)
Definition resolve (cache fallback : gmap string string) (phrase : string)
  : string :=
  match cache !! phrase with
  | Some t => t
  | None =>
      match fallback !! phrase with
      | Some t => t
      | None =>
          String.concat " " (resolve_token cache fallback
                               <$> tokens (Unicode.chars phrase))
      end
  end.

(** A malformed taxonomy source: one that does not parse, or one with a
    category node that declares no identifier. *)
Definition malformed (source : BuildRdf.Source) : Prop :=
  match source with
  | BuildRdf.Unparsable => True
  | BuildRdf.Document root =>
      exists node, node ∈ BuildRdf.visited_in root
                   /\ BuildRdf.get node "id" = None
  end.



(** [sample] holds [n] entries drawn from [population] without replacement:
    no entry occurs in it more often than in the population. *)
Definition drawn_from {A} (sample population : list A) (n : Z) : Prop :=
  sample ⊆+ population /\ Z.of_nat (length sample) = n.

(** The accuracy of section 4.6: the correspondences that agree with the
    ground truth for their code, over the ground-truth records whose code
    appears in the correspondence set. *)
Definition has_correspondence (correspondences : list ValidateAccuracy.Prediction)
    (v : ValidateAccuracy.GroundTruth) : bool :=
  bool_decide (Some (ValidateAccuracy.gt_code v)
               ∈ ValidateAccuracy.pred_code <$> correspondences).

Definition accuracy (correspondences : list ValidateAccuracy.Prediction)
    (ground_truth : list ValidateAccuracy.GroundTruth) : Q :=
  let gt_dict := ValidateAccuracy.gt_lookup ground_truth in
  let agreeing :=
    length (List.filter (ValidateAccuracy.hit gt_dict) correspondences) in
  let covered :=
    length (List.filter (has_correspondence correspondences) ground_truth) in
  if (0 <? covered)%nat
  then (inject_Z (Z.of_nat agreeing) / inject_Z (Z.of_nat covered))%Q
  else 0%Q.

End Spec.

(** ** Concrete runs used below *)
Module Examples.
Import Py.

(** A double quote, and a key or string of a JSON text. *)
Definition dq : string := String (ascii_of_nat 34) EmptyString.
Definition q (s : string) : string := dq ++ s ++ dq.

(** The JSON text of an answer with the four fields of the prompt. *)
Definition answer_text (category_id confidence match_type reasoning : string)
  : string :=
  "{" ++ q "category_id" ++ ": " ++ q category_id ++ ", "
      ++ q "confidence" ++ ": " ++ confidence ++ ", "
      ++ q "match_type" ++ ": " ++ q match_type ++ ", "
      ++ q "reasoning" ++ ": " ++ q reasoning ++ "}".

(** The same answer without the [match_type] field. *)
Definition answer_text_unlabelled (category_id confidence reasoning : string)
  : string :=
  "{" ++ q "category_id" ++ ": " ++ q category_id ++ ", "
      ++ q "confidence" ++ ": " ++ confidence ++ ", "
      ++ q "reasoning" ++ ": " ++ q reasoning ++ "}".

(** A [json.loads] that knows one text. *)
Definition loads_one (text : string) (value : json) (s : string)
  : option json :=
  if String.eqb s text then Some value else None.

(** No string is consulted as a float in these runs. *)
Definition no_float (s : string) : option pyfloat := None.

Definition product : MapLlm.BsddClass :=
  {| MapLlm.bsdd_uri := "";
     MapLlm.code := "EC000001";
     MapLlm.name := "Gypsum board";
     MapLlm.definition := "";
     MapLlm.domain_namespace := "etim" |}.

Definition category (cat_id german : string) (parent : option string)
    (path : string) : MapLlm.OekobaudatCategory :=
  {| MapLlm.id := Some cat_id;
     MapLlm.name_de := Some german;
     MapLlm.parent_id := parent;
     MapLlm.full_path_de := Some path;
     MapLlm.uri := "https://oekobaudat.de/category/" ++ cat_id |}.

(** The taxonomy of scenario 6: a root [A] and its child [A.1]. *)
Definition taxonomy : list MapLlm.OekobaudatCategory :=
  [ category "A" "Mineralische Baustoffe" None "Mineralische Baustoffe";
    category "A.1" "Gipsplatten" (Some "A")
             "Mineralische Baustoffe/Gipsplatten" ].

(** The model answers [A.1] with confidence 0.9375 and calls it related. *)
Definition text_exact_called_related : string :=
  answer_text "A.1" "0.9375" "relatedMatch" "same product".
Definition json_exact_called_related : json :=
  JObj [ ("category_id", JStr "A.1"); ("confidence", JFloat (Fin (15 # 16)));
         ("match_type", JStr "relatedMatch");
         ("reasoning", JStr "same product") ].

(** The model answers [A.1] with confidence 1.5. *)
Definition text_overconfident : string :=
  answer_text "A.1" "1.5" "exactMatch" "certain".
Definition json_overconfident : json :=
  JObj [ ("category_id", JStr "A.1"); ("confidence", JFloat (Fin (3 # 2)));
         ("match_type", JStr "exactMatch"); ("reasoning", JStr "certain") ].

(** The model answers [A.1] with confidence 0.25 and calls it close. *)
Definition text_low : string :=
  answer_text "A.1" "0.25" "closeMatch" "weak".
Definition json_low : json :=
  JObj [ ("category_id", JStr "A.1"); ("confidence", JFloat (Fin (1 # 4)));
         ("match_type", JStr "closeMatch"); ("reasoning", JStr "weak") ].

(** The model answers [A.1] with confidence 0.9375 and no label. *)
Definition text_unlabelled : string :=
  answer_text_unlabelled "A.1" "0.9375" "same product".
Definition json_unlabelled : json :=
  JObj [ ("category_id", JStr "A.1"); ("confidence", JFloat (Fin (15 # 16)));
         ("reasoning", JStr "same product") ].

(** Scenario 7: the model answers [Z.9], which no category carries. *)
Definition text_unknown : string :=
  answer_text "Z.9" "0.75" "closeMatch" "guess".
Definition json_unknown : json :=
  JObj [ ("category_id", JStr "Z.9"); ("confidence", JFloat (Fin (3 # 4)));
         ("match_type", JStr "closeMatch"); ("reasoning", JStr "guess") ].

(** Eleven categories [K1] .. [K11]; the prompt lists the first ten. *)
Definition eleven : list MapLlm.OekobaudatCategory :=
  (fun k => category k ("Kategorie " ++ k) None ("Kategorie " ++ k))
  <$> [ "K1"; "K2"; "K3"; "K4"; "K5"; "K6"; "K7"; "K8"; "K9"; "K10"; "K11" ].

(** The model answers [K11], the category the prompt left out. *)
Definition text_eleventh : string :=
  answer_text "K11" "0.75" "closeMatch" "guess".
Definition json_eleventh : json :=
  JObj [ ("category_id", JStr "K11"); ("confidence", JFloat (Fin (3 # 4)));
         ("match_type", JStr "closeMatch"); ("reasoning", JStr "guess") ].

(** The mapping of [product] to a category of [cats], as the mapper builds
    it. *)
Definition mapping_to (cat : MapLlm.OekobaudatCategory) (lbl : string)
    (c : Q) (why : string) : MapLlm.Mapping :=
  {| MapLlm.bsdd_class := product;
     MapLlm.oekobaudat_category := cat;
     MapLlm.match_type := JStr lbl;
     MapLlm.confidence_score := Fin c;
     MapLlm.reasoning := JStr why;
     MapLlm.method := "llm-only" |}.

Definition A1 : MapLlm.OekobaudatCategory :=
  category "A.1" "Gipsplatten" (Some "A") "Mineralische Baustoffe/Gipsplatten".

Definition K11 : MapLlm.OekobaudatCategory :=
  category "K11" "Kategorie K11" None "Kategorie K11".

(** The ground truth of scenario 8. *)
Definition ground_truth : list ValidateAccuracy.GroundTruth :=
  [ {| ValidateAccuracy.gt_code := "C1";
       ValidateAccuracy.correct_oekobaudat_id := "A.1" |};
    {| ValidateAccuracy.gt_code := "C2";
       ValidateAccuracy.correct_oekobaudat_id := "A.2" |} ].

(** The correspondences of scenario 8: [C1] right, [C2] wrong. *)
Definition both_predicted : list ValidateAccuracy.Prediction :=
  [ ValidateAccuracy.Object "C1" "A.1" (Fin (15 # 16));
    ValidateAccuracy.Object "C2" "A.3" (Fin (3 # 4)) ].

(** A run that produced a correspondence for [C1] only. *)
Definition one_predicted : list ValidateAccuracy.Prediction :=
  [ ValidateAccuracy.Object "C1" "A.1" (Fin (15 # 16)) ].

(** Twelve entries [0] .. [11]; entry [n] is scored [n/10], entry [11]
    gets no mapping. *)
Definition entries : list nat := seq 0 12.
Definition entry_score (n : nat) : option pyfloat :=
  if (n <? 11)%nat then Some (Fin (Z.of_nat n # 10)) else None.

(** A matcher that returns for every entry: the mapping with that score,
    or none. *)
Definition entry_mapping (n : nat)
  : ValidationSample.Outcome (option pyfloat) :=
  ValidationSample.Returns (entry_score n).

(** A generator whose [n]-th raw draw is [7 n + 3]. *)
Definition generator (n : nat) : nat := 7 * n + 3.

(** XML elements of the category file. *)
Definition xml_category (attrib : list (string * string))
    (children : list BuildRdf.Element) : BuildRdf.Element :=
  BuildRdf.Elem (BuildRdf.qname "category") attrib children.

Definition xml_document (categories : list BuildRdf.Element)
  : BuildRdf.Source :=
  BuildRdf.Document
    (BuildRdf.Elem (BuildRdf.qname "CategorySystem") [("name", "OEKOBAU.DAT")]
       [ BuildRdf.Elem (BuildRdf.qname "categories") [("dataType", "Flow")] [];
         BuildRdf.Elem (BuildRdf.qname "categories") [("dataType", "Process")]
           categories ]).

(** A document whose second node declares a name but no id. *)
Definition nameless_id : BuildRdf.Source :=
  xml_document
    [ xml_category [("id", "1"); ("name", "Mineralische Baustoffe")]
        [ xml_category [("name", "Bindemittel")]
            [ xml_category [("id", "1.1.01"); ("name", "Zement")] [] ] ] ].

(** Two nodes that declare the same id. *)
Definition same_id_twice : BuildRdf.Source :=
  xml_document
    [ xml_category [("id", "1"); ("name", "Holz")] [];
      xml_category [("id", "1"); ("name", "Metalle")] [] ].

(** Two products named [Sonstige], one under [Holz], one under [Metalle]. *)
Definition sonstige_twice : BuildRdf.Source :=
  xml_document
    [ xml_category [("id", "1"); ("name", "Holz")]
        [ xml_category [("id", "1.1"); ("name", "Sonstige")] [] ];
      xml_category [("id", "2"); ("name", "Metalle")]
        [ xml_category [("id", "2.1"); ("name", "Sonstige")] [] ] ].

(** The same names with the two products exchanged. *)
Definition sonstige_swapped : BuildRdf.Source :=
  xml_document
    [ xml_category [("id", "1"); ("name", "Holz")]
        [ xml_category [("id", "2.1"); ("name", "Sonstige")] [] ];
      xml_category [("id", "2"); ("name", "Metalle")]
        [ xml_category [("id", "1.1"); ("name", "Sonstige")] [] ] ].

(** Two labels that differ in a dash between blanks. *)
Definition werkstoffe_twice : BuildRdf.Source :=
  xml_document
    [ xml_category [("id", "3"); ("name", "Holz – Werkstoffe")] [];
      xml_category [("id", "4"); ("name", "Holz Werkstoffe")] [] ].

(** A root and its child with distinct names. *)
Definition holz_vollholz : BuildRdf.Source :=
  xml_document
    [ xml_category [("id", "3"); ("name", "Holz")]
        [ xml_category [("id", "3.1"); ("name", "Vollholz")] [] ] ].

(** [Zement] as the parser stores it, two levels down. *)
Definition zement : BuildRdf.OekobaudatCategory :=
  {| BuildRdf.id := Some "1.1.01";
     BuildRdf.name_de := Some "Zement";
     BuildRdf.name_en := None;
     BuildRdf.parent_id := Some "1.1";
     BuildRdf.children_ids := [];
     BuildRdf.level := 2;
     BuildRdf.full_path_de := Some "Mineralische Baustoffe/Bindemittel/Zement";
     BuildRdf.full_path_en := None |}.

(** A translation cache with one phrase and one word. *)
Definition cache : gmap string string :=
  {[ "Putze und Farben" := "Plasters and Paints"; "Kies" := "Gravel" ]}.

(** The no-break space U+00A0, and a label written with it. *)
Definition nbsp : string := String "194" (String "160" EmptyString).

Definition sand_und_kies : string := "Sand" ++ nbsp ++ "und" ++ nbsp ++ "Kies".

(** The alphanumeric table on the Latin-1 range (U+0080..U+00FF): the
    feminine and masculine ordinal indicators, the micro sign, the
    superscript digits and the vulgar fractions, and the letters but for
    the multiplication and the division sign.  The runs below use no
    alphanumeric character beyond this range. *)
Definition latin1 : Unicode.Alphanumeric :=
  {| Unicode.isalnum n :=
       ((n =? 170) || (n =? 178) || (n =? 179) || (n =? 181) || (n =? 185)
        || (n =? 186) || (188 <=? n) && (n <=? 190)
        || (192 <=? n) && (n <=? 255) && negb (n =? 215)
           && negb (n =? 247))%N |}.

(** A model that always answers with the given text. *)
Definition says (text : string) (p : MapLlm.Prompt) : MapLlm.Reply :=
  MapLlm.Content (Some text).

End Examples.

(** ** Character-wise views of a [str] *)
Module Chars.

(** Every byte of [s] passes [f]. *)
Fixpoint all (f : ascii -> bool) (s : string) : bool :=
  match s with
  | EmptyString => true
  | String a s' => f a && all f s'
  end.

(** A whitespace character turned into a hyphen. *)
Definition hyphenate (c : string) : string :=
  if Unicode.isspace c then "-" else c.

(** [s] holds no byte [sep], an ASCII character. *)
Definition free (sep : ascii) (s : string) : bool :=
  all (fun a => negb (Ascii.eqb a sep)) s.

End Chars.

(** ** 02_map_etim_to_oekobaudat_llm.py: the parser of the category file *)
Module OekobaudatParser.
Import Py.
Import BuildRdf (Element, Elem, Source, Unparsable, Document, get,
                 is_category, path_below, find_process_categories).

(** The category object [_parse_categories] builds for a [category]
    element. *)
Definition category_of (category : Element)
    (parent_id parent_path : option string) : MapLlm.OekobaudatCategory :=
  let cat_id := get category "id" in
  let cat_name_de := get category "name" in
  {| MapLlm.id := cat_id;
     MapLlm.name_de := cat_name_de;
     MapLlm.parent_id := parent_id;
     MapLlm.full_path_de := path_below parent_path cat_name_de;
     MapLlm.uri := "https://oekobaudat.de/category/" ++ fmt cat_id |}.

(** [_parse_categories], on the list [self.categories]. *)
Fixpoint parse_categories (parent_elem : Element)
    (parent_id parent_path : option string)
    (categories : list MapLlm.OekobaudatCategory) {struct parent_elem}
  : list MapLlm.OekobaudatCategory :=
  match parent_elem with
  | Elem _ _ children =>
      (fix each (l : list Element)
           (categories : list MapLlm.OekobaudatCategory)
         : list MapLlm.OekobaudatCategory :=
         match l with
         | [] => categories
         | category :: rest =>
             if is_category category then
               let cat_obj := category_of category parent_id parent_path in
               each rest
                 (parse_categories category (MapLlm.id cat_obj)
                    (MapLlm.full_path_de cat_obj)
                    (categories ++ [cat_obj])%list)
             else each rest categories
         end) children categories
  end.

(** One turn of the loop of [_parse_categories] on a child of the parent
    element. *)
Definition turn (parent_id parent_path : option string)
    (categories : list MapLlm.OekobaudatCategory) (category : Element)
  : list MapLlm.OekobaudatCategory :=
  if is_category category then
    let cat_obj := category_of category parent_id parent_path in
    parse_categories category (MapLlm.id cat_obj)
      (MapLlm.full_path_de cat_obj) (categories ++ [cat_obj])%list
  else categories.

(** [OekobaudatParser.parse] on a fresh parser; [None] is the ParseError
    that leaves the run. *)
Definition parse (source : Source)
  : option (list MapLlm.OekobaudatCategory) :=
  match source with
  | Unparsable => None
  | Document root =>
      match find_process_categories root with
      | Some categories_elem =>
          Some (parse_categories categories_elem None (Some "") [])
      | None => Some []
      end
  end.

(** What the list parser and the dict of the ontology builder both keep of
    a category: name, parent id and path. *)
Definition listed (c : MapLlm.OekobaudatCategory)
  : option string * option string * option string :=
  (MapLlm.name_de c, MapLlm.parent_id c, MapLlm.full_path_de c).

Definition stored (c : BuildRdf.OekobaudatCategory)
  : option string * option string * option string :=
  (BuildRdf.name_de c, BuildRdf.parent_id c, BuildRdf.full_path_de c).

(** [c] is listed as a top-level category: no parent id, and its name as
    its path. *)
Definition top_level (c : MapLlm.OekobaudatCategory) : Prop :=
  MapLlm.parent_id c = None /\ MapLlm.full_path_de c = MapLlm.name_de c.

(** [c] is listed as a child of [p]: [p]'s id as its parent id, and [p]'s
    path extended by its name as its path. *)
Definition child_of (p c : MapLlm.OekobaudatCategory) : Prop :=
  MapLlm.parent_id c = MapLlm.id p
  /\ MapLlm.full_path_de c
     = path_below (MapLlm.full_path_de p) (MapLlm.name_de c).

(** Every category of the list is a top-level one or the child of a
    category listed before it. *)
Definition placed (categories : list MapLlm.OekobaudatCategory) : Prop :=
  forall i c,
    categories !! i = Some c ->
    top_level c
    \/ exists j p, (j < i)%nat /\ categories !! j = Some p /\ child_of p c.

(** The parent id and path handed down are those of the top call or of a
    category of the list. *)
Definition handed_down (categories : list MapLlm.OekobaudatCategory)
    (parent_id parent_path : option string) : Prop :=
  (parent_id = None /\ parent_path = Some "")
  \/ exists j p, categories !! j = Some p
                 /\ parent_id = MapLlm.id p
                 /\ parent_path = MapLlm.full_path_de p.

End OekobaudatParser.

(** ** 02_map_etim_to_oekobaudat_llm.py: the SKOS export *)
Module RdfGenerator.
Import Py.

(** An rdflib term: a URI reference, or a literal with or without a
    language tag. *)
Inductive Term : Type :=
  | URIRef (u : string)
  | Literal (lexical : string) (lang : option string).

#[global] Instance Term_eq_dec : EqDecision Term.
Proof. solve_decision. Defined.

#[global] Instance Term_countable : Countable Term.
Proof.
  refine (inj_countable'
    (fun t => match t with
              | URIRef u => inl u
              | Literal s l => inr (s, l)
              end)
    (fun x => match x with
              | inl u => URIRef u
              | inr (s, l) => Literal s l
              end) _).
  by intros [].
Defined.

Abbreviation Triple := (Term * Term * Term)%type.
Abbreviation Graph := (gset Triple).

Definition BSDD : string := "https://identifier.buildingsmart.org/uri/".
Definition SKOS : string := "http://www.w3.org/2004/02/skos/core#".
Definition RDF_type : Term :=
  URIRef "http://www.w3.org/1999/02/22-rdf-syntax-ns#type".
Definition RDFS_comment : Term :=
  URIRef "http://www.w3.org/2000/01/rdf-schema#comment".
Definition SKOS_Concept : Term := URIRef (SKOS ++ "Concept").
Definition SKOS_prefLabel : Term := URIRef (SKOS ++ "prefLabel").
Definition SKOS_notation : Term := URIRef (SKOS ++ "notation").
Definition SKOS_exactMatch : Term := URIRef (SKOS ++ "exactMatch").
Definition SKOS_closeMatch : Term := URIRef (SKOS ++ "closeMatch").
Definition SKOS_related : Term := URIRef (SKOS ++ "related").
Definition BSDD_noMatch : Term := URIRef (BSDD ++ "noMatch").

(** [match_type == label] for the value the mapping carries. *)
Definition is_label (match_type : json) (label : string) : bool :=
  match match_type with
  | JStr s => String.eqb s label
  | _ => false
  end.

(** The node of the bsDD class of a mapping. *)
Definition bsdd_uri (mapping : MapLlm.Mapping) : Term :=
  let cls := MapLlm.bsdd_class mapping in
  if truthy (MapLlm.bsdd_uri cls) then URIRef (MapLlm.bsdd_uri cls)
  else URIRef (BSDD ++ MapLlm.domain_namespace cls ++ "/class/"
                    ++ MapLlm.code cls).

(** The node of the category of a mapping. *)
Definition oeko_uri (mapping : MapLlm.Mapping) : Term :=
  URIRef (MapLlm.uri (MapLlm.oekobaudat_category mapping)).

(** The comment written for a [noMatch]. *)
Definition no_match_comment (mapping : MapLlm.Mapping) : Term :=
  Literal ("No good match found. Best candidate: "
           ++ fmt (MapLlm.name_de (MapLlm.oekobaudat_category mapping)))
          None.

(** [RdfGenerator.add_mapping] *)
Definition add_mapping (mapping : option MapLlm.Mapping) (graph : Graph)
  : Graph :=
  match mapping with
  | None => graph
  | Some mapping =>
      let cls := MapLlm.bsdd_class mapping in
      let graph := graph ∪ {[ (bsdd_uri mapping, RDF_type, SKOS_Concept) ]} in
      let graph :=
        graph ∪ {[ (bsdd_uri mapping, SKOS_prefLabel,
                    Literal (MapLlm.name cls) (Some "en")) ]} in
      let graph :=
        graph ∪ {[ (bsdd_uri mapping, SKOS_notation,
                    Literal (MapLlm.code cls) None) ]} in
      if is_label (MapLlm.match_type mapping) "exactMatch" then
        graph ∪ {[ (bsdd_uri mapping, SKOS_exactMatch, oeko_uri mapping) ]}
      else if is_label (MapLlm.match_type mapping) "closeMatch" then
        graph ∪ {[ (bsdd_uri mapping, SKOS_closeMatch, oeko_uri mapping) ]}
      else if is_label (MapLlm.match_type mapping) "relatedMatch" then
        graph ∪ {[ (bsdd_uri mapping, SKOS_related, oeko_uri mapping) ]}
      else if is_label (MapLlm.match_type mapping) "noMatch" then
        graph ∪ {[ (bsdd_uri mapping, BSDD_noMatch, oeko_uri mapping) ]}
              ∪ {[ (bsdd_uri mapping, RDFS_comment,
                    no_match_comment mapping) ]}
      else graph
  end.

(** The three triples that describe the bsDD class of a mapping. *)
Definition class_triples (mapping : MapLlm.Mapping) : Graph :=
  {[ (bsdd_uri mapping, RDF_type, SKOS_Concept);
     (bsdd_uri mapping, SKOS_prefLabel,
      Literal (MapLlm.name (MapLlm.bsdd_class mapping)) (Some "en"));
     (bsdd_uri mapping, SKOS_notation,
      Literal (MapLlm.code (MapLlm.bsdd_class mapping)) None) ]}.

(** The predicates that link a class to a category. *)
Definition link_predicates : list Term :=
  [ SKOS_exactMatch; SKOS_closeMatch; SKOS_related; BSDD_noMatch ].

Section Pipeline.
Variable query_llm : MapLlm.Prompt -> MapLlm.Reply.
Variable json_loads : string -> option json.
Variable float_of_str : string -> option pyfloat.


End Pipeline.

End RdfGenerator.

(** ** More concrete answers and products *)
Module Answers.
Import Py Examples.

(** The model answers [A.1] with confidence 0.75 and a label that is none
    of the four of the prompt. *)
Definition text_broad : string :=
  answer_text "A.1" "0.75" "broadMatch" "wider".
Definition json_broad : json :=
  JObj [ ("category_id", JStr "A.1"); ("confidence", JFloat (Fin (3 # 4)));
         ("match_type", JStr "broadMatch"); ("reasoning", JStr "wider") ].

(** The model answers [3.1] with confidence 0.75. *)
Definition text_vollholz : string :=
  answer_text "3.1" "0.75" "closeMatch" "wood".
Definition json_vollholz : json :=
  JObj [ ("category_id", JStr "3.1"); ("confidence", JFloat (Fin (3 # 4)));
         ("match_type", JStr "closeMatch"); ("reasoning", JStr "wood") ].

(** [Vollholz] as the mapper lists it. *)
Definition vollholz : MapLlm.OekobaudatCategory :=
  category "3.1" "Vollholz" (Some "3") "Holz/Vollholz".


(** The answer of scenario 6, third case, inside a markdown fence tagged
    [json]. *)
Definition fenced_low : string :=
  let nl := String (ascii_of_nat 10) EmptyString in
  LlmMatcherAzure.fence ++ "json" ++ nl ++ text_low ++ nl
  ++ LlmMatcherAzure.fence.

End Answers.

(** * Theorems *)

(** ** Floats and strings *)
Section PyFacts.
Import Py.

Lemma fge_not_flt (c t : pyfloat) : fge c t = true -> flt c t = false.
Proof.
  destruct c, t; cbn; try done.
  intros ->. done.
Qed.

Lemma flt_not_fge (c t : pyfloat) : flt c t = true -> fge c t = false.
Proof.
  destruct c, t; cbn; try done.
  by intros ->%negb_true_iff.
Qed.

Lemma truthy_strip (s : string) : truthy (strip s) = true -> truthy s = true.
Proof. by destruct s. Qed.

Lemma flt_Fin (x y : Q) : flt (Fin x) (Fin y) = true <-> (x < y)%Q.
Proof.
  cbn. rewrite negb_true_iff, <- not_true_iff_false, Qle_bool_iff.
  split; [apply Qnot_le_lt | apply Qlt_not_le].
Qed.

Lemma fle_Fin (x y : Q) : fle (Fin x) (Fin y) = true <-> (x <= y)%Q.
Proof. cbn. apply Qle_bool_iff. Qed.

(** A float below [s] is not at or above any [t] from [s] on. *)
Lemma flt_fge_false (c : pyfloat) (s t : Q) :
  (s <= t)%Q -> flt c (Fin s) = true -> fge c (Fin t) = false.
Proof.
  intros Hst Hlt. destruct c as [x| | |]; try done.
  apply not_true_iff_false. unfold fge. rewrite fle_Fin.
  apply flt_Fin in Hlt. intros Htx.
  apply (Qlt_irrefl x). eapply Qlt_le_trans; [exact Hlt|].
  by eapply Qle_trans.
Qed.

(** Below 0.5 the table gives the band [none]. *)
Lemma banding_below_half (c : pyfloat) :
  flt c (Fin (1 # 2)) = true -> Spec.banding c = Some Spec.none.
Proof.
  intros Hlow. unfold Spec.banding.
  assert (Hhalf : flt c (Fin (5 # 10)) = true).
  { destruct c as [x| | |]; try done.
    apply flt_Fin. apply flt_Fin in Hlow.
    eapply Qlt_le_trans; [exact Hlow|]. done. }
  rewrite (flt_fge_false c (1 # 2) (9 # 10)) by done.
  pose proof (flt_fge_false c (1 # 2) (7 # 10)) as H7.
  pose proof (flt_fge_false c (1 # 2) (5 # 10)) as H5.
  unfold fge in H7, H5. rewrite H7, H5 by done.
  cbn. by rewrite Hhalf.
Qed.
(** Rounding to the nearest integer stays within integer bounds. *)
Lemma nearest_even_bounds (num den bound : Z) :
  (0 < den)%Z -> (0 <= num <= bound * den)%Z ->
  (0 <= nearest_even num den <= bound)%Z.
Proof.
  intros Hden [Hnum Hbound]. unfold nearest_even. cbn zeta.
  pose proof (Z.div_mod num den ltac:(lia)) as Hdiv.
  pose proof (Z.mod_pos_bound num den Hden) as Hmod.
  assert (Hm : (0 <= num / den)%Z) by (apply Z.div_pos; lia).
  assert (Hle : (num / den <= bound)%Z)
    by (apply Z.div_le_upper_bound; lia).
  destruct ((den <? 2 * (num mod den))%Z
            || ((2 * (num mod den) =? den)%Z && Z.odd (num / den))) eqn:Hup;
    [|lia].
  assert (Hr : (0 < num mod den)%Z).
  { apply orb_true_iff in Hup as [Hup|[Hup _]%andb_true_iff]; lia. }
  split; [lia|].
  assert (den * (num / den) < den * bound)%Z by lia.
  assert (num / den < bound)%Z by (apply Z.mul_lt_mono_pos_l with den; lia).
  lia.
Qed.

Lemma true_div_0 (d : Z) : true_div 0 d = 0%Q.
Proof. done. Qed.

(** The float quotient of a count by a total it does not exceed lies
    between 0 and 1. *)
Lemma true_div_unit (n d : Z) :
  (0 <= n <= d)%Z -> (0 < d)%Z -> (0 <= true_div n d <= 1)%Q.
Proof.
  intros [Hn Hnd] Hd. unfold true_div.
  destruct (Z.eqb_spec n 0) as [->|Hne]; [done|]. cbn zeta.
  assert (Hlog : (Z.log2 n <= Z.log2 d)%Z) by (by apply Z.log2_le_mono).
  set (e0 := (Z.log2 n - Z.log2 d - 52)%Z).
  match goal with
  | |- context [if ?b then (e0 - 1)%Z else e0] =>
      set (e := if b then (e0 - 1)%Z else e0)
  end.
  assert (He : (e <= -52)%Z) by (unfold e, e0; case_match; lia).
  rewrite (Z.max_l 0 e), (Z.max_r 0 (- e)), Z.pow_0_r, !Z.mul_1_r by lia.
  assert (Hpow : (0 < 2 ^ (- e))%Z) by (apply Z.pow_pos_nonneg; lia).
  destruct (nearest_even_bounds (n * 2 ^ (- e)) d (2 ^ (- e)) Hd) as [Hm0 Hm1];
    [nia|].
  rewrite Qred_correct. unfold Qle. cbn [Qnum Qden].
  rewrite Z2Pos.id by done. lia.
Qed.
End PyFacts.

(** ** Texts and their characters *)
Section UnicodeFacts.
Import Py Unicode.

Lemma append_cons (a : ascii) (s t : string) :
  String a s ++ t = String a (s ++ t).
Proof. done. Qed.

Lemma append_nil_r (s : string) : s ++ "" = s.
Proof.
  induction s as [|a s IH]; [done|]. by rewrite append_cons, IH.
Qed.

Lemma append_assoc (s1 s2 s3 : string) : (s1 ++ s2) ++ s3 = s1 ++ (s2 ++ s3).
Proof.
  induction s1 as [|a s1 IH]; [done|].
  by rewrite !append_cons, IH.
Qed.

Lemma truthy_append (s t : string) : truthy t = true -> truthy (s ++ t) = true.
Proof. destruct s; [done|]. by rewrite append_cons. Qed.

Lemma chars_cons (a : ascii) (s : string) :
  chars (String a s)
  = if starts_inside s then
      match chars s with
      | c :: rest => String a c :: rest
      | [] => [String a EmptyString]
      end
    else String a EmptyString :: chars s.
Proof. done. Qed.

Lemma text_app (l1 l2 : list string) : text (l1 ++ l2) = text l1 ++ text l2.
Proof.
  induction l1 as [|c l1 IH]; [done|].
  cbn [text app]. by rewrite IH, append_assoc.
Qed.

(** Putting the characters of a text together gives the text back. *)
Lemma text_chars (s : string) : text (chars s) = s.
Proof.
  induction s as [|a s IH]; [done|]. rewrite chars_cons.
  destruct (starts_inside s).
  - destruct (chars s) as [|c rest]; cbn [text] in *.
    + by rewrite <- IH.
    + by rewrite append_cons, IH.
  - cbn [text]. by rewrite IH.
Qed.

(** A character put before a text that starts with a character. *)
Lemma chars_glue (t : string) :
  forall (a : ascii) (r : string),
    continuation t = true -> starts_inside r = false ->
    chars (String a (t ++ r)) = String a t :: chars r.
Proof.
  induction t as [|b t IH]; intros a r Ht Hr.
  - change (chars (String a r) = String a EmptyString :: chars r).
    by rewrite chars_cons, Hr.
  - cbn [continuation] in Ht. apply andb_true_iff in Ht as [Hb Ht].
    rewrite append_cons, chars_cons, (IH b r Ht Hr). cbn [starts_inside].
    by rewrite Hb.
Qed.

(** The characters of characters put together are these characters, when
    all but the first start with a byte that is no continuation byte. *)
Lemma chars_text (l : list string) :
  Forall (fun c => is_char c = true) l ->
  Forall (fun c => starts_inside c = false) (tail l) ->
  chars (text l) = l.
Proof.
  induction 1 as [|c l Hc Hl IH]; intros Htail; [done|].
  cbn [tail] in Htail. destruct c as [|a t]; [done|]. cbn [text].
  rewrite append_cons, chars_glue; [f_equal; apply IH|done|].
  - destruct Htail; [constructor|done].
  - destruct Htail as [|c2 l2 Hc2 _]; [done|].
    inversion Hl as [|? ? Hchar _]; subst. destruct c2; [done|].
    cbn [text]. by rewrite append_cons.
Qed.

(** The shape of what [chars] returns. *)
Lemma chars_shape (s : string) :
  Forall (fun c => is_char c = true) (chars s)
  /\ Forall (fun c => starts_inside c = false) (tail (chars s))
  /\ match chars s with
     | c :: _ => starts_inside c = starts_inside s
     | [] => s = EmptyString
     end.
Proof.
  induction s as [|a s (Hchar & Htail & Hhead)]; [done|].
  rewrite chars_cons. destruct (starts_inside s) eqn:Hs.
  - destruct (chars s) as [|c rest].
    + by repeat constructor.
    + split; [|done]. apply Forall_cons in Hchar as [Hc Hrest].
      constructor; [|done]. cbn. destruct c as [|b t]; [done|].
      cbn in *. by rewrite Hhead, Hc.
  - split; [by constructor|]. split; [|done]. cbn [tail].
    destruct (chars s) as [|c rest]; [constructor|].
    constructor; [congruence|done].
Qed.

Lemma chars_truthy (s : string) : Forall (fun c => truthy c = true) (chars s).
Proof.
  destruct (chars_shape s) as (Hchar & _).
  eapply Forall_impl; [exact Hchar|]. by intros [|a t].
Qed.

(** The characters of a text that starts with a character start a text each. *)
Lemma chars_start (s : string) :
  starts_inside s = false ->
  Forall (fun c => starts_char c = true) (chars s).
Proof.
  intros Hs. destruct (chars_shape s) as (Hchar & Htail & Hhead).
  destruct (chars s) as [|c l]; [constructor|].
  cbn [tail] in Htail. rewrite Hs in Hhead.
  apply Forall_cons in Hchar as [Hc Hl].
  constructor; [unfold starts_char; by rewrite Hc, Hhead|].
  clear -Hl Htail. induction Hl as [|c' l Hc' _ IH]; [constructor|].
  apply Forall_cons in Htail as [Hin Htail].
  constructor; [|by apply IH]. unfold starts_char. by rewrite Hc', Hin.
Qed.

(** The characters of two texts put together, the second starting with a
    character. *)
Lemma chars_app (s1 s2 : string) :
  starts_inside s2 = false -> chars (s1 ++ s2) = (chars s1 ++ chars s2)%list.
Proof.
  intros Hs2. rewrite <- (text_chars s1), <- (text_chars s2) at 1.
  rewrite <- text_app. apply chars_text.
  - apply Forall_app. split; [apply chars_shape|].
    eapply Forall_impl; [by apply chars_start|].
    by intros c [? _]%andb_true_iff.
  - destruct (chars_shape s1) as (_ & Htail & _).
    pose proof (chars_start s2 Hs2) as Hstart.
    assert (Hnot : Forall (fun c => starts_inside c = false) (chars s2)).
    { eapply Forall_impl; [exact Hstart|].
      by intros c [_ ?%negb_true_iff]%andb_true_iff. }
    destruct (chars s1) as [|c l]; cbn [app tail] in *.
    + by destruct Hnot.
    + by apply Forall_app.
Qed.
End UnicodeFacts.

(** ** The LLM matcher *)
Section MatcherFacts.
Import Py MapLlm.
Variable query_llm : Prompt -> Reply.
Variable json_loads : string -> option json.
Variable float_of_str : string -> option pyfloat.

Local Abbreviation create_mapping :=
  (MapLlm.create_mapping query_llm json_loads float_of_str).
Local Abbreviation mapping_of_response :=
  (MapLlm.mapping_of_response json_loads float_of_str).

(** Everything a produced mapping says about the answer it came from. *)
Lemma mapping_of_response_Some cls cats response m :
  mapping_of_response cls cats response = Some m ->
  exists result wanted raw,
    json_loads (strip response) = Some result
    /\ subscript result "category_id" = Some wanted
    /\ find_category cats wanted = Some (oekobaudat_category m)
    /\ subscript result "confidence" = Some raw
    /\ py_float float_of_str raw = Some (confidence_score m)
    /\ subscript result "reasoning" = Some (reasoning m)
    /\ bsdd_class m = cls
    /\ (if flt (confidence_score m) (Fin (1 # 2))
        then match_type m = JStr "noMatch"
        else get_default result "match_type" (JStr "closeMatch")
             = Some (match_type m)).
Proof.
  unfold MapLlm.mapping_of_response. intros H.
  destruct (json_loads (strip response)) as [result|] eqn:Hres; [|done].
  cbn in H.
  destruct (subscript result "category_id") as [wanted|] eqn:Hw; [|done].
  cbn in H.
  destruct (find_category cats wanted) as [category|] eqn:Hc; [|done].
  cbn in H.
  destruct (subscript result "confidence") as [raw|] eqn:Hr; [|done].
  cbn in H.
  destruct (py_float float_of_str raw) as [c|] eqn:Hf; [|done].
  cbn in H.
  exists result, wanted, raw.
  destruct (flt c (Fin (1 # 2))) eqn:Hlow.
  - destruct (subscript result "reasoning") as [why|] eqn:Hy; [|done].
    cbn in H. injection H as <-. cbn. rewrite Hlow. done.
  - destruct (get_default result "match_type" (JStr "closeMatch"))
      as [lbl|] eqn:Hl; [|done].
    cbn in H.
    destruct (subscript result "reasoning") as [why|] eqn:Hy; [|done].
    cbn in H. injection H as <-. cbn. rewrite Hlow. done.
Qed.

Lemma create_mapping_Some cls cats m :
  create_mapping cls cats = Some m ->
  exists response,
    query_llm (create_prompt cls cats) = Content (Some response)
    /\ truthy (strip response) = true
    /\ mapping_of_response cls cats response = Some m.
Proof.
  unfold MapLlm.create_mapping.
  destruct (query_llm (create_prompt cls cats)) as [|[response|]]; try done.
  destruct (truthy response) eqn:Ht; cbn; [|done].
  destruct (truthy (strip response)) eqn:Hs; cbn; [|done].
  intros H. by exists response.
Qed.

Lemma create_mapping_of_response cls cats response :
  query_llm (create_prompt cls cats) = Content (Some response) ->
  truthy (strip response) = true ->
  create_mapping cls cats = mapping_of_response cls cats response.
Proof.
  intros Hq Hs. unfold MapLlm.create_mapping. rewrite Hq.
  by rewrite (truthy_strip _ Hs), Hs.
Qed.

(** C1 (as amended): the match-type of a produced mapping is [noMatch]
    when the confidence is below 0.5; otherwise it is the [match_type]
    field of the model's answer, or [closeMatch] when the answer has no
    such field.  The bands for 0.5 and above are not applied. *)
Theorem C1_match_type_is_the_answers_label cls cats m :
  create_mapping cls cats = Some m ->
  exists response result,
    query_llm (create_prompt cls cats) = Content (Some response)
    /\ json_loads (strip response) = Some result
    /\ (if flt (confidence_score m) (Fin (1 # 2))
        then match_type m = JStr "noMatch"
        else get_default result "match_type" (JStr "closeMatch")
             = Some (match_type m)).
Proof.
  intros (response & Hq & _ & Hm)%create_mapping_Some.
  apply mapping_of_response_Some in Hm
    as (result & _ & _ & Hres & _ & _ & _ & _ & _ & _ & Hlbl).
  by exists response, result.
Qed.

(** C2 (as amended): when the identifier the model selected is carried by
    no category of the list handed to [create_mapping] (the whole list,
    of which the prompt shows the first ten), no mapping is produced. *)
Theorem C2_unknown_identifier_rejected cls cats response result wanted :
  query_llm (create_prompt cls cats) = Content (Some response) ->
  json_loads (strip response) = Some result ->
  subscript result "category_id" = Some wanted ->
  find_category cats wanted = None ->
  create_mapping cls cats = None.
Proof.
  intros Hq Hres Hw Hnone.
  destruct (create_mapping cls cats) as [m|] eqn:Hm; [|done].
  apply create_mapping_Some in Hm as (response' & Hq' & _ & Hm).
  rewrite Hq in Hq'. injection Hq' as <-.
  apply mapping_of_response_Some in Hm
    as (result' & wanted' & _ & Hres' & Hw' & Hc & _).
  congruence.
Qed.

(** C4: an answer that parses, selects a known category, gives the reason
    and has a confidence below 0.5 yields a mapping; it keeps the selected
    category and the confidence, its match-type is [noMatch], and that is
    the band of the table for this confidence. *)
Theorem C4_low_confidence_still_recorded
    cls cats response result wanted category raw c why :
  query_llm (create_prompt cls cats) = Content (Some response) ->
  truthy (strip response) = true ->
  json_loads (strip response) = Some result ->
  subscript result "category_id" = Some wanted ->
  find_category cats wanted = Some category ->
  subscript result "confidence" = Some raw ->
  py_float float_of_str raw = Some c ->
  flt c (Fin (1 # 2)) = true ->
  subscript result "reasoning" = Some why ->
  create_mapping cls cats
  = Some {| bsdd_class := cls;
            oekobaudat_category := category;
            match_type := JStr "noMatch";
            confidence_score := c;
            reasoning := why;
            method := "llm-only" |}
  /\ Spec.banding c = Some Spec.none.
Proof.
  intros Hq Hs Hres Hw Hc Hr Hf Hlow Hy. split.
  - rewrite (create_mapping_of_response _ _ _ Hq Hs).
    unfold MapLlm.mapping_of_response.
    rewrite Hres; cbn. rewrite Hw; cbn. rewrite Hc; cbn.
    rewrite Hr; cbn. rewrite Hf; cbn. rewrite Hlow, Hy. done.
  - by apply banding_below_half.
Qed.

(** C8 (as amended): the confidence of a produced mapping is the float
    value of the [confidence] field of the model's answer, as it stands;
    nothing brings it into the interval from 0 to 1. *)
Theorem C8_confidence_is_the_answers cls cats m :
  create_mapping cls cats = Some m ->
  exists response result raw,
    query_llm (create_prompt cls cats) = Content (Some response)
    /\ json_loads (strip response) = Some result
    /\ subscript result "confidence" = Some raw
    /\ py_float float_of_str raw = Some (confidence_score m).
Proof.
  intros (response & Hq & _ & Hm)%create_mapping_Some.
  apply mapping_of_response_Some in Hm
    as (result & _ & raw & Hres & _ & _ & Hr & Hf & _).
  by exists response, result, raw.
Qed.

(** C10: for an answer that parses to an object without [match_type],
    selects a known category and has a confidence of at least 0.5, every
    mapping produced has match-type [closeMatch], whatever the band of
    the confidence; one is produced as soon as the answer gives a reason.
    The result of [find_best_match_llm] built from such an object has the
    same match-type. *)
Theorem C10_missing_label_defaults_to_closeMatch
    cls cats response kv wanted category raw c :
  query_llm (create_prompt cls cats) = Content (Some response) ->
  truthy (strip response) = true ->
  json_loads (strip response) = Some (JObj kv) ->
  dict_get kv "match_type" = None ->
  dict_get kv "category_id" = Some wanted ->
  find_category cats wanted = Some category ->
  dict_get kv "confidence" = Some raw ->
  py_float float_of_str raw = Some c ->
  fge c (Fin (1 # 2)) = true ->
  (forall m, create_mapping cls cats = Some m ->
             match_type m = JStr "closeMatch")
  /\ (forall why, dict_get kv "reasoning" = Some why ->
        create_mapping cls cats
        = Some {| bsdd_class := cls;
                  oekobaudat_category := category;
                  match_type := JStr "closeMatch";
                  confidence_score := c;
                  reasoning := why;
                  method := "llm-only" |})
  /\ (forall text r,
        json_loads text = Some (JObj kv) ->
        LlmMatcherAzure.result_of_text json_loads float_of_str text = Some r ->
        LlmMatcherAzure.match_type r = JStr "closeMatch").
Proof.
  intros Hq Hs Hres Hno Hw Hc Hr Hf Hge.
  pose proof (fge_not_flt _ _ Hge) as Hlow.
  assert (Hall : forall why, dict_get kv "reasoning" = Some why ->
    create_mapping cls cats
    = Some {| bsdd_class := cls; oekobaudat_category := category;
              match_type := JStr "closeMatch"; confidence_score := c;
              reasoning := why; method := "llm-only" |}).
  { intros why Hy. rewrite (create_mapping_of_response _ _ _ Hq Hs).
    unfold MapLlm.mapping_of_response.
    rewrite Hres; cbn. rewrite Hw; cbn. rewrite Hc; cbn.
    rewrite Hr; cbn. rewrite Hf; cbn. rewrite Hlow, Hno; cbn.
    by rewrite Hy. }
  split; [|split].
  - intros m Hm.
    pose proof Hm as (response' & Hq' & _ & Hm')%create_mapping_Some.
    apply mapping_of_response_Some in Hm'
      as (result' & _ & _ & Hres' & _ & _ & _ & _ & Hy & _).
    rewrite Hq in Hq'. injection Hq' as <-.
    rewrite Hres in Hres'. injection Hres' as <-.
    cbn in Hy. rewrite (Hall _ Hy) in Hm. by injection Hm as <-.
  - exact Hall.
  - intros text r Htext. unfold LlmMatcherAzure.result_of_text.
    rewrite Htext; cbn.
    destruct (dict_get kv "category_id"); [cbn|done].
    destruct (dict_get kv "category_name"); [cbn|done].
    destruct (dict_get kv "confidence") as [raw'|]; [cbn|done].
    destruct (py_float float_of_str raw'); [cbn|done].
    rewrite Hno; cbn.
    destruct (dict_get kv "reasoning"); cbn; [|done].
    by intros [= <-].
Qed.
End MatcherFacts.

(** ** The LLM matcher on concrete answers *)
Section MatcherRuns.
Import Py MapLlm Examples.

(** C1, counterexample: the model selects [A.1] with confidence 0.9375
    and the label [relatedMatch]; the mapping keeps that label although
    the table puts 0.9375 in the band [exact]. *)
Lemma C1_counterexample :
  create_mapping (says text_exact_called_related)
    (loads_one text_exact_called_related json_exact_called_related)
    no_float product taxonomy
  = Some (mapping_to A1 "relatedMatch" (15 # 16) "same product")
  /\ ~ Spec.banded (mapping_to A1 "relatedMatch" (15 # 16) "same product").
Proof.
  split; [by vm_compute|].
  unfold Spec.banded. vm_compute. discriminate.
Qed.

Lemma C1_witness :
  exists response result,
    says text_exact_called_related (create_prompt product taxonomy)
    = Content (Some response)
    /\ loads_one text_exact_called_related json_exact_called_related
         (strip response) = Some result
    /\ (if flt (confidence_score
                  (mapping_to A1 "relatedMatch" (15 # 16) "same product"))
               (Fin (1 # 2))
        then match_type
               (mapping_to A1 "relatedMatch" (15 # 16) "same product")
             = JStr "noMatch"
        else get_default result "match_type" (JStr "closeMatch")
             = Some (match_type
                       (mapping_to A1 "relatedMatch" (15 # 16)
                                   "same product"))).
Proof.
  apply (C1_match_type_is_the_answers_label
           (says text_exact_called_related)
           (loads_one text_exact_called_related json_exact_called_related)
           no_float product taxonomy).
  vm_compute. reflexivity.
Defined.

(** C2, counterexample: of eleven categories the prompt lists ten; the
    model selects the eleventh, [K11], and a mapping to it is produced. *)
Lemma C2_counterexample :
  find_category (shown eleven) (JStr "K11") = None
  /\ create_mapping (says text_eleventh)
       (loads_one text_eleventh json_eleventh) no_float product eleven
     = Some (mapping_to K11 "closeMatch" (3 # 4) "guess").
Proof. split; by vm_compute. Qed.

(** Scenario 7: [Z.9] is carried by no category. *)
Lemma C2_witness :
  create_mapping (says text_unknown) (loads_one text_unknown json_unknown)
    no_float product taxonomy = None.
Proof.
  apply (C2_unknown_identifier_rejected
           (says text_unknown) (loads_one text_unknown json_unknown)
           no_float product taxonomy text_unknown json_unknown
           (JStr "Z.9")); vm_compute; reflexivity.
Defined.

(** Scenario 6, third case: confidence 0.25 with the label [closeMatch]. *)
Lemma C4_witness :
  create_mapping (says text_low) (loads_one text_low json_low)
    no_float product taxonomy
  = Some (mapping_to A1 "noMatch" (1 # 4) "weak")
  /\ Spec.banding (Fin (1 # 4)) = Some Spec.none.
Proof.
  apply (C4_low_confidence_still_recorded
           (says text_low) (loads_one text_low json_low) no_float
           product taxonomy text_low json_low (JStr "A.1") A1
           (JFloat (Fin (1 # 4))) (Fin (1 # 4)) (JStr "weak"));
    vm_compute; reflexivity.
Defined.

(** C8, counterexample: the model gives the confidence 1.5, and the
    mapping carries 1.5. *)
Lemma C8_counterexample :
  create_mapping (says text_overconfident)
    (loads_one text_overconfident json_overconfident)
    no_float product taxonomy
  = Some (mapping_to A1 "exactMatch" (3 # 2) "certain")
  /\ Spec.in_unit_interval
       (confidence_score (mapping_to A1 "exactMatch" (3 # 2) "certain"))
     = false.
Proof. split; by vm_compute. Qed.

Lemma C8_witness :
  exists response result raw,
    says text_overconfident (create_prompt product taxonomy)
    = Content (Some response)
    /\ loads_one text_overconfident json_overconfident (strip response)
       = Some result
    /\ subscript result "confidence" = Some raw
    /\ py_float no_float raw
       = Some (confidence_score
                 (mapping_to A1 "exactMatch" (3 # 2) "certain")).
Proof.
  apply (C8_confidence_is_the_answers
           (says text_overconfident)
           (loads_one text_overconfident json_overconfident)
           no_float product taxonomy).
  vm_compute. reflexivity.
Defined.

(** An answer in the band [exact] without a label is mapped as
    [closeMatch]. *)
Lemma C10_witness :
  create_mapping (says text_unlabelled)
    (loads_one text_unlabelled json_unlabelled) no_float product taxonomy
  = Some (mapping_to A1 "closeMatch" (15 # 16) "same product").
Proof.
  refine (proj1 (proj2 (C10_missing_label_defaults_to_closeMatch
           (says text_unlabelled)
           (loads_one text_unlabelled json_unlabelled) no_float
           product taxonomy text_unlabelled
           [ ("category_id", JStr "A.1");
             ("confidence", JFloat (Fin (15 # 16)));
             ("reasoning", JStr "same product") ]
           (JStr "A.1") A1 (JFloat (Fin (15 # 16))) (Fin (15 # 16))
           _ _ _ _ _ _ _ _ _)) (JStr "same product") _);
    vm_compute; reflexivity.
Defined.
End MatcherRuns.

(** ** Scoring against the ground truth *)
Section Scoring.
Import Py ValidateAccuracy.

(** One turn of the loop adds a hit to the counter or a miss to the
    errors. *)
Lemma step_hit_miss (gt_dict : gmap string string) (correct : Z)
    (errors : list Error) (pred : Prediction) :
  step gt_dict (correct, errors) pred
  = ((correct + if hit gt_dict pred then 1 else 0)%Z,
     (errors ++ option_list (miss gt_dict pred))%list).
Proof.
  unfold step, hit, miss, judged.
  destruct (pred_code pred) as [code|]; cbn;
    [|by rewrite Z.add_0_r, app_nil_r].
  destruct (gt_dict !! code) as [actual_id|]; cbn;
    [|by rewrite Z.add_0_r, app_nil_r].
  destruct (bool_decide (pred_id pred = Some actual_id)); cbn.
  - by rewrite app_nil_r.
  - by rewrite Z.add_0_r.
Qed.

(** The loop over the predictions, from any counter and error list. *)
Lemma foldl_step (gt_dict : gmap string string) (predictions : list Prediction)
    (correct : Z) (errors : list Error) :
  foldl (step gt_dict) (correct, errors) predictions
  = ((correct + Z.of_nat (length (List.filter (hit gt_dict) predictions)))%Z,
     (errors ++ omap (miss gt_dict) predictions)%list).
Proof.
  revert correct errors.
  induction predictions as [|pred predictions IH]; intros correct errors.
  - cbn. by rewrite Z.add_0_r, app_nil_r.
  - cbn [foldl List.filter omap list_omap]. rewrite step_hit_miss, IH.
    destruct (hit gt_dict pred), (miss gt_dict pred) as [e|];
      cbn [option_list length]; rewrite <- ?app_assoc, ?app_nil_r;
      f_equal; lia.
Qed.

(** C3 (as amended): the accuracy is the number of predictions whose code
    has a ground truth and whose identifier equals it, divided by the
    number of all ground-truth records (0 when there is none), as the
    float nearest to that quotient: a record without a correspondence stays
    in the denominator.  The errors are, in order, the judged predictions
    that name another identifier, each with its code, the predicted and the
    actual identifier and the confidence. *)
Theorem C3_accuracy_over_all_ground_truth (method_name : string)
    (predictions : list Prediction) (ground_truth : list GroundTruth) :
  let gt_dict := gt_lookup ground_truth in
  let correct := Z.of_nat (length (List.filter (hit gt_dict) predictions)) in
  let total := Z.of_nat (length ground_truth) in
  evaluate_method method_name predictions ground_truth
  = (if (0 <? total)%Z then true_div correct total else 0%Q,
     omap (miss gt_dict) predictions).
Proof.
  cbn zeta. unfold evaluate_method. by rewrite foldl_step.
Qed.

(** C3, counterexample: with ground truth for [C1] and [C2] and a single,
    right correspondence for [C1], the code reports 1/2 where the claimed
    quotient, which leaves [C2] out of the denominator, is 1. *)
Lemma C3_counterexample :
  ((evaluate_method "LLM" Examples.one_predicted Examples.ground_truth).1
   == 1 # 2)%Q
  /\ (Spec.accuracy Examples.one_predicted Examples.ground_truth == 1)%Q
  /\ ~ ((evaluate_method "LLM" Examples.one_predicted Examples.ground_truth).1
        == Spec.accuracy Examples.one_predicted Examples.ground_truth)%Q.
Proof.
  split; [by vm_compute|]. split; [by vm_compute|].
  vm_compute. discriminate.
Qed.

(** Scenario 8: accuracy 0.5 and one recorded error, for [C2]. *)
Lemma scenario_8 :
  evaluate_method "LLM" Examples.both_predicted Examples.ground_truth
  = ((1 / 2)%Q,
     [ {| err_code := "C2"; predicted := Some "A.3"; actual := "A.2";
          err_confidence := Fin (3 # 4) |} ]).
Proof. by vm_compute. Qed.
End Scoring.

(** ** Sampling *)
Section Sampling.
Import Py.
Context {A : Type}.
Variable rnd : nat -> nat.

(** [draw] returns as many entries as asked when the pool has them. *)
Lemma draw_length (k : nat) (pool : list A) (st : nat) :
  (k <= length pool)%nat -> length (Random.draw rnd k pool st).1 = k.
Proof.
  revert pool st. induction k as [|k IH]; intros pool st Hk; [done|].
  cbn [Random.draw].
  assert (Hj : (rnd st mod length pool < length pool)%nat)
    by (apply Nat.mod_upper_bound; lia).
  destruct (lookup_lt_is_Some_2 pool _ Hj) as [x Hx]. rewrite Hx.
  specialize (IH (delete (rnd st mod length pool)%nat pool) (S st)).
  destruct (Random.draw rnd k _ (S st)) as [rest st'].
  cbn in *. f_equal. apply IH.
  rewrite length_delete by eauto. lia.
Qed.

(** [draw] never returns an entry more often than the pool holds it. *)
Lemma draw_submseteq (k : nat) (pool : list A) (st : nat) :
  (Random.draw rnd k pool st).1 ⊆+ pool.
Proof.
  revert pool st. induction k as [|k IH]; intros pool st.
  - apply submseteq_nil_l.
  - cbn [Random.draw].
    destruct (pool !! (rnd st mod length pool)%nat) as [x|] eqn:Hx;
      [|apply submseteq_nil_l].
    specialize (IH (delete (rnd st mod length pool)%nat pool) (S st)).
    destruct (Random.draw rnd k _ (S st)) as [rest st'].
    cbn in *. rewrite (delete_Permutation pool _ x Hx).
    by apply submseteq_skip.
Qed.

(** [random.sample] succeeds for a size within the population, and then
    draws that many entries without replacement. *)
Lemma sample_drawn (population : list A) (k : Z) (st : nat) :
  (0 <= k <= Z.of_nat (length population))%Z ->
  exists sample st',
    Random.sample rnd population k st = Some (sample, st')
    /\ Spec.drawn_from sample population k.
Proof.
  intros Hk. unfold Random.sample.
  destruct (Z.ltb_spec k 0); [lia|].
  destruct (Z.ltb_spec (Z.of_nat (length population)) k); [lia|]. cbn.
  pose proof (draw_length (Z.to_nat k) population st) as Hlen.
  pose proof (draw_submseteq (Z.to_nat k) population st) as Hsub.
  destruct (Random.draw rnd (Z.to_nat k) population st) as [sample st'].
  exists sample, st'. split; [done|]. split; [done|].
  cbn in Hlen. rewrite Hlen; lia.
Qed.
End Sampling.

(** *** Every sample can be drawn, each by one course of the generator *)
Section Uniformity.
Context {A : Type}.



End Uniformity.

(** ** The validation sample *)
Section Strata.
Import Py ValidationSample.
Context {BsddClass : Type}.
Variable rnd : nat -> nat.

(** The scored entries when the scoring raises for no class and gives
    class [cls] the score [score cls]. *)
Local Abbreviation scored_by score l :=
  (omap (fun cls : BsddClass => s ← score cls; Some (cls, s)) l).

(** A score passes the test of exactly one band, or of none when it is
    NaN. *)
Lemma band_tests (s : pyfloat) :
  if isnan s then (is_high s, is_medium s, is_low s) = (false, false, false)
  else (is_high s, is_medium s, is_low s) = (true, false, false)
       \/ (is_high s, is_medium s, is_low s) = (false, true, false)
       \/ (is_high s, is_medium s, is_low s) = (false, false, true).
Proof.
  unfold is_high, is_medium, is_low.
  destruct s as [x| | |]; cbn; auto.
  destruct (Qle_bool (8 # 10) x) eqn:H8, (Qle_bool (5 # 10) x) eqn:H5;
    cbn; auto.
  exfalso. apply Qle_bool_iff in H8.
  apply not_true_iff_false in H5. apply H5, Qle_bool_iff.
  by apply Qle_trans with (8 # 10).
Qed.

(** The three bands split the scored entries whose score is a number. *)
Lemma bands_partition (scored : list (BsddClass * pyfloat)) :
  high_conf scored ++ medium_conf scored ++ low_conf scored
  ≡ₚ (List.filter (fun cs => negb (isnan cs.2)) scored).*1.
Proof.
  unfold high_conf, medium_conf, low_conf.
  induction scored as [|[c s] scored IH]; [done|].
  cbn [List.filter snd]. pose proof (band_tests s) as Hs.
  destruct (isnan s); cbn [negb].
  - injection Hs as -> -> ->. exact IH.
  - destruct Hs as [Hs|[Hs|Hs]]; injection Hs as -> -> ->;
      cbn [fmap list_fmap fst].
    + cbn. by f_equiv.
    + rewrite <- IH, <- app_comm_cons. by rewrite <- Permutation_middle.
    + rewrite <- IH. rewrite !(assoc_L (++)).
      by rewrite <- Permutation_middle.
Qed.


(** A scoring that returned has given every scored entry its score. *)
Lemma scored_classes_Returns
    (create_mapping : BsddClass -> Outcome (option pyfloat))
    (bsdd_classes : list BsddClass) :
  forall scored,
    scored_classes create_mapping bsdd_classes = Returns scored ->
    scored.*1 `sublist_of` bsdd_classes
    /\ forall cls s, (cls, s) ∈ scored ->
                     create_mapping cls = Returns (Some s).
Proof.
  induction bsdd_classes as [|cls l IH]; intros scored.
  - intros [= <-]. split; [done|]. by intros c s ?%elem_of_nil.
  - cbn [scored_classes].
    destruct (create_mapping cls) as [mapping|] eqn:Hcls; [|done].
    destruct (scored_classes create_mapping l) as [rest|]; [|done].
    destruct (IH rest eq_refl) as [Hsub Hrest].
    intros [= <-]. destruct mapping as [s|].
    + split; [by apply sublist_skip|].
      intros c s' [[= -> ->]|Hin]%elem_of_cons; [done|by apply Hrest].
    + split; [by apply sublist_cons|done].
Qed.


Lemma filter_sublist {B} (f : B -> bool) (l : list B) :
  List.filter f l `sublist_of` l.
Proof.
  induction l as [|x l IH]; [done|]. cbn.
  destruct (f x); by constructor.
Qed.

(** What [sample] returns and when it raises. *)
Lemma sample_Returns {B} (population drawn : list B) (k : Z) (st st' : nat) :
  sample rnd population k st = Returns (drawn, st') ->
  (0 <= k <= Z.of_nat (length population))%Z
  /\ Spec.drawn_from drawn population k.
Proof.
  unfold sample, Random.sample.
  destruct (Z.ltb_spec k 0); [done|].
  destruct (Z.ltb_spec (Z.of_nat (length population)) k); [done|]. cbn.
  intros [= Hd]. split; [lia|].
  pose proof (draw_length rnd (Z.to_nat k) population st ltac:(lia)) as Hlen.
  pose proof (draw_submseteq rnd (Z.to_nat k) population st) as Hsub.
  rewrite Hd in Hlen, Hsub. cbn in *. split; [done|lia].
Qed.

Lemma sample_Raises {B} (population : list B) (k : Z) (st : nat)
    (e : Exception) :
  sample rnd population k st = Raises e
  <-> e = ValueError /\ (k < 0 \/ Z.of_nat (length population) < k)%Z.
Proof.
  unfold sample, Random.sample.
  destruct (Z.ltb_spec k 0);
    destruct (Z.ltb_spec (Z.of_nat (length population)) k); cbn; split;
    try (intros [= <-]; split; [done|lia]); try done;
    try (intros [-> _]; done); intros [_ ?]; lia.
Qed.

Lemma sample_drawn_from {B} (population : list B) (k : Z) (st : nat) :
  (0 <= k <= Z.of_nat (length population))%Z ->
  exists drawn st',
    sample rnd population k st = Returns (drawn, st')
    /\ Spec.drawn_from drawn population k.
Proof.
  intros Hk. unfold sample.
  destruct (sample_drawn rnd population k st Hk) as (drawn & st' & -> & Hd).
  by exists drawn, st'.
Qed.


(** The stratified sample of scored entries is made of three draws. *)
Lemma stratified_draws
    (create_mapping : BsddClass -> Outcome (option pyfloat))
    (bsdd_classes : list BsddClass) (scored : list (BsddClass * pyfloat))
    (sample_size : Z) (st : nat) :
  scored_classes create_mapping bsdd_classes = Returns scored ->
  (0 <= sample_size)%Z ->
  exists high medium low,
    create_validation_sample rnd (Returns create_mapping) bsdd_classes
      sample_size true st
    = Returns (high ++ medium ++ low)%list
    /\ Spec.drawn_from high (high_conf scored) (n_high scored sample_size)
    /\ Spec.drawn_from medium (medium_conf scored)
         (n_medium scored sample_size)
    /\ Spec.drawn_from low (low_conf scored) (n_low scored sample_size).
Proof.
  intros Hscored Hsize.
  assert (H2 : (0 <= sample_size `div` 2)%Z) by (apply Z.div_pos; lia).
  assert (H3 : (0 <= sample_size `div` 3)%Z) by (apply Z.div_pos; lia).
  pose proof (Z.mul_div_le sample_size 2 ltac:(lia)) as H2'.
  pose proof (Z.mul_div_le sample_size 3 ltac:(lia)) as H3'.
  unfold create_validation_sample. rewrite Hscored.
  destruct (sample_drawn_from (high_conf scored) (n_high scored sample_size) st)
    as (high & st1 & -> & Hhigh); [unfold n_high; lia|].
  destruct (sample_drawn_from (medium_conf scored)
              (n_medium scored sample_size) st1)
    as (medium & st2 & -> & Hmedium); [unfold n_medium; lia|].
  destruct (sample_drawn_from (low_conf scored) (n_low scored sample_size) st2)
    as (low & st3 & -> & Hlow); [unfold n_low, n_high, n_medium; lia|].
  by exists high, medium, low.
Qed.

End Strata.

(** ** The validation sample on concrete entries *)
Section StrataRuns.
Import Py ValidationSample Examples.

(** Six of twelve entries: three of the high band, two of the medium band
    and one of the low band. *)
Lemma sample_of_six :
  create_validation_sample generator (Returns entry_mapping) entries 6 true 0
  = Returns [8; 9; 10; 5; 7; 3]%nat
  /\ create_validation_sample generator (Returns entry_mapping) entries 6
       false 0
     = Returns [3; 11; 8; 7; 10; 4]%nat.
Proof. split; by vm_compute. Qed.

End StrataRuns.

(** ** Label resolution *)
Section Resolution.
Import Py BuildRdf.
Variable cache : gmap string string.

(** A phrase that does not start blank has a token. *)
Lemma tokens_nonblank (l : list string) :
  Spec.starts_blank l = false -> Spec.tokens l <> [].
Proof.
  destruct l as [|c l]; [done|]. cbn. intros ->.
  destruct (Spec.starts_blank l); [done|]. by destruct (Spec.tokens l).
Qed.

(** The scan of [split] with a token [cur] under way, in terms of the
    tokens of the rest. *)
Lemma split_from_tokens (cur : string) (l : list string) :
  Forall (fun c => truthy c = true) l ->
  Str.split_from cur l
  = if Spec.starts_blank l
    then ((if truthy cur then [cur] else []) ++ Spec.tokens l)%list
    else match Spec.tokens l with
         | t :: rest => (cur ++ t) :: rest
         | [] => []
         end.
Proof.
  intros Hl. revert cur. induction Hl as [|c l Hc _ IH]; intros cur.
  - cbn. by destruct (truthy cur).
  - cbn [Str.split_from Spec.starts_blank Spec.tokens].
    destruct (Unicode.isspace c) eqn:Ha.
    + assert (Hrest : Str.split_from EmptyString l = Spec.tokens l).
      { rewrite IH. destruct (Spec.starts_blank l); [done|].
        by destruct (Spec.tokens l). }
      rewrite Hrest. by destruct (truthy cur).
    + rewrite IH, (truthy_append cur c Hc).
      destruct (Spec.starts_blank l) eqn:Hs; [done|].
      pose proof (tokens_nonblank l Hs) as Hne.
      destruct (Spec.tokens l) as [|t rest]; [done|].
      by rewrite append_assoc.
Qed.

(** [str.split()] returns the whitespace-delimited tokens. *)
Lemma split_tokens (s : string) :
  Str.split s = Spec.tokens (Unicode.chars s).
Proof.
  unfold Str.split. rewrite split_from_tokens by apply chars_truthy.
  destruct (Spec.starts_blank (Unicode.chars s)); [done|].
  by destruct (Spec.tokens (Unicode.chars s)).
Qed.

(** The tokens of characters that start a text are made of such
    characters, none of them whitespace. *)
Lemma tokens_made_of (l : list string) :
  Forall (fun c => Unicode.starts_char c = true) l ->
  Forall (fun w => exists c cs,
            w = Unicode.text (c :: cs)
            /\ Forall (fun c => Unicode.starts_char c = true
                                /\ Unicode.isspace c = false) (c :: cs))
         (Spec.tokens l).
Proof.
  induction 1 as [|c l Hc _ IH]; [constructor|]. cbn [Spec.tokens].
  destruct (Unicode.isspace c) eqn:Ha; [done|].
  destruct (Spec.starts_blank l).
  - constructor; [|done]. exists c, []. split; [cbn [Unicode.text]; by rewrite append_nil_r|].
    by repeat constructor.
  - destruct (Spec.tokens l) as [|t rest].
    + repeat constructor. exists c, []. split; [cbn [Unicode.text]; by rewrite append_nil_r|].
      by repeat constructor.
    + inversion IH as [|? ? (c' & cs & -> & Hcs) Hrest]; subst.
      constructor; [|done]. exists c, (c' :: cs). split; [done|].
      by constructor.
Qed.

(** A token is not empty and holds no whitespace. *)
Lemma tokens_solid (s : string) :
  Forall (fun w => truthy w = true /\ Spec.has_space w = false)
         (Spec.tokens (Unicode.chars s)).
Proof.
  pose proof (chars_shape s) as (Hchars & Htail & _).
  assert (Hgoal : forall c cs,
            Unicode.is_char c = true ->
            Forall (fun c => Unicode.starts_char c = true
                             /\ Unicode.isspace c = false) cs ->
            Unicode.isspace c = false ->
            truthy (Unicode.text (c :: cs)) = true
            /\ Spec.has_space (Unicode.text (c :: cs)) = false).
  { intros c cs Hc Hcs Hsp. split; [by destruct c|].
    unfold Spec.has_space. rewrite chars_text.
    - cbn [existsb]. rewrite Hsp. cbn.
      induction Hcs as [|c' cs [_ Hc'] _ IHcs]; [done|].
      cbn. by rewrite Hc'.
    - constructor; [done|]. eapply Forall_impl; [exact Hcs|].
      by intros c' [[? _]%andb_true_iff _].
    - cbn. eapply Forall_impl; [exact Hcs|].
      by intros c' [[_ ?%negb_true_iff]%andb_true_iff _]. }
  destruct (Unicode.chars s) as [|c l]; [constructor|].
  apply Forall_cons in Hchars as [Hc Hl]. cbn [tail] in Htail.
  assert (Hstart : Forall (fun c => Unicode.starts_char c = true) l).
  { clear -Hl Htail. induction Hl as [|c' l Hc' _ IH]; [constructor|].
    apply Forall_cons in Htail as [Hin Htail].
    constructor; [|by apply IH].
    unfold Unicode.starts_char. by rewrite Hc', Hin. }
  pose proof (tokens_made_of l Hstart) as Htokens.
  assert (Hrest : Forall (fun w => truthy w = true
                                   /\ Spec.has_space w = false)
                         (Spec.tokens l)).
  { eapply Forall_impl; [exact Htokens|].
    intros w (c' & cs & -> & Hcs).
    apply Forall_cons in Hcs as [[[Hc' _]%andb_true_iff Hsp] Hcs].
    by apply Hgoal. }
  cbn [Spec.tokens]. destruct (Unicode.isspace c) eqn:Ha; [done|].
  destruct (Spec.starts_blank l).
  - constructor; [|done]. rewrite <- (append_nil_r c).
    by apply (Hgoal c []).
  - destruct (Spec.tokens l) as [|t rest].
    + repeat constructor; rewrite <- (append_nil_r c);
        by apply (Hgoal c []).
    + inversion Htokens as [|? ? (c' & cs & -> & Hcs) _]; subst.
      inversion Hrest as [|? ? _ Hrest']; subst.
      constructor; [|done]. by apply (Hgoal c (c' :: cs)).
Qed.

(** The word loop appends the resolution of each word. *)
Lemma foldl_translate_word (words acc : list string) :
  foldl (translate_word cache) acc words
  = (acc ++ (Spec.resolve_token cache TRANSLATION_DICT <$> words))%list.
Proof.
  revert acc. induction words as [|w words IH]; intros acc.
  - by rewrite app_nil_r.
  - cbn [foldl fmap list_fmap]. rewrite IH.
    unfold translate_word, Spec.resolve_token.
    destruct (cache !! w); [by rewrite <- app_assoc|].
    destruct (TRANSLATION_DICT !! w); by rewrite <- app_assoc.
Qed.

(** C6: [translate] is the resolution of section 4.2 over the cache and the
    built-in table: the cached translation of the whole phrase, else the
    table's, else the tokens resolved one by one through cache, table and
    identity and joined by single spaces.  The tokens are the non-empty,
    whitespace-free pieces of the phrase; a token in neither map stays as
    it is.  [translate] is a total function: it returns for every phrase. *)
Theorem C6_translate_resolves_in_order (german_text : string) :
  translate cache german_text
  = Spec.resolve cache TRANSLATION_DICT german_text
  /\ (cache !! german_text = None -> TRANSLATION_DICT !! german_text = None ->
      translate cache german_text
      = Str.join " " (Spec.resolve_token cache TRANSLATION_DICT
                        <$> Str.split german_text))
  /\ Forall (fun w => truthy w = true /\ Spec.has_space w = false)
            (Str.split german_text)
  /\ (forall token, cache !! token = None ->
                    TRANSLATION_DICT !! token = None ->
                    Spec.resolve_token cache TRANSLATION_DICT token = token).
Proof.
  assert (Hsteps : cache !! german_text = None ->
            TRANSLATION_DICT !! german_text = None ->
            translate cache german_text
            = Str.join " " (Spec.resolve_token cache TRANSLATION_DICT
                              <$> Str.split german_text)).
  { intros Hc Hd. unfold translate. rewrite Hc, Hd.
    by rewrite foldl_translate_word. }
  split; [|split; [done|split]].
  - unfold Spec.resolve.
    destruct (cache !! german_text) as [t|] eqn:Hc;
      [by unfold translate; rewrite Hc|].
    destruct (TRANSLATION_DICT !! german_text) as [t|] eqn:Hd;
      [by unfold translate; rewrite Hc, Hd|].
    rewrite Hsteps by done. by rewrite split_tokens.
  - rewrite split_tokens. apply tokens_solid.
  - intros token Hc Hd. unfold Spec.resolve_token. by rewrite Hc, Hd.
Qed.
End Resolution.

(** ** Label resolution on concrete phrases *)
Section ResolutionRuns.
Import Py BuildRdf.

(** No key occurs twice in the literal of the fallback table. *)
Lemma TRANSLATION_ITEMS_distinct : NoDup TRANSLATION_ITEMS.*1.
Proof. apply (bool_decide_unpack _). by vm_compute. Qed.

(** A cached phrase, a phrase of the table, and phrases resolved word by
    word: from the cache, from the table, and left as they are. *)
Lemma translate_runs :
  translate Examples.cache "Putze und Farben" = "Plasters and Paints"
  /\ translate Examples.cache "Sand und Kies" = "Sand and Gravel"
  /\ translate Examples.cache "Kies  und Holz" = "Gravel and Wood"
  /\ translate Examples.cache " Putze mit Zement " = "Putze with Cement".
Proof. repeat split; by vm_compute. Qed.

(** The no-break space separates tokens as the blank does. *)
Lemma translate_no_break_space :
  Str.split Examples.sand_und_kies = ["Sand"; "und"; "Kies"]
  /\ translate ∅ Examples.sand_und_kies = "Sand and Kies"
  /\ translate ∅ Examples.nbsp = "".
Proof. repeat split; by vm_compute. Qed.

Lemma C6_witness :
  translate Examples.cache "Kies  und Holz"
  = Str.join " " (Spec.resolve_token Examples.cache TRANSLATION_DICT
                    <$> Str.split "Kies  und Holz").
Proof.
  refine (proj1 (proj2 (C6_translate_resolves_in_order
                          Examples.cache "Kies  und Holz")) _ _);
    by vm_compute.
Defined.
End ResolutionRuns.

(** ** Ingestion of the taxonomy *)
Section Ingestion.
Import Py BuildRdf.

(** Induction over an element with the hypothesis on all its children. *)
Lemma Element_children_ind (P : Element -> Prop) :
  (forall (tag : string) (attrib : list (string * string))
          (children : list Element),
      Forall P children -> P (Elem tag attrib children)) ->
  forall e, P e.
Proof.
  intros Hnode. fix IH 1. intros [tag attrib children]. apply Hnode.
  induction children as [|c children IHc]; constructor; [apply IH|exact IHc].
Qed.

Lemma parse_categories_recursive_eq (tag : string)
    (attrib : list (string * string)) (children : list Element)
    (parent_id parent_path : option string) (level : Z) (cats : Categories) :
  parse_categories_recursive (Elem tag attrib children)
    parent_id parent_path level cats
  = foldl (turn parent_id parent_path level) cats children.
Proof.
  cbn [parse_categories_recursive]. revert cats.
  induction children as [|c children IH]; intros cats; [done|].
  cbn [foldl]. unfold turn at 2. destruct (is_category c); apply IH.
Qed.

Lemma visited_eq (tag : string) (attrib : list (string * string))
    (children : list Element) :
  visited (Elem tag attrib children)
  = flat_map (fun category =>
                if is_category category then category :: visited category
                else [])
             children.
Proof. done. Qed.

(** Appending a child to a parent keeps the categories well stored. *)
Lemma well_stored_alter (cats : Categories) (child i : option string) :
  well_stored cats -> well_stored (alter (append_child child) i cats).
Proof.
  intros Hw k c. rewrite lookup_alter.
  destruct (decide (i = k)) as [->|Hne].
  - destruct (cats !! k) as [c0|] eqn:Hk; [|done].
    intros [= <-]. destruct (Hw k c0 Hk) as (Hid & Hpath & Hpar).
    split; [done|]. split; [done|]. cbn. intros p Hp.
    apply lookup_alter_is_Some. by apply Hpar.
  - intros Hk. destruct (Hw k c Hk) as (Hid & Hpath & Hpar).
    split; [done|]. split; [done|]. intros p Hp.
    apply lookup_alter_is_Some. by apply Hpar.
Qed.

(** Storing a node keeps the categories well stored, loses no key and
    stores the node under its id, absent or not. *)
Lemma store_spec (category : Element) (parent_id parent_path : option string)
    (level : Z) (cats : Categories) :
  well_stored cats -> known cats parent_id ->
  well_stored (store category parent_id parent_path level cats)
  /\ (forall k, is_Some (cats !! k) ->
                is_Some (store category parent_id parent_path level cats !! k))
  /\ (exists c, store category parent_id parent_path level cats
                !! get category "id" = Some c
                /\ BuildRdf.parent_id c = parent_id
                /\ name_de c = get category "name").
Proof.
  intros Hw Hknown. unfold store.
  set (cat_id := get category "id"). set (cat_name_de := get category "name").
  set (cat_obj := {| id := cat_id; name_de := cat_name_de; name_en := None;
                     BuildRdf.parent_id := parent_id; children_ids := [];
                     BuildRdf.level := level;
                     full_path_de := path_below parent_path cat_name_de;
                     full_path_en := None |}).
  assert (Hw1 : well_stored (<[cat_id := cat_obj]> cats)).
  { intros k c. rewrite lookup_insert.
    destruct (decide (cat_id = k)) as [<-|Hne].
    - intros [= <-]. split; [done|]. split.
      + cbn. unfold path_below. by destruct (truthy_opt parent_path).
      + cbn. intros p Hp. apply lookup_insert_is_Some'. right.
        by apply Hknown.
    - intros Hk. destruct (Hw k c Hk) as (Hid & Hpath & Hpar).
      split; [done|]. split; [done|]. intros p Hp.
      apply lookup_insert_is_Some'. right. by apply Hpar. }
  assert (Hmono : forall k, is_Some (cats !! k) ->
                            is_Some (<[cat_id := cat_obj]> cats !! k)).
  { intros k Hk. apply lookup_insert_is_Some'. by right. }
  destruct (truthy_opt parent_id
            && bool_decide (is_Some (<[cat_id := cat_obj]> cats !! parent_id))).
  - split; [by apply well_stored_alter|]. split.
    + intros k Hk. apply lookup_alter_is_Some. by apply Hmono.
    + rewrite lookup_alter.
      destruct (decide (parent_id = cat_id)) as [->|_];
        rewrite lookup_insert_eq; cbn; eauto.
  - split; [done|]. split; [done|].
    rewrite lookup_insert_eq. eauto.
Qed.

(** The recursion keeps the categories well stored, loses no key, and
    leaves every [category] element it reaches stored under the id the
    element declares, absent or not. *)
Lemma parse_categories_recursive_spec (parent_elem : Element) :
  forall (parent_id parent_path : option string) (level : Z)
         (cats : Categories),
    well_stored cats -> known cats parent_id ->
    let cats' := parse_categories_recursive parent_elem parent_id parent_path
                   level cats in
    well_stored cats'
    /\ (forall k, is_Some (cats !! k) -> is_Some (cats' !! k))
    /\ (forall node, node ∈ visited parent_elem ->
                     is_Some (cats' !! get node "id")).
Proof.
  induction parent_elem as [tag attrib children IH]
    using Element_children_ind.
  intros parent_id parent_path level cats Hw Hknown. cbn zeta.
  rewrite parse_categories_recursive_eq, visited_eq.
  revert cats Hw Hknown.
  induction IH as [|c children Hc _ IHchildren]; intros cats Hw Hknown.
  - cbn. split; [done|]. split; [done|]. by intros node ?%elem_of_nil.
  - cbn [foldl flat_map].
    assert (Hturn :
      let cats1 := turn parent_id parent_path level cats c in
      well_stored cats1
      /\ (forall k, is_Some (cats !! k) -> is_Some (cats1 !! k))
      /\ (forall node,
            node ∈ (if is_category c then c :: visited c else []) ->
            is_Some (cats1 !! get node "id"))).
    { cbn zeta. unfold turn. destruct (is_category c).
      - destruct (store_spec c parent_id parent_path level cats Hw Hknown)
          as (Hw1 & Hmono1 & (c0 & Hc0 & _)).
        destruct (Hc (get c "id") (path_below parent_path (get c "name"))
                    (level + 1)%Z _ Hw1) as (Hw2 & Hmono2 & Hvis2).
        { intros p Hp. rewrite <- Hp. by rewrite Hc0. }
        split; [done|]. split; [by auto|].
        intros node [->|Hnode]%elem_of_cons; [|by auto].
        apply Hmono2. by rewrite Hc0.
      - split; [done|]. split; [done|]. by intros node ?%elem_of_nil. }
    cbn zeta in Hturn. destruct Hturn as (Hw1 & Hmono1 & Hvis1).
    destruct (IHchildren (turn parent_id parent_path level cats c) Hw1)
      as (Hw2 & Hmono2 & Hvis2).
    { intros p Hp. apply Hmono1. by apply Hknown. }
    split; [done|]. split; [by auto|].
    intros node [Hnode|Hnode]%elem_of_app; [|by auto].
    apply Hmono2. by apply Hvis1.
Qed.

Lemma well_stored_empty : well_stored ∅.
Proof. intros k c. by rewrite lookup_empty. Qed.

(** *** What is stored, visit by visit *)

(** The dict obtained by storing the objects of visits one after the
    other, each under the id of its node. *)
Local Abbreviation store_visits :=
  (foldl (fun (d : Categories) (v : Visit) =>
            <[get (node v) "id" := cat_obj v]> d)).

(** The nodes of the visits are the elements reached. *)
Lemma visits_nodes (parent_elem : Element) :
  forall (parent_id parent_path : option string) (level : Z),
    node <$> visits parent_elem parent_id parent_path level
    = visited parent_elem.
Proof.
  induction parent_elem as [tag attrib children IH]
    using Element_children_ind.
  intros parent_id parent_path level. cbn [visits visited].
  induction IH as [|c children Hc _ IHchildren]; [done|].
  cbn [flat_map]. rewrite fmap_app, IHchildren. f_equal.
  destruct (is_category c); [|done]. rewrite fmap_cons. by rewrite Hc.
Qed.

(** Storing a node, up to the children of the stored categories. *)
Lemma store_without_children (category : Element)
    (parent_id parent_path : option string) (level : Z) (cats : Categories) :
  without_children <$> store category parent_id parent_path level cats
  = <[get category "id" :=
        cat_obj {| node := category; below_id := parent_id;
                   below_path := parent_path; depth := level |}]>
      (without_children <$> cats).
Proof.
  unfold store. cbn zeta.
  match goal with
  | |- context [<[_ := ?o]> cats] => set (stored := o)
  end.
  assert (Hins : without_children <$> <[get category "id" := stored]> cats
                 = <[get category "id" :=
                       cat_obj {| node := category; below_id := parent_id;
                                  below_path := parent_path;
                                  depth := level |}]>
                     (without_children <$> cats)) by (by rewrite fmap_insert).
  destruct (truthy_opt parent_id && _); [|done].
  rewrite <- Hins. apply map_eq. intros k.
  rewrite !lookup_fmap, lookup_alter.
  destruct (decide (parent_id = k)) as [->|]; [|done].
  by destruct (<[get category "id" := stored]> cats !! k).
Qed.

(** The recursion stores the objects of its visits, in their order. *)
Lemma parse_categories_recursive_visits (parent_elem : Element) :
  forall (parent_id parent_path : option string) (level : Z)
         (cats : Categories),
    without_children
    <$> parse_categories_recursive parent_elem parent_id parent_path level cats
    = store_visits (without_children <$> cats)
        (visits parent_elem parent_id parent_path level).
Proof.
  induction parent_elem as [tag attrib children IH]
    using Element_children_ind.
  intros parent_id parent_path level cats.
  rewrite parse_categories_recursive_eq. cbn [visits]. revert cats.
  induction IH as [|c children Hc _ IHchildren]; intros cats; [done|].
  cbn [foldl flat_map]. rewrite foldl_app, IHchildren. f_equal.
  unfold turn. destruct (is_category c); [|done].
  cbn [foldl]. by rewrite Hc, store_without_children.
Qed.

(** A key no later visit stores under keeps what it holds. *)
Lemma store_visits_other (l : list Visit) (k : option string) :
  forall d : Categories,
    (forall v, v ∈ l -> get (node v) "id" <> k) ->
    store_visits d l !! k = d !! k.
Proof.
  induction l as [|v l IH]; intros d Hother; [done|].
  cbn [foldl]. rewrite IH by (intros w Hw; apply Hother; by right).
  apply lookup_insert_ne. apply Hother. by left.
Qed.

(** Of the visits that store under one key, the last one stays. *)
Lemma store_visits_last (l : list Visit) :
  forall (d : Categories) (i : nat) (v : Visit),
    l !! i = Some v ->
    (forall j later, (i < j)%nat -> l !! j = Some later ->
                     get (node later) "id" <> get (node v) "id") ->
    store_visits d l !! get (node v) "id" = Some (cat_obj v).
Proof.
  induction l as [|w l IH]; intros d i v Hi Hlast; [done|].
  cbn [foldl]. destruct i as [|i].
  - injection Hi as ->. rewrite store_visits_other.
    + by rewrite lookup_insert_eq.
    + intros later [j Hj]%list_elem_of_lookup.
      apply (Hlast (S j)); [lia|done].
  - apply (IH _ i); [done|].
    intros j later Hij Hj. apply (Hlast (S j)); [lia|done].
Qed.

(** The keys after storing visits. *)
Lemma store_visits_keys (l : list Visit) (k : option string) :
  forall d : Categories,
    is_Some (store_visits d l !! k)
    <-> is_Some (d !! k) \/ exists v, v ∈ l /\ get (node v) "id" = k.
Proof.
  induction l as [|w l IH]; intros d.
  - cbn. split; [by left|]. by intros [?|(v & ?%elem_of_nil & _)].
  - cbn [foldl]. rewrite IH, lookup_insert_is_Some. split.
    + intros [[<-|[_ Hd]]|(v & Hv & Hk)].
      * right. exists w. split; [by left|done].
      * by left.
      * right. exists v. split; [by right|done].
    + intros [Hd|(v & [->|Hv]%elem_of_cons & Hk)].
      * destruct (decide (get (node w) "id" = k)); [by left; left|].
        left; right. by split.
      * by left; left.
      * right. by exists v.
Qed.

(** C7 (as amended): a source that does not parse ends the run with no
    taxonomy.  A document that parses is always ingested and no node is
    rejected: the identifiers stored, the absent one included, are exactly
    those the category nodes reached declare, and a node that is the last
    to declare its identifier (or the last to declare none) is stored under
    it, with its name, parent, level and path; of several nodes that
    declare one identifier only the last stays stored. *)
Theorem C7_missing_identifier_is_stored :
  parse_xml Unparsable = None
  /\ forall root,
       exists cats,
         parse_xml (Document root) = Some cats
         /\ (forall k,
               is_Some (cats !! k)
               <-> exists v, v ∈ visits_in root /\ get (node v) "id" = k)
         /\ forall i v,
              visits_in root !! i = Some v ->
              (forall j later,
                 (i < j)%nat -> visits_in root !! j = Some later ->
                 get (node later) "id" <> get (node v) "id") ->
              exists c, cats !! get (node v) "id" = Some c
                        /\ without_children c = cat_obj v.
Proof.
  split; [done|]. intros root. unfold parse_xml, visits_in.
  destruct (find_process_categories root) as [categories_elem|].
  - eexists. split; [done|].
    pose proof (parse_categories_recursive_visits categories_elem None
                  (Some "") 0 ∅) as Hstored.
    rewrite fmap_empty in Hstored.
    set (cats := parse_categories_recursive categories_elem None (Some "")
                   0 ∅) in *.
    assert (Hlookup : forall k,
              without_children <$> cats !! k
              = store_visits ∅ (visits categories_elem None (Some "") 0) !! k).
    { intros k. by rewrite <- Hstored, lookup_fmap. }
    split.
    + intros k. rewrite <- (fmap_is_Some without_children), Hlookup.
      rewrite store_visits_keys, lookup_empty. split.
      * by intros [[? ?]|?].
      * by right.
    + intros i v Hi Hlast.
      pose proof (store_visits_last _ ∅ i v Hi Hlast) as Hv.
      rewrite <- Hlookup in Hv. by apply fmap_Some in Hv as (c & Hc & ->);
        exists c.
  - exists ∅. split; [done|]. split.
    + intros k. rewrite lookup_empty. split; [by intros [? ?]|].
      by intros (v & ?%elem_of_nil & _).
    + by intros i v.
Qed.

(** Of [Holz] and [Metalle], both declared with the id [1], the dict keeps
    the second. *)
Lemma same_id_keeps_the_last :
  exists cats,
    parse_xml Examples.same_id_twice = Some cats
    /\ size cats = 1%nat
    /\ name_de <$> cats !! Some "1" = Some (Some "Metalle").
Proof. eexists. split; [reflexivity|]. split; by vm_compute. Qed.

(** C7, counterexample: the node [Bindemittel] declares no id; the document
    is ingested all the same and the node is stored under the absent id. *)
Lemma C7_counterexample :
  Spec.malformed Examples.nameless_id
  /\ exists cats,
       parse_xml Examples.nameless_id = Some cats
       /\ cats !! None
          = Some {| id := None; name_de := Some "Bindemittel";
                    name_en := None; parent_id := Some "1";
                    children_ids := []; level := 1;
                    full_path_de := Some "Mineralische Baustoffe/Bindemittel";
                    full_path_en := None |}.
Proof.
  split.
  - eexists. split; [|shelve].
    apply (list_elem_of_lookup_2 _ 1). vm_compute. reflexivity.
    Unshelve. by vm_compute.
  - eexists. split; [reflexivity|]. by vm_compute.
Qed.
End Ingestion.

(** ** Export and re-ingestion of the taxonomy graph *)
Section RoundTrip.
Import Py BuildRdf Reingest.
Context {alphanumeric : Unicode.Alphanumeric}.

Lemma strip_prefix_append (pre s : string) :
  strip_prefix pre (pre ++ s) = Some s.
Proof.
  induction pre as [|a pre IH]; [done|].
  change (strip_prefix (String a pre) (String a (pre ++ s)) = Some s).
  cbn. by rewrite Ascii.eqb_refl.
Qed.

Lemma identifier_of_term (i : string) :
  identifier_of (term OEKOCAT (Some i)) = Some i.
Proof. apply strip_prefix_append. Qed.

Lemma append_inj (pre s1 s2 : string) : pre ++ s1 = pre ++ s2 -> s1 = s2.
Proof.
  induction pre as [|a pre IH]; [done|].
  change (String a (pre ++ s1) = String a (pre ++ s2) -> s1 = s2).
  intros [= H]. by apply IH.
Qed.

Lemma class_uri_inj (n1 n2 : string) :
  class_uri n1 = class_uri n2 -> name_to_class_name n1 = name_to_class_name n2.
Proof. unfold class_uri, term. cbn. intros [= H]. by apply append_inj in H. Qed.

(** *** Reading the graph *)

Lemma elem_of_objects (g : Graph) (subject predicate o : Term) :
  o ∈ objects g subject predicate <-> (subject, predicate, o) ∈ g.
Proof.
  unfold objects. rewrite list_elem_of_omap. split.
  - intros ([[s p] o'] & Hin%elem_of_elements & Hsome). cbn in Hsome.
    destruct (decide (s = subject /\ p = predicate)) as [[-> ->]|]; [|done].
    by injection Hsome as ->.
  - intros Hin. exists (subject, predicate, o). split.
    + by apply elem_of_elements.
    + cbn. by rewrite decide_True.
Qed.

Lemma elem_of_identifiers (g : Graph) (node : Term) (i : string) :
  i ∈ identifiers g node
  <-> exists o, (node, okobaudatCategory, o) ∈ g /\ identifier_of o = Some i.
Proof.
  unfold identifiers. rewrite list_elem_of_omap.
  by setoid_rewrite elem_of_objects.
Qed.

Lemma elem_of_parent_identifiers (g : Graph) (node : Term)
    (parent : option string) :
  parent ∈ parent_identifiers g node
  <-> (parent = None /\ forall o, (node, RDFS_subClassOf, o) ∉ g)
      \/ (exists super i, (node, RDFS_subClassOf, super) ∈ g
                          /\ i ∈ identifiers g super /\ parent = Some i).
Proof.
  unfold parent_identifiers.
  destruct (objects g node RDFS_subClassOf) as [|o1 os] eqn:Hobj.
  - rewrite list_elem_of_singleton. split.
    + intros ->. left. split; [done|]. intros o Ho%elem_of_objects.
      rewrite Hobj in Ho. by apply elem_of_nil in Ho.
    + intros [[-> _]|(super & i & Hs%elem_of_objects & _)]; [done|].
      rewrite Hobj in Hs. by apply elem_of_nil in Hs.
  - rewrite list_elem_of_fmap. setoid_rewrite list_elem_of_bind.
    rewrite <- Hobj. split.
    + intros (i & -> & super & Hi & Hs%elem_of_objects). right. eauto.
    + intros [[_ Hnone]|(super & i & Hs & Hi & ->)].
      * exfalso. apply (Hnone o1), elem_of_objects. rewrite Hobj. by left.
      * exists i. split; [done|]. exists super. split; [done|].
        by apply elem_of_objects.
Qed.

Lemma elem_of_reingest (g : Graph) (i parent : option string) :
  (i, parent) ∈ reingest g
  <-> exists node o i',
        (node, okobaudatCategory, o) ∈ g
        /\ identifier_of o = Some i' /\ i = Some i'
        /\ parent ∈ parent_identifiers g node.
Proof.
  unfold reingest. rewrite elem_of_list_to_set, list_elem_of_bind. split.
  - intros ([[node p] o] & Hin & Ht%elem_of_elements). cbn in Hin.
    destruct (decide (p = okobaudatCategory)) as [->|];
      [|by apply elem_of_nil in Hin].
    destruct (identifier_of o) as [i'|] eqn:Hi; [|by apply elem_of_nil in Hin].
    apply list_elem_of_fmap in Hin as (parent' & [= -> ->] & Hp).
    by exists node, o, i'.
  - intros (node & o & i' & Ht & Hi & -> & Hp).
    exists (node, okobaudatCategory, o). split; [|by apply elem_of_elements].
    cbn. rewrite decide_True by done. rewrite Hi.
    apply list_elem_of_fmap. by exists parent.
Qed.

(** *** Writing the graph *)

(** Closes a goal from an equation between triples whose predicates are
    different URIs. *)
Ltac other_predicate H :=
  exfalso; apply (f_equal (fun t : Triple => t.1.2)) in H;
  cbv in H; discriminate H.

Lemma elem_of_english (node predicate : Term) (text : option string)
    (t : Triple) :
  t ∈ english node predicate text -> t.1.2 = predicate.
Proof.
  unfold english. destruct text as [en|]; [|by intros ?%elem_of_empty].
  destruct (truthy en); [|by intros ?%elem_of_empty].
  by intros ->%elem_of_singleton.
Qed.

(** The custom property brings no cross-reference and no subclass edge. *)
Lemma define_custom_property_predicates (t : Triple) :
  t ∈ define_custom_property ->
  t.1.2 <> okobaudatCategory /\ t.1.2 <> RDFS_subClassOf.
Proof.
  unfold define_custom_property.
  rewrite !elem_of_union, !elem_of_singleton.
  intros [[[->| ->]| ->]| ->]; split; intros H; cbv in H; discriminate H.
Qed.

(** The cross-reference a category adds: from its class node to its id. *)
Lemma category_triples_xref (cats : Categories) (k : option string)
    (c : OekobaudatCategory) (added : Graph) (s o : Term) :
  category_triples cats k c = Some added ->
  (s, okobaudatCategory, o) ∈ added
  <-> exists n, name_de c = Some n /\ s = class_uri n /\ o = term OEKOCAT k.
Proof.
  unfold category_triples.
  destruct (name_de c) as [n|]; [|done].
  destruct (full_path_de c) as [path|]; [|done]. cbn.
  match goal with |- context [Some (?g ∪ {[ (_, RDFS_subClassOf, _) ]})] =>
    set (own := g) end.
  assert (Hown : (s, okobaudatCategory, o) ∈ own
                 <-> s = class_uri n /\ o = term OEKOCAT k).
  { unfold own. rewrite !elem_of_union, !elem_of_singleton. split.
    - intros [[[[[H|H]|H]|H]|H]|H].
      + other_predicate H.
      + other_predicate H.
      + apply elem_of_english in H. cbv in H. discriminate H.
      + other_predicate H.
      + apply elem_of_english in H. cbv in H. discriminate H.
      + by injection H as -> ->.
    - intros [-> ->]. by right. }
  assert (Hgoal : (s, okobaudatCategory, o) ∈ own
                  <-> exists n0, Some n = Some n0 /\ s = class_uri n0
                                 /\ o = term OEKOCAT k).
  { rewrite Hown. split; [intros [-> ->]; eauto|].
    by intros (n0 & [= <-] & -> & ->). }
  destruct (truthy_opt (parent_id c)); [|by intros [= <-]].
  destruct (cats !! parent_id c) as [pc|]; [|by intros [= <-]].
  destruct (name_de pc) as [pn|]; [|done]. cbn. intros [= <-].
  rewrite elem_of_union, elem_of_singleton, Hgoal. split; [|by left].
  intros [H|H]; [done|]. other_predicate H.
Qed.

(** The subclass edge a category adds: to the class node of its parent,
    when it names a parent, not empty, that is stored. *)
Lemma category_triples_sub (cats : Categories) (k : option string)
    (c : OekobaudatCategory) (added : Graph) (s o : Term) :
  category_triples cats k c = Some added ->
  (s, RDFS_subClassOf, o) ∈ added
  <-> exists n p pc pn,
        name_de c = Some n /\ parent_id c = Some p /\ truthy p = true
        /\ cats !! Some p = Some pc /\ name_de pc = Some pn
        /\ s = class_uri n /\ o = class_uri pn.
Proof.
  unfold category_triples.
  destruct (name_de c) as [n|]; [|done].
  destruct (full_path_de c) as [path|]; [|done]. cbn.
  match goal with |- context [Some (?g ∪ {[ (_, RDFS_subClassOf, _) ]})] =>
    set (own := g) end.
  assert (Hown : (s, RDFS_subClassOf, o) ∉ own).
  { unfold own. rewrite !elem_of_union, !elem_of_singleton.
    intros [[[[[H|H]|H]|H]|H]|H].
    - other_predicate H.
    - other_predicate H.
    - apply elem_of_english in H. cbv in H. discriminate H.
    - other_predicate H.
    - apply elem_of_english in H. cbv in H. discriminate H.
    - other_predicate H. }
  destruct (parent_id c) as [p|]; cbn;
    [|intros [= <-]; split; [done|by intros (? & ? & ? & ? & _ & ? & _)]].
  destruct (truthy p) eqn:Hp;
    [|intros [= <-]; split;
      [done|intros (? & ? & ? & ? & _ & [= <-] & ? & _); congruence]].
  destruct (cats !! Some p) as [pc|] eqn:Hpc;
    [|intros [= <-]; split;
      [done|intros (? & ? & ? & ? & _ & [= <-] & _ & ? & _); congruence]].
  destruct (name_de pc) as [pn|] eqn:Hpn; [|done]. cbn. intros [= <-].
  rewrite elem_of_union, elem_of_singleton. split.
  - intros [H|H]; [done|]. injection H as -> ->.
    by exists n, p, pc, pn.
  - intros (n0 & p0 & pc0 & pn0 & [= <-] & [= <-] & _ & Hpc0 & Hpn0 & -> & ->).
    right. rewrite Hpc in Hpc0. injection Hpc0 as <-.
    rewrite Hpn in Hpn0. by injection Hpn0 as <-.
Qed.

(** A named, well stored category adds its triples without exception when
    every stored category has a name. *)
Lemma category_triples_is_Some (cats : Categories) (k : option string)
    (c : OekobaudatCategory) :
  well_stored cats ->
  (forall k' c', cats !! k' = Some c' -> is_Some (name_de c')) ->
  cats !! k = Some c ->
  is_Some (category_triples cats k c).
Proof.
  intros Hw Hnames Hk. unfold category_triples.
  destruct (Hnames k c Hk) as [n Hn].
  destruct (Hw k c Hk) as (_ & Hpath & _).
  destruct Hpath as [path Hpath]; [by rewrite Hn|].
  rewrite Hn, Hpath. cbn.
  destruct (truthy_opt (parent_id c)); [|done].
  destruct (cats !! parent_id c) as [pc|] eqn:Hpc; [|done].
  destruct (Hnames _ pc Hpc) as [pn ->]. done.
Qed.

(** The loop over a list of keys adds the triples of the stored ones. *)
Lemma add_keys_spec (cats : Categories) (l : list (option string))
    (g0 : Graph) :
  (forall k c, cats !! k = Some c -> is_Some (category_triples cats k c)) ->
  exists g,
    foldr (fun cat_id acc =>
             graph ← acc; add_category_to_graph cats cat_id graph)
          (Some g0) l = Some g
    /\ forall t,
         t ∈ g <-> t ∈ g0
                   \/ exists k c added,
                        k ∈ l /\ cats !! k = Some c
                        /\ category_triples cats k c = Some added
                        /\ t ∈ added.
Proof.
  intros Hok. induction l as [|k l (g & Hg & Hin)].
  - exists g0. split; [done|]. intros t. split; [by left|].
    intros [?|(k & c & added & Hk%elem_of_nil & _)]; done.
  - cbn [foldr]. rewrite Hg. cbn. unfold add_category_to_graph.
    destruct (cats !! k) as [c|] eqn:Hk.
    + destruct (Hok k c Hk) as [added Hadded]. rewrite Hadded. cbn.
      exists (g ∪ added). split; [done|]. intros t.
      rewrite elem_of_union, Hin. split.
      * intros [[?|(k' & c' & added' & Hk' & Hrest)]|Ht]; [by left| |].
        -- right. exists k', c', added'. split; [by right|done].
        -- right. exists k, c, added. split; [by left|done].
      * intros [?|(k' & c' & added' & Hk' & Hc' & Ha' & Ht)];
          [by left; left|].
        apply elem_of_cons in Hk' as [->|Hk'].
        -- right. rewrite Hk in Hc'. injection Hc' as <-.
           rewrite Hadded in Ha'. by injection Ha' as <-.
        -- left. right. by exists k', c', added'.
    + exists g. split; [done|]. intros t. rewrite Hin. split.
      * intros [?|(k' & c' & added' & Hk' & Hrest)]; [by left|].
        right. exists k', c', added'. split; [by right|done].
      * intros [?|(k' & c' & added' & Hk' & Hc' & Hrest)]; [by left|].
        apply elem_of_cons in Hk' as [->|Hk']; [congruence|].
        right. by exists k', c', added'.
Qed.

(** The graph [add_all] builds over the custom property: its
    cross-references and its subclass edges. *)
Lemma add_all_spec (cats : Categories) :
  well_stored cats ->
  (forall k c, cats !! k = Some c -> is_Some (name_de c)) ->
  exists g,
    add_all cats define_custom_property = Some g
    /\ (forall s o,
          (s, okobaudatCategory, o) ∈ g
          <-> exists k c n, cats !! k = Some c /\ name_de c = Some n
                            /\ s = class_uri n /\ o = term OEKOCAT k)
    /\ (forall s o,
          (s, RDFS_subClassOf, o) ∈ g
          <-> exists k c n p pc pn,
                cats !! k = Some c /\ name_de c = Some n
                /\ parent_id c = Some p /\ truthy p = true
                /\ cats !! Some p = Some pc /\ name_de pc = Some pn
                /\ s = class_uri n /\ o = class_uri pn).
Proof.
  intros Hw Hnames.
  destruct (add_keys_spec cats (map_to_list cats).*1 define_custom_property)
    as (g & Hg & Hin).
  { intros k c Hk. by apply category_triples_is_Some. }
  assert (Hkeys : forall k c, cats !! k = Some c -> k ∈ (map_to_list cats).*1).
  { intros k c Hk. apply list_elem_of_fmap. exists (k, c).
    split; [done|]. by apply elem_of_map_to_list. }
  exists g. split; [exact Hg|]. split; intros s o; rewrite Hin; split.
  - intros [H0|(k & c & added & _ & Hk & Ha & Ht)].
    + by apply define_custom_property_predicates in H0 as [? _].
    + apply (category_triples_xref _ _ _ _ _ _ Ha) in Ht as (n & ? & ? & ?).
      by exists k, c, n.
  - intros (k & c & n & Hk & Hn & -> & ->). right.
    destruct (category_triples_is_Some cats k c Hw Hnames Hk) as [added Ha].
    exists k, c, added. split; [by eapply Hkeys|]. split; [done|].
    split; [done|]. apply (category_triples_xref _ _ _ _ _ _ Ha). by exists n.
  - intros [H0|(k & c & added & _ & Hk & Ha & Ht)].
    + by apply define_custom_property_predicates in H0 as [_ ?].
    + apply (category_triples_sub _ _ _ _ _ _ Ha) in Ht
        as (n & p & pc & pn & ? & ? & ? & ? & ? & ? & ?).
      by exists k, c, n, p, pc, pn.
  - intros (k & c & n & p & pc & pn & Hk & Hn & Hp & Ht & Hpc & Hpn & -> & ->).
    right.
    destruct (category_triples_is_Some cats k c Hw Hnames Hk) as [added Ha].
    exists k, c, added. split; [by eapply Hkeys|]. split; [done|].
    split; [done|]. apply (category_triples_sub _ _ _ _ _ _ Ha).
    by exists n, p, pc, pn.
Qed.

(** *** The round trip *)

Lemma elem_of_pairs (cats : Categories) (k parent : option string) :
  (k, parent) ∈ pairs cats
  <-> exists c, cats !! k = Some c /\ parent = parent_id c.
Proof.
  unfold pairs. rewrite elem_of_list_to_set, list_elem_of_fmap. split.
  - intros ([k' c] & [= -> ->] & Hin%elem_of_map_to_list). by exists c.
  - intros (c & Hk & ->). exists (k, c). split; [done|].
    by apply elem_of_map_to_list.
Qed.

Lemma parse_xml_well_stored (source : Source) (cats : Categories) :
  parse_xml source = Some cats -> well_stored cats.
Proof.
  destruct source as [|root]; [done|]. cbn.
  destruct (find_process_categories root) as [categories_elem|].
  - intros [= <-].
    by destruct (parse_categories_recursive_spec categories_elem None
                   (Some "") 0 ∅ well_stored_empty) as (Hw & _).
  - intros [= <-]. apply well_stored_empty.
Qed.

(** With distinct class names, the class node tells the category. *)
Lemma class_names_inj (cats : Categories) (k1 k2 : option string)
    (c1 c2 : OekobaudatCategory) (n1 n2 : string) :
  NoDup (class_names cats) ->
  cats !! k1 = Some c1 -> cats !! k2 = Some c2 ->
  name_de c1 = Some n1 -> name_de c2 = Some n2 ->
  class_uri n1 = class_uri n2 ->
  k1 = k2 /\ c1 = c2.
Proof.
  intros Hnd Hk1 Hk2 Hn1 Hn2 Heq%class_uri_inj.
  apply elem_of_map_to_list, list_elem_of_lookup in Hk1 as [i Hi].
  apply elem_of_map_to_list, list_elem_of_lookup in Hk2 as [j Hj].
  assert (i = j) as ->.
  { apply (NoDup_lookup _ _ _ (Some (name_to_class_name n1)) Hnd);
      unfold class_names; rewrite list_lookup_fmap.
    - rewrite Hi. cbn. by rewrite Hn1.
    - rewrite Hj. cbn. by rewrite Hn2, Heq. }
  rewrite Hi in Hj. by injection Hj as -> ->.
Qed.

(** Export then re-ingestion gives back the pairs of any well stored
    categories that have a name and a non-empty identifier each and class
    nodes that tell them apart. *)
Lemma reingest_add_all (cats : Categories) :
  well_stored cats ->
  (forall k c, cats !! k = Some c ->
               (exists i, k = Some i /\ truthy i = true)
               /\ is_Some (name_de c)) ->
  (forall k1 k2 c1 c2 n1 n2,
      cats !! k1 = Some c1 -> cats !! k2 = Some c2 ->
      name_de c1 = Some n1 -> name_de c2 = Some n2 ->
      class_uri n1 = class_uri n2 -> k1 = k2) ->
  exists g, add_all cats define_custom_property = Some g
            /\ reingest g = pairs cats.
Proof.
  intros Hw Hid Hinj0.
  assert (Hnames : forall k c, cats !! k = Some c -> is_Some (name_de c)).
  { intros k c Hk. by destruct (Hid k c Hk) as (_ & ?). }
  assert (Hkey : forall k c, cats !! k = Some c ->
                   exists i, k = Some i /\ truthy i = true).
  { intros k c Hk. by destruct (Hid k c Hk) as (? & _). }
  assert (Hinj : forall k1 k2 c1 c2 n1 n2,
             cats !! k1 = Some c1 -> cats !! k2 = Some c2 ->
             name_de c1 = Some n1 -> name_de c2 = Some n2 ->
             class_uri n1 = class_uri n2 -> k1 = k2 /\ c1 = c2).
  { intros k1 k2 c1 c2 n1 n2 Hk1 Hk2 Hn1 Hn2 Heq.
    pose proof (Hinj0 _ _ _ _ _ _ Hk1 Hk2 Hn1 Hn2 Heq) as <-.
    split; [done|]. congruence. }
  destruct (add_all_spec cats Hw Hnames) as (g & Hg & Hx & Hs).
  exists g. split; [exact Hg|].
  apply set_eq. intros [i parent].
  rewrite elem_of_reingest, elem_of_pairs. split.
  - intros (node & o & i' & Hxref & Hi' & -> & Hparent).
    apply Hx in Hxref as (k & c & n & Hk & Hn & -> & ->).
    destruct (Hkey k c Hk) as (ik & -> & _).
    rewrite identifier_of_term in Hi'. injection Hi' as <-.
    exists c. split; [done|].
    apply elem_of_parent_identifiers in Hparent
      as [[-> Hroot]|(super & pi & Hsub & Hpi & ->)].
    + destruct (parent_id c) as [p|] eqn:Hp; [|done]. exfalso.
      destruct (Hw _ c Hk) as (_ & _ & Hpar).
      destruct (Hpar p Hp) as [pc Hpc].
      destruct (Hkey _ pc Hpc) as (p' & [= <-] & Hptrue).
      destruct (Hnames _ pc Hpc) as [pn Hpn].
      apply (Hroot (class_uri pn)), Hs.
      by exists (Some ik), c, n, p, pc, pn.
    + apply Hs in Hsub
        as (k2 & c2 & n2 & p & pc & pn & Hk2 & Hn2 & Hp & _ & Hpc & Hpn
            & Hnode & ->).
      destruct (Hinj _ _ _ _ _ _ Hk Hk2 Hn Hn2 Hnode) as [<- <-].
      apply elem_of_identifiers in Hpi as (o' & Hxref' & Ho').
      apply Hx in Hxref' as (k3 & c3 & n3 & Hk3 & Hn3 & Hnode3 & ->).
      destruct (Hinj _ _ _ _ _ _ Hpc Hk3 Hpn Hn3 Hnode3) as [<- <-].
      rewrite identifier_of_term in Ho'. injection Ho' as <-. done.
  - intros (c & Hk & ->).
    destruct (Hkey i c Hk) as (ik & -> & _).
    destruct (Hnames _ c Hk) as [n Hn].
    exists (class_uri n), (term OEKOCAT (Some ik)), ik.
    split; [apply Hx; by exists (Some ik), c, n|].
    split; [apply identifier_of_term|]. split; [done|].
    apply elem_of_parent_identifiers.
    destruct (parent_id c) as [p|] eqn:Hp.
    + right. destruct (Hw _ c Hk) as (_ & _ & Hpar).
      destruct (Hpar p Hp) as [pc Hpc].
      destruct (Hkey _ pc Hpc) as (p' & [= <-] & Hptrue).
      destruct (Hnames _ pc Hpc) as [pn Hpn].
      exists (class_uri pn), p. split; [|split; [|done]].
      * apply Hs. by exists (Some ik), c, n, p, pc, pn.
      * apply elem_of_identifiers. exists (term OEKOCAT (Some p)).
        split; [|apply identifier_of_term].
        apply Hx. by exists (Some p), pc, pn.
    + left. split; [done|]. intros o Hsub.
      apply Hs in Hsub
        as (k2 & c2 & n2 & p & pc & pn & Hk2 & Hn2 & Hp2 & _ & _ & _
            & Hnode & _).
      destruct (Hinj _ _ _ _ _ _ Hk Hk2 Hn Hn2 Hnode) as [<- <-].
      congruence.
Qed.

Lemma identified_lookup (cats : Categories) (k : option string)
    (c : OekobaudatCategory) :
  identified cats = true -> cats !! k = Some c ->
  (exists i, k = Some i /\ truthy i = true) /\ is_Some (name_de c).
Proof.
  intros Hid%bool_decide_eq_true Hk.
  destruct (Hid k c Hk) as ([i ->] & Hne & Hn). split; [|done].
  exists i. split; [done|]. by destruct i.
Qed.

(** *** Translation keeps what the export reads *)

Lemma translate_category_Some (cache : gmap string string)
    (c c' : OekobaudatCategory) :
  translate_category cache c = Some c' ->
  id c' = id c /\ name_de c' = name_de c /\ parent_id c' = parent_id c
  /\ full_path_de c' = full_path_de c.
Proof.
  unfold translate_category.
  destruct (name_de c) as [n|] eqn:Hn; [|done].
  destruct (full_path_de c) as [path|] eqn:Hpath; [|done]. cbn.
  by intros [= <-].
Qed.

Lemma translate_all_Some (cache : gmap string string) (cats : Categories) :
  well_stored cats ->
  (forall k c, cats !! k = Some c -> is_Some (name_de c)) ->
  exists translated,
    translate_all cache cats = Some translated
    /\ forall k, translated !! k = cats !! k ≫= translate_category cache.
Proof.
  intros Hw Hnames. unfold translate_all.
  rewrite decide_True.
  - eexists. split; [done|]. intros k. apply lookup_omap.
  - intros k c Hk. unfold translate_category.
    destruct (Hnames k c Hk) as [n Hn].
    destruct (Hw k c Hk) as (_ & [path Hpath] & _); [by rewrite Hn|].
    by rewrite Hn, Hpath.
Qed.

(** C9 (as amended): when every ingested category has a name and a
    non-empty identifier and no two of them share a class name, the export
    succeeds, by [build_complete_graph] as by [main] with any translation
    cache, and re-ingesting the exported graph gives back exactly the
    (identifier, parent-identifier) pairs of the ingested categories. *)
Theorem C9_round_trip_for_distinct_class_names
    (source : Source) (cats : Categories) :
  parse_xml source = Some cats ->
  identified cats = true ->
  distinct_class_names cats = true ->
  (exists g, build_complete_graph source = Some g
             /\ reingest g = pairs cats)
  /\ (forall cache,
        exists translated g,
          main source cache = Some (translated, g)
          /\ reingest g = pairs cats).
Proof.
  intros Hparse Hid Hnd%bool_decide_eq_true.
  pose proof (parse_xml_well_stored _ _ Hparse) as Hw.
  assert (Hnames : forall k c, cats !! k = Some c -> is_Some (name_de c)).
  { intros k c Hk. by destruct (identified_lookup _ _ _ Hid Hk). }
  split.
  - unfold build_complete_graph. rewrite Hparse. cbn.
    apply reingest_add_all; [done|by intros; eapply identified_lookup|].
    intros k1 k2 c1 c2 n1 n2 Hk1 Hk2 Hn1 Hn2 Heq.
    by destruct (class_names_inj cats _ _ _ _ _ _ Hnd Hk1 Hk2 Hn1 Hn2 Heq).
  - intros cache. unfold main. rewrite Hparse. cbn.
    destruct (translate_all_Some cache cats Hw Hnames)
      as (translated & -> & Hlookup). cbn.
    assert (Hback : forall k c', translated !! k = Some c' ->
              exists c, cats !! k = Some c /\ id c' = id c
                        /\ name_de c' = name_de c
                        /\ parent_id c' = parent_id c
                        /\ full_path_de c' = full_path_de c).
    { intros k c' Hk'. rewrite Hlookup in Hk'.
      destruct (cats !! k) as [c|]; [|done]. cbn in Hk'.
      exists c. split; [done|]. by apply translate_category_Some in Hk'. }
    assert (Hforth : forall k c, cats !! k = Some c ->
              is_Some (translated !! k)).
    { intros k c Hk. rewrite Hlookup, Hk. cbn. unfold translate_category.
      destruct (Hnames k c Hk) as [n Hn].
      destruct (Hw k c Hk) as (_ & [path Hpath] & _); [by rewrite Hn|].
      by rewrite Hn, Hpath. }
    destruct (reingest_add_all translated) as (g & Hg & Hpairs).
    + intros k c' Hk'.
      destruct (Hback k c' Hk') as (c & Hk & Hi & Hn & Hp & Hpath).
      destruct (Hw k c Hk) as (Hid' & Hpath' & Hpar).
      rewrite Hi, Hn, Hpath, Hp. split; [done|]. split; [done|].
      intros p Hpp. destruct (Hpar p Hpp) as [pc Hpc]. by eapply Hforth.
    + intros k c' Hk'.
      destruct (Hback k c' Hk') as (c & Hk & _ & Hn & _). rewrite Hn.
      by eapply identified_lookup.
    + intros k1 k2 c1' c2' n1 n2 Hk1' Hk2' Hn1 Hn2 Heq.
      destruct (Hback k1 c1' Hk1') as (c1 & Hk1 & _ & Hn1' & _).
      destruct (Hback k2 c2' Hk2') as (c2 & Hk2 & _ & Hn2' & _).
      rewrite Hn1' in Hn1. rewrite Hn2' in Hn2.
      by destruct (class_names_inj cats _ _ _ _ _ _ Hnd Hk1 Hk2 Hn1 Hn2 Heq).
    + rewrite Hg. cbn. exists translated, g. split; [done|].
      rewrite Hpairs. apply set_eq. intros [k parent].
      rewrite !elem_of_pairs. split.
      * intros (c' & Hk' & ->).
        destruct (Hback k c' Hk') as (c & Hk & _ & _ & Hp & _).
        exists c. by rewrite Hp.
      * intros (c & Hk & ->).
        destruct (Hforth k c Hk) as [c' Hk'].
        destruct (Hback k c' Hk') as (c0 & Hk0 & _ & _ & Hp & _).
        exists c'. split; [done|]. congruence.
Qed.
End RoundTrip.

(** ** Export and re-ingestion on concrete documents *)
Section RoundTripRuns.
Import Py BuildRdf Reingest Examples.
Local Existing Instance Examples.latin1.

(** C9, counterexample: two products named [Sonstige] share the class node;
    the document and the one with the two products exchanged export to the
    same graph although their pairs differ, and re-ingesting the graph
    gives six pairs where four were ingested. *)
Lemma C9_counterexample :
  class_uri "Sonstige" = class_uri "Sonstige"
  /\ build_complete_graph sonstige_twice
     = build_complete_graph sonstige_swapped
  /\ (pairs <$> parse_xml sonstige_twice)
     <> (pairs <$> parse_xml sonstige_swapped)
  /\ (reingest <$> build_complete_graph sonstige_twice)
     <> (pairs <$> parse_xml sonstige_twice)
  /\ (elements <$> (reingest <$> build_complete_graph sonstige_twice))
     = Some [ (Some "2.1", Some "2"); (Some "2", None);
              (Some "2.1", Some "1"); (Some "1.1", Some "2");
              (Some "1", None); (Some "1.1", Some "1") ].
Proof.
  split; [done|]. split; [|split; [|split]].
  - apply (bool_decide_unpack _). by vm_compute.
  - apply (bool_decide_unpack _). by vm_compute.
  - apply (bool_decide_unpack _). by vm_compute.
  - by vm_compute.
Qed.

(** [Holz – Werkstoffe] and [Holz Werkstoffe] are distinct labels with one
    class name: the hypothesis of distinct class names excludes them. *)
Lemma dash_labels_share_a_class_name :
  (identified <$> parse_xml werkstoffe_twice) = Some true
  /\ (class_names <$> parse_xml werkstoffe_twice)
     = Some [Some "Holz_Werkstoffe"; Some "Holz_Werkstoffe"]
  /\ (distinct_class_names <$> parse_xml werkstoffe_twice) = Some false.
Proof. repeat split; by vm_compute. Qed.

Lemma C9_witness :
  exists g, build_complete_graph holz_vollholz = Some g
            /\ reingest g
               = pairs (default ∅ (parse_xml holz_vollholz)).
Proof.
  refine (proj1 (C9_round_trip_for_distinct_class_names holz_vollholz
                   (default ∅ (parse_xml holz_vollholz)) _ _ _));
    by vm_compute.
Defined.
End RoundTripRuns.

(** ** More on scoring *)
Section ScoringMore.
Import Py ValidateAccuracy.

(** The keys of the ground-truth lookup are the codes of the records. *)
Lemma gt_lookup_dom (ground_truth : list GroundTruth) :
  dom (gt_lookup ground_truth)
  = (list_to_set (gt_code <$> ground_truth) : gset string).
Proof.
  unfold gt_lookup.
  assert (H : forall d : gmap string string,
             dom (foldl (fun d v => <[gt_code v := correct_oekobaudat_id v]> d)
                        d ground_truth)
             = dom d ∪ list_to_set (gt_code <$> ground_truth)).
  { induction ground_truth as [|v l IH]; intros d; cbn.
    - set_solver.
    - rewrite IH, dom_insert_L. set_solver. }
  rewrite H, dom_empty_L. set_solver.
Qed.

(** A prediction is judged when its code has a ground truth; it is then a
    hit or a miss, never both. *)
Lemma hit_or_miss (gt_dict : gmap string string) (pred : Prediction) :
  match judged gt_dict pred with
  | Some _ => (hit gt_dict pred = true /\ miss gt_dict pred = None)
              \/ (hit gt_dict pred = false /\ is_Some (miss gt_dict pred))
  | None => hit gt_dict pred = false /\ miss gt_dict pred = None
  end.
Proof.
  unfold hit, miss. destruct (judged gt_dict pred) as [[code actual_id]|];
    [|done].
  destruct (bool_decide (pred_id pred = Some actual_id)); eauto.
Qed.

Lemma miss_Some (gt_dict : gmap string string) (pred : Prediction)
    (e : Error) :
  miss gt_dict pred = Some e ->
  gt_dict !! err_code e = Some (actual e)
  /\ predicted e <> Some (actual e).
Proof.
  unfold miss, judged.
  destruct (pred_code pred) as [code|]; [|done]. cbn.
  destruct (gt_dict !! code) as [actual_id|] eqn:Hgt; [|done]. cbn.
  destruct (bool_decide (pred_id pred = Some actual_id)) eqn:Hb; [done|].
  intros [= <-]. cbn. split; [done|]. by apply bool_decide_eq_false in Hb.
Qed.

Lemma judged_split (gt_dict : gmap string string)
    (predictions : list Prediction) :
  length (List.filter (fun p => bool_decide (is_Some (judged gt_dict p)))
                      predictions)
  = (length (List.filter (hit gt_dict) predictions)
     + length (omap (miss gt_dict) predictions))%nat.
Proof.
  induction predictions as [|pred l IH]; [done|].
  cbn [List.filter omap list_omap]. pose proof (hit_or_miss gt_dict pred) as H.
  destruct (judged gt_dict pred) as [j|] eqn:Hj.
  - rewrite bool_decide_true by done.
    destruct H as [[-> ->]|[-> [e ->]]]; cbn; lia.
  - destruct H as [-> ->]. rewrite bool_decide_false by (by intros [? ?]).
    done.
Qed.

(** X1: every prediction whose code has a ground truth is counted once, as
    correct or as an error: the accuracy is the float quotient of the
    number of such predictions less the number of errors by the number of
    ground-truth records.  An error always carries the ground truth of its
    code as [actual] and a predicted identifier that differs from it. *)
Theorem evaluate_method_counts_each_judged_prediction_once
    (method_name : string) (predictions : list Prediction)
    (ground_truth : list GroundTruth) :
  ground_truth <> [] ->
  let gt_dict := gt_lookup ground_truth in
  let result := evaluate_method method_name predictions ground_truth in
  let judged_count :=
    length (List.filter (fun p => bool_decide (is_Some (judged gt_dict p)))
                        predictions) in
  result.1
  = true_div (Z.of_nat judged_count - Z.of_nat (length result.2))
             (Z.of_nat (length ground_truth))
  /\ Forall (fun e => gt_dict !! err_code e = Some (actual e)
                      /\ predicted e <> Some (actual e))
            result.2.
Proof.
  intros Hne. cbn zeta. unfold evaluate_method. rewrite foldl_step. cbn.
  destruct ground_truth as [|v l]; [done|].
  destruct (Z.ltb_spec 0 (Z.of_nat (length (v :: l)))) as [Hpos|Hpos];
    [|cbn in Hpos; lia].
  split.
  - rewrite judged_split. f_equal. lia.
  - apply Forall_forall. intros e He.
    apply list_elem_of_omap in He as (pred & _ & Hmiss).
    by eapply miss_Some.
Qed.

Lemma evaluate_method_counts_witness :
  (evaluate_method "LLM" Examples.both_predicted Examples.ground_truth).1
  = true_div (2 - 1) 2.
Proof.
  refine (proj1 (evaluate_method_counts_each_judged_prediction_once
                   "LLM" Examples.both_predicted Examples.ground_truth _)).
  discriminate.
Defined.
End ScoringMore.

(** ** Bounds and additivity of the score *)
Section ScoringBounds.
Import Py ValidateAccuracy.

Lemma size_list_to_set_le (l : list string) :
  (size (list_to_set l : gset string) <= length l)%nat.
Proof.
  induction l as [|x l IH]; [cbn; by rewrite size_empty|].
  cbn [list_to_set length]. rewrite size_union_alt, size_singleton.
  assert (size (list_to_set l ∖ {[x]} : gset string)
          <= size (list_to_set l : gset string))%nat
    by (apply subseteq_size; set_solver).
  lia.
Qed.

Lemma omap_sublist {B C} (f : B -> option C) (l1 l2 : list B) :
  l1 `sublist_of` l2 -> omap f l1 `sublist_of` omap f l2.
Proof.
  induction 1 as [|x l1 l2 _ IH|x l1 l2 _ IH]; cbn; [done| |].
  - destruct (f x); [by constructor|done].
  - destruct (f x); [by constructor|done].
Qed.

(** With distinct prediction codes the hits are no more than the ground-truth
    records. *)
Lemma hits_le_ground_truth (predictions : list Prediction)
    (ground_truth : list GroundTruth) :
  NoDup (omap pred_code predictions) ->
  (length (List.filter (hit (gt_lookup ground_truth)) predictions)
   <= length ground_truth)%nat.
Proof.
  intros Hnd. set (d := gt_lookup ground_truth).
  set (hits := List.filter (hit d) predictions).
  assert (Hcodes : Forall (fun p => exists code actual_id,
                             pred_code p = Some code
                             /\ d !! code = Some actual_id) hits).
  { apply Forall_forall. intros p Hp%list_elem_of_In.
    apply filter_In in Hp as [_ Hp]. unfold hit, judged in Hp.
    destruct (pred_code p) as [code|]; [|done]. cbn in Hp.
    destruct (d !! code) as [actual_id|] eqn:Hd; [|done]. eauto. }
  assert (Hlen : length (omap pred_code hits) = length hits).
  { clear -Hcodes. induction Hcodes as [|p l (code & a & Hc & _) _ IH];
      [done|]. cbn. rewrite Hc. cbn. by rewrite IH. }
  assert (Hnd' : NoDup (omap pred_code hits)).
  { eapply sublist_NoDup; [exact Hnd|]. apply omap_sublist, filter_sublist. }
  assert (Hsub : (list_to_set (omap pred_code hits) : gset string) ⊆ dom d).
  { intros code Hc%elem_of_list_to_set.
    apply list_elem_of_omap in Hc as (p & Hp & Hpc).
    rewrite Forall_forall in Hcodes.
    destruct (Hcodes p Hp) as (code' & a & Hc' & Hd).
    rewrite Hpc in Hc'. injection Hc' as <-. by apply elem_of_dom. }
  rewrite <- Hlen, <- (size_list_to_set (C:=gset string)) by done.
  etrans; [by apply subseteq_size|].
  unfold d. rewrite gt_lookup_dom. etrans; [apply size_list_to_set_le|].
  by rewrite length_fmap.
Qed.

(** X2: when no two predictions carry the same code, the accuracy lies
    between 0 and 1. *)
Theorem evaluate_method_accuracy_in_unit_interval (method_name : string)
    (predictions : list Prediction) (ground_truth : list GroundTruth) :
  NoDup (omap pred_code predictions) ->
  (0 <= (evaluate_method method_name predictions ground_truth).1 <= 1)%Q.
Proof.
  intros Hnd. unfold evaluate_method. rewrite foldl_step. cbn.
  pose proof (hits_le_ground_truth predictions ground_truth Hnd) as Hle.
  destruct (Z.ltb_spec 0 (Z.of_nat (length ground_truth))) as [Hpos|_];
    [|done].
  apply true_div_unit; lia.
Qed.

Lemma evaluate_method_accuracy_witness :
  (0 <= (evaluate_method "LLM" Examples.both_predicted
           Examples.ground_truth).1 <= 1)%Q.
Proof.
  apply evaluate_method_accuracy_in_unit_interval.
  apply (bool_decide_unpack _). by vm_compute.
Defined.

(** X3: predictions are never deduplicated: for two lists of predictions
    put together the hits of both count, so that the accuracy is the float
    quotient of the sum of their hits by the number of ground-truth
    records, and the errors are the errors of the first followed by those
    of the second. *)
Theorem evaluate_method_is_additive (method_name : string)
    (first second : list Prediction) (ground_truth : list GroundTruth) :
  let hits l :=
    Z.of_nat (length (List.filter (hit (gt_lookup ground_truth)) l)) in
  let total := Z.of_nat (length ground_truth) in
  (evaluate_method method_name (first ++ second) ground_truth).1
  = (if (0 <? total)%Z then true_div (hits first + hits second) total
     else 0%Q)
  /\ (evaluate_method method_name (first ++ second) ground_truth).2
     = ((evaluate_method method_name first ground_truth).2
        ++ (evaluate_method method_name second ground_truth).2)%list.
Proof.
  cbn zeta. unfold evaluate_method. rewrite !foldl_step. cbn.
  rewrite List.filter_app, length_app, omap_app. split; [|done].
  destruct (0 <? Z.of_nat (length ground_truth))%Z; [|done].
  f_equal. lia.
Qed.

(** X4: a prediction whose code has no ground truth is ignored, neither
    correct nor an error: when that holds of all of them, in particular
    when the ground truth is empty, the accuracy is 0 and no error is
    recorded. *)
Theorem evaluate_method_ignores_unjudged (method_name : string)
    (predictions : list Prediction) (ground_truth : list GroundTruth) :
  Forall (fun p => judged (gt_lookup ground_truth) p = None) predictions ->
  ((evaluate_method method_name predictions ground_truth).1 == 0)%Q
  /\ (evaluate_method method_name predictions ground_truth).2 = [].
Proof.
  intros Hnone. unfold evaluate_method. rewrite foldl_step. cbn.
  assert (Hhit : List.filter (hit (gt_lookup ground_truth)) predictions = []
                 /\ omap (miss (gt_lookup ground_truth)) predictions = []).
  { induction Hnone as [|p l Hp _ [IH1 IH2]]; [done|].
    assert (Hh : hit (gt_lookup ground_truth) p = false)
      by (unfold hit; by rewrite Hp).
    assert (Hm : miss (gt_lookup ground_truth) p = None)
      by (unfold miss; by rewrite Hp).
    cbn [List.filter omap list_omap]. by rewrite Hh, Hm, IH1, IH2. }
  destruct Hhit as [-> ->]. split; [|done].
  by destruct (0 <? Z.of_nat (length ground_truth))%Z.
Qed.

Lemma evaluate_method_ignores_witness :
  ((evaluate_method "LLM" Examples.both_predicted []).1 == 0)%Q
  /\ (evaluate_method "LLM" Examples.both_predicted []).2 = [].
Proof.
  apply evaluate_method_ignores_unjudged.
  apply (bool_decide_unpack _). by vm_compute.
Defined.
End ScoringBounds.

(** ** Size and reach of the stratified sample *)
Section StrataMore.
Import Py ValidationSample.
Context {BsddClass : Type}.
Variable rnd : nat -> nat.

(** The stratified sample, when there is one, is made of the three draws
    from the bands of the entries a matcher has scored. *)
Lemma stratified_Returns
    (matcher : Outcome (BsddClass -> Outcome (option pyfloat)))
    (bsdd_classes sample : list BsddClass) (sample_size : Z) (st : nat) :
  create_validation_sample rnd matcher bsdd_classes sample_size true st
  = Returns sample ->
  exists create_mapping scored high medium low,
    matcher = Returns create_mapping
    /\ scored_classes create_mapping bsdd_classes = Returns scored
    /\ sample = (high ++ medium ++ low)%list
    /\ Spec.drawn_from high (high_conf scored) (n_high scored sample_size)
    /\ Spec.drawn_from medium (medium_conf scored)
         (n_medium scored sample_size)
    /\ Spec.drawn_from low (low_conf scored) (n_low scored sample_size)
    /\ (0 <= n_high scored sample_size)%Z.
Proof.
  unfold create_validation_sample.
  destruct matcher as [create_mapping|]; [|done].
  destruct (scored_classes create_mapping bsdd_classes) as [scored|] eqn:Hs;
    [|done].
  destruct (ValidationSample.sample rnd (high_conf scored) _ st)
    as [[high st1]|] eqn:Hh; [|done].
  destruct (ValidationSample.sample rnd (medium_conf scored) _ st1)
    as [[medium st2]|] eqn:Hm; [|done].
  destruct (ValidationSample.sample rnd (low_conf scored) _ st2)
    as [[low st3]|] eqn:Hl; [|done].
  intros [= <-]. exists create_mapping, scored, high, medium, low.
  apply sample_Returns in Hh as [? ?]. apply sample_Returns in Hm as [? ?].
  apply sample_Returns in Hl as [? ?].
  split; [done|]. split; [done|]. split; [done|]. split; [done|].
  split; [done|]. split; [done|]. lia.
Qed.

(** X5: when the scoring returns, the stratified sample holds exactly the
    requested number of entries whenever the low band can fill what the
    high and medium bands leave of it: a band that falls short of its
    share is made up for from the low band only. *)
Theorem stratified_sample_is_full_when_low_band_suffices
    (create_mapping : BsddClass -> Outcome (option pyfloat))
    (bsdd_classes : list BsddClass) (scored : list (BsddClass * pyfloat))
    (sample_size : Z) (st : nat) :
  scored_classes create_mapping bsdd_classes = Returns scored ->
  (0 <= sample_size)%Z ->
  (sample_size - n_high scored sample_size - n_medium scored sample_size
   <= Z.of_nat (length (low_conf scored)))%Z ->
  exists sample,
    create_validation_sample rnd (Returns create_mapping) bsdd_classes
      sample_size true st
    = Returns sample
    /\ Z.of_nat (length sample) = sample_size.
Proof.
  intros Hscored Hsize Hlow.
  assert (H2 : (0 <= sample_size `div` 2)%Z) by (apply Z.div_pos; lia).
  assert (H3 : (0 <= sample_size `div` 3)%Z) by (apply Z.div_pos; lia).
  pose proof (Z.mul_div_le sample_size 2 ltac:(lia)) as H2'.
  pose proof (Z.mul_div_le sample_size 3 ltac:(lia)) as H3'.
  destruct (stratified_draws rnd create_mapping bsdd_classes scored
              sample_size st Hscored Hsize)
    as (high & medium & low & -> & [_ Hhn] & [_ Hmn] & [_ Hln]).
  eexists. split; [done|]. rewrite !length_app.
  unfold n_low in Hln. unfold n_high, n_medium in *. lia.
Qed.

(** X6: an entry for which the matcher gave no mapping, or a score that is
    not a number, is never part of the stratified sample. *)
Theorem stratified_sample_holds_scored_entries_only
    (matcher : Outcome (BsddClass -> Outcome (option pyfloat)))
    (bsdd_classes sample : list BsddClass) (sample_size : Z) (st : nat) :
  create_validation_sample rnd matcher bsdd_classes sample_size true st
  = Returns sample ->
  forall cls,
    cls ∈ sample ->
    exists create_mapping s,
      matcher = Returns create_mapping
      /\ create_mapping cls = Returns (Some s) /\ isnan s = false.
Proof.
  intros (create_mapping & scored & high & medium & low & -> & Hscored & ->
          & [Hh _] & [Hm _] & [Hl _] & _)%stratified_Returns cls Hcls.
  assert (Hband : cls ∈ (high_conf scored ++ medium_conf scored
                         ++ low_conf scored)%list).
  { eapply elem_of_submseteq; [exact Hcls|]. by repeat apply submseteq_app. }
  rewrite bands_partition in Hband.
  apply list_elem_of_fmap in Hband as ([cls' s] & -> & Hin).
  apply list_elem_of_In, filter_In in Hin as [Hin Hnan]. cbn in *.
  exists create_mapping, s. split; [done|]. split; [|by apply negb_true_iff].
  apply list_elem_of_In in Hin.
  by apply (scored_classes_Returns create_mapping bsdd_classes scored).
Qed.

(** A scoring returns when the matcher returns for every class. *)
Lemma scored_classes_total
    (create_mapping : BsddClass -> Outcome (option pyfloat))
    (bsdd_classes : list BsddClass) :
  (forall cls, cls ∈ bsdd_classes ->
               exists mapping, create_mapping cls = Returns mapping) ->
  exists scored, scored_classes create_mapping bsdd_classes = Returns scored.
Proof.
  induction bsdd_classes as [|cls l IH]; intros Hall; [by eexists|].
  cbn [scored_classes].
  destruct (Hall cls) as [mapping ->]; [by left|].
  destruct IH as [scored ->]; [intros c Hc; apply Hall; by right|].
  by eexists.
Qed.

(** X7: as the file stands, with the matcher's name bound nowhere, every
    stratified call raises NameError, whatever its arguments.  The plain
    call raises exactly for a negative size, and then the ValueError of
    [random.sample]; so does the stratified call once the name is bound to
    a matcher that returns for every class. *)
Theorem stratified_call_raises_NameError_plain_call_iff_negative
    (matcher : Outcome (BsddClass -> Outcome (option pyfloat)))
    (create_mapping : BsddClass -> Outcome (option pyfloat))
    (bsdd_classes : list BsddClass) (sample_size : Z) (st : nat)
    (e : Exception) :
  create_validation_sample rnd (Raises NameError) bsdd_classes sample_size
    true st
  = Raises NameError
  /\ (create_validation_sample rnd matcher bsdd_classes sample_size false st
      = Raises e
      <-> e = ValueError /\ (sample_size < 0)%Z)
  /\ ((forall cls, cls ∈ bsdd_classes ->
                   exists mapping, create_mapping cls = Returns mapping) ->
      create_validation_sample rnd (Returns create_mapping) bsdd_classes
        sample_size true st
      = Raises e
      <-> e = ValueError /\ (sample_size < 0)%Z).
Proof.
  split; [done|]. split.
  - unfold create_validation_sample.
    destruct (sample rnd bsdd_classes _ st) as [[drawn st']|e'] eqn:Hs.
    + apply sample_Returns in Hs as [Hk _]. split; [done|]. intros [_ ?]. lia.
    + apply sample_Raises in Hs as [-> Hk]. split.
      * intros [= <-]. split; [done|lia].
      * by intros [-> _].
  - intros Hall.
    destruct (scored_classes_total create_mapping bsdd_classes Hall)
      as [scored Hscored].
    destruct (Z.lt_ge_cases sample_size 0) as [Hneg|Hsize].
    + unfold create_validation_sample. rewrite Hscored.
      assert (Hh : sample rnd (high_conf scored) (n_high scored sample_size) st
                   = Raises ValueError).
      { apply sample_Raises. split; [done|]. left. unfold n_high.
        assert (sample_size `div` 2 < 0)%Z
          by (apply Z.div_lt_upper_bound; lia).
        lia. }
      rewrite Hh. split; [by intros [= <-]|by intros [-> _]].
    + destruct (stratified_draws rnd create_mapping bsdd_classes scored
                  sample_size st Hscored Hsize)
        as (high & medium & low & -> & _).
      split; [done|]. intros [_ ?]. lia.
Qed.
End StrataMore.

(** ** The stratified sample on concrete entries, again *)
Section StrataMoreRuns.
Import Py ValidationSample Examples.

Lemma stratified_sample_is_full_witness :
  exists sample,
    create_validation_sample generator (Returns entry_mapping) entries 6 true 0
    = Returns sample
    /\ Z.of_nat (length sample) = 6%Z.
Proof.
  apply (stratified_sample_is_full_when_low_band_suffices
           generator entry_mapping entries
           ((fun n => (n, Fin (Z.of_nat n # 10))) <$> seq 0 11) 6 0);
    by vm_compute.
Defined.

Lemma stratified_sample_scored_witness :
  create_validation_sample generator (Returns entry_mapping) entries 6 true 0
  = Returns [8; 9; 10; 5; 7; 3]%nat
  /\ exists create_mapping s,
       Returns entry_mapping = Returns create_mapping
       /\ create_mapping 8%nat = Returns (Some s) /\ isnan s = false.
Proof.
  split; [by vm_compute|].
  apply (stratified_sample_holds_scored_entries_only
           generator (Returns entry_mapping) entries [8; 9; 10; 5; 7; 3]%nat
           6 0);
    [by vm_compute|constructor].
Defined.
End StrataMoreRuns.

(** ** Class names *)
Section ClassNames.
Import Py BuildRdf.
Context {alphanumeric : Unicode.Alphanumeric}.

(** A word character that is no separator. *)
Local Abbreviation plain_word c :=
  (Unicode.isword c = true /\ Unicode.isspace c = false
   /\ ishyphen c = false).

Lemma underscore_is_plain_word : plain_word "_".
Proof. by vm_compute. Qed.

(** What the two substitutions leave are word characters. *)
Lemma class_name_words (in_run : bool) (l : list string) :
  Forall (fun c => plain_word c) (collapse_runs in_run (drop_special l)).
Proof.
  revert in_run. induction l as [|c l IH]; intros in_run; [constructor|].
  cbn [drop_special].
  destruct (Unicode.isword c || Unicode.isspace c || ishyphen c) eqn:Hkeep;
    [|apply IH].
  cbn [collapse_runs].
  destruct (Unicode.isspace c || ishyphen c) eqn:Hsep.
  - destruct in_run; [apply IH|].
    constructor; [apply underscore_is_plain_word|apply IH].
  - constructor; [|apply IH].
    apply orb_false_iff in Hsep as [Hs Hh].
    by rewrite Hs, Hh, !orb_false_r in Hkeep.
Qed.

Lemma words_unchanged (l : list string) :
  Forall (fun c => plain_word c) l ->
  drop_special l = l /\ forall in_run, collapse_runs in_run l = l.
Proof.
  induction 1 as [|c l (Hw & Hs & Hh) _ [IH1 IH2]]; [done|]. cbn.
  rewrite Hw, Hs, Hh. cbn. split; [by rewrite IH1|].
  intros in_run. by rewrite IH2.
Qed.

(** What the two substitutions leave of characters that start a text are
    such characters. *)
Lemma class_name_start (in_run : bool) (l : list string) :
  Forall (fun c => Unicode.starts_char c = true) l ->
  Forall (fun c => Unicode.starts_char c = true)
         (collapse_runs in_run (drop_special l)).
Proof.
  intros Hl. revert in_run.
  induction Hl as [|c l Hc _ IH]; intros in_run; [constructor|].
  cbn [drop_special].
  destruct (Unicode.isword c || Unicode.isspace c || ishyphen c); [|apply IH].
  cbn [collapse_runs]. destruct (Unicode.isspace c || ishyphen c).
  - destruct in_run; [apply IH|]. by constructor.
  - by constructor.
Qed.

(** The class name has the characters the two substitutions leave. *)
Lemma chars_class_name (in_run : bool) (s : string) :
  Unicode.chars
    (Unicode.text (collapse_runs in_run (drop_special (Unicode.chars s))))
  = collapse_runs in_run (drop_special (Unicode.chars s)).
Proof.
  destruct (chars_shape s) as (Hchar & Htail & _).
  destruct (Unicode.chars s) as [|c l]; [done|].
  apply Forall_cons in Hchar as [Hc Hl]. cbn [tail] in Htail.
  assert (Hstart : Forall (fun c => Unicode.starts_char c = true) l).
  { clear -Hl Htail. induction Hl as [|c' l Hc' _ IH]; [constructor|].
    apply Forall_cons in Htail as [Hin Htail].
    constructor; [|by apply IH].
    unfold Unicode.starts_char. by rewrite Hc', Hin. }
  assert (Hrest : forall b,
            Forall (fun c => Unicode.is_char c = true)
                   (collapse_runs b (drop_special l))
            /\ Forall (fun c => Unicode.starts_inside c = false)
                      (collapse_runs b (drop_special l))).
  { intros b. pose proof (class_name_start b l Hstart) as Hout.
    split; (eapply Forall_impl; [exact Hout|]).
    - by intros c' [? _]%andb_true_iff.
    - by intros c' [_ ?%negb_true_iff]%andb_true_iff. }
  cbn [drop_special].
  destruct (Unicode.isword c || Unicode.isspace c || ishyphen c).
  - cbn [collapse_runs]. destruct (Unicode.isspace c || ishyphen c).
    + destruct in_run.
      * destruct (Hrest true) as [H1 H2]. apply chars_text; [done|].
        by destruct H2.
      * destruct (Hrest true) as [H1 H2].
        apply chars_text; [by constructor|exact H2].
    + destruct (Hrest false) as [H1 H2].
      apply chars_text; [by constructor|exact H2].
  - destruct (Hrest in_run) as [H1 H2]. apply chars_text; [done|].
    by destruct H2.
Qed.

(** X8: a class name consists of word characters only (letters, digits,
    the underscore, as the class [\w] has them): it holds no whitespace, no
    hyphen and no special character, whatever the label. *)
Theorem name_to_class_name_is_made_of_word_characters (name_de : string) :
  Forall (fun c => Unicode.isword c = true /\ Unicode.isspace c = false
                   /\ ishyphen c = false)
         (Unicode.chars (name_to_class_name name_de)).
Proof.
  unfold name_to_class_name. rewrite chars_class_name.
  apply class_name_words.
Qed.

(** X9: a class name is its own class name. *)
Theorem name_to_class_name_is_idempotent (name_de : string) :
  name_to_class_name (name_to_class_name name_de)
  = name_to_class_name name_de.
Proof.
  unfold name_to_class_name at 1. unfold name_to_class_name at 1.
  rewrite chars_class_name.
  destruct (words_unchanged _ (class_name_words false (Unicode.chars name_de)))
    as [Hd Hc].
  unfold name_to_class_name. by rewrite Hd, Hc.
Qed.

Lemma drop_special_insert (l1 l2 : list string) (c : string) :
  Unicode.isword c = false -> Unicode.isspace c = false ->
  ishyphen c = false ->
  drop_special (l1 ++ c :: l2) = drop_special (l1 ++ l2).
Proof.
  intros Hw Hs Hh. induction l1 as [|b l1 IH]; cbn.
  - by rewrite Hw, Hs, Hh.
  - by rewrite IH.
Qed.

Lemma hyphenate_separates (c : string) :
  Unicode.isspace (Chars.hyphenate c) || ishyphen (Chars.hyphenate c)
  = Unicode.isspace c || ishyphen c
  /\ (Unicode.isspace c || ishyphen c = false -> Chars.hyphenate c = c).
Proof.
  assert (Hh : ishyphen "-" = true) by (by vm_compute).
  unfold Chars.hyphenate. destruct (Unicode.isspace c) eqn:Hs.
  - split; [|done]. by rewrite Hh, !orb_true_r.
  - by rewrite Hs.
Qed.

Lemma hyphenate_keeps (c : string) :
  Unicode.isword (Chars.hyphenate c) || Unicode.isspace (Chars.hyphenate c)
    || ishyphen (Chars.hyphenate c)
  = Unicode.isword c || Unicode.isspace c || ishyphen c.
Proof.
  assert (Hh : ishyphen "-" = true) by (by vm_compute).
  unfold Chars.hyphenate. destruct (Unicode.isspace c) eqn:Hs.
  - by rewrite Hh, !orb_true_r.
  - by rewrite Hs.
Qed.

Lemma drop_special_hyphenate (l : list string) :
  drop_special (Chars.hyphenate <$> l) = Chars.hyphenate <$> drop_special l.
Proof.
  induction l as [|c l IH]; [done|]. cbn [fmap list_fmap drop_special].
  rewrite hyphenate_keeps.
  destruct (Unicode.isword c || Unicode.isspace c || ishyphen c); [|done].
  cbn [fmap list_fmap]. by rewrite IH.
Qed.

Lemma collapse_runs_hyphenate (in_run : bool) (l : list string) :
  collapse_runs in_run (Chars.hyphenate <$> l) = collapse_runs in_run l.
Proof.
  revert in_run. induction l as [|c l IH]; intros in_run; [done|].
  cbn [fmap list_fmap collapse_runs].
  destruct (hyphenate_separates c) as [-> Hsame].
  destruct (Unicode.isspace c || ishyphen c).
  - destruct in_run; by rewrite IH.
  - by rewrite Hsame, IH.
Qed.

(** Turning whitespace into hyphens keeps the shape of the characters. *)
Lemma chars_hyphenate (s : string) :
  Unicode.chars (Unicode.text (Chars.hyphenate <$> Unicode.chars s))
  = Chars.hyphenate <$> Unicode.chars s.
Proof.
  destruct (chars_shape s) as (Hchar & Htail & _).
  assert (Hone : forall c, Unicode.is_char c = true ->
                           Unicode.is_char (Chars.hyphenate c) = true).
  { intros c Hc. unfold Chars.hyphenate. by destruct (Unicode.isspace c). }
  assert (Hin : forall c, Unicode.starts_inside c = false ->
                          Unicode.starts_inside (Chars.hyphenate c) = false).
  { intros c Hc. unfold Chars.hyphenate. by destruct (Unicode.isspace c). }
  apply chars_text.
  - apply Forall_fmap. eapply Forall_impl; [exact Hchar|]. exact Hone.
  - destruct (Unicode.chars s) as [|c l]; [constructor|]. cbn [tail] in *.
    rewrite fmap_cons. cbn [tail]. apply Forall_fmap.
    eapply Forall_impl; [exact Htail|]. exact Hin.
Qed.

(** X10: labels that differ only in special characters, or in whether
    they separate their words by whitespace or by hyphens, get the same
    class name: turning every whitespace character of a label into a
    hyphen, or putting a character that is no word character, no
    whitespace and no hyphen anywhere between its characters, leaves the
    class name as it is. *)
Theorem name_to_class_name_ignores_specials_and_separators :
  (forall name_de,
      name_to_class_name
        (Unicode.text (Chars.hyphenate <$> Unicode.chars name_de))
      = name_to_class_name name_de)
  /\ (forall s1 s2 c,
        Unicode.starts_char c = true -> Unicode.starts_inside s2 = false ->
        Unicode.isword c = false -> Unicode.isspace c = false ->
        ishyphen c = false ->
        name_to_class_name (s1 ++ c ++ s2) = name_to_class_name (s1 ++ s2)).
Proof.
  split.
  - intros name_de. unfold name_to_class_name.
    by rewrite chars_hyphenate, drop_special_hyphenate,
         collapse_runs_hyphenate.
  - intros s1 s2 c [Hc Hin%negb_true_iff]%andb_true_iff Hs2 Hw Hs Hh.
    unfold name_to_class_name.
    assert (Hchars : Unicode.chars c = [c]).
    { rewrite <- (append_nil_r c) at 1.
      by apply (chars_text [c]); repeat constructor. }
    rewrite (chars_app s1 (c ++ s2)), (chars_app c s2), Hchars by
      (done || (destruct c; [done|]; by rewrite append_cons)).
    rewrite (chars_app s1 s2) by done.
    change ([c] ++ Unicode.chars s2)%list with (c :: Unicode.chars s2).
    by rewrite drop_special_insert.
Qed.
End ClassNames.

(** ** Class names of concrete labels *)
Section ClassNamesRuns.
Import Py BuildRdf.
Local Existing Instance Examples.latin1.

(** The degree sign and the dash are dropped, the no-break space is a
    separator, the umlauts are letters. *)
Lemma class_names_runs :
  name_to_class_name "20°C" = "20C"
  /\ name_to_class_name "Holz – Werkstoffe" = "Holz_Werkstoffe"
  /\ name_to_class_name "Holz Werkstoffe" = "Holz_Werkstoffe"
  /\ name_to_class_name Examples.sand_und_kies = "Sand_und_Kies"
  /\ name_to_class_name "Dämmstoffe (außen)" = "Dämmstoffe_außen".
Proof. repeat split; by vm_compute. Qed.

(** [Holz – Werkstoffe] with and without the dash. *)
Lemma name_to_class_name_ignores_witness :
  name_to_class_name ("Holz " ++ "–" ++ " Werkstoffe")
  = name_to_class_name ("Holz " ++ " Werkstoffe").
Proof.
  apply (proj2 name_to_class_name_ignores_specials_and_separators);
    by vm_compute.
Defined.
End ClassNamesRuns.

(** ** More on label resolution *)
Section ResolutionMore.
Import Py BuildRdf.

(** X11: a phrase in which nothing resolves, neither the phrase nor any of
    its tokens, comes back with its whitespace normalised: its tokens
    joined by single spaces, hence the empty string for a blank phrase. *)
Theorem translate_normalises_whitespace_of_unresolved_phrase
    (cache : gmap string string) (german_text : string) :
  Forall (fun w => cache !! w = None /\ TRANSLATION_DICT !! w = None)
         (german_text :: Str.split german_text) ->
  translate cache german_text = Str.join " " (Str.split german_text).
Proof.
  intros Hall. apply Forall_cons in Hall as [[Hc Hd] Htokens].
  unfold translate. rewrite Hc, Hd, foldl_translate_word. cbn [app].
  f_equal. revert Htokens. generalize (Str.split german_text).
  intros ws Htokens. induction Htokens as [|w ws [Hwc Hwd] _ IH]; [done|].
  rewrite fmap_cons, IH. f_equal.
  unfold Spec.resolve_token. by rewrite Hwc, Hwd.
Qed.

Lemma translate_normalises_witness :
  translate Examples.cache "  Putze   fein "
  = Str.join " " (Str.split "  Putze   fein ").
Proof.
  apply translate_normalises_whitespace_of_unresolved_phrase.
  apply (bool_decide_unpack _). by vm_compute.
Defined.

(** *** Path segments *)

Lemma free_append (sep : ascii) (s1 s2 : string) :
  Chars.free sep (s1 ++ s2) = Chars.free sep s1 && Chars.free sep s2.
Proof.
  induction s1 as [|a s1 IH]; [done|].
  change (Chars.free sep (String a (s1 ++ s2))
          = Chars.free sep (String a s1) && Chars.free sep s2).
  unfold Chars.free in *. cbn. by rewrite IH, andb_assoc.
Qed.

(** Splitting a piece without separator, followed or not by more. *)
Lemma split_on_piece (sep : ascii) (piece rest : string) :
  Chars.free sep piece = true ->
  Str.split_on sep piece = [piece]
  /\ Str.split_on sep (piece ++ String sep rest)
     = piece :: Str.split_on sep rest.
Proof.
  induction piece as [|a piece IH].
  - intros _. split; [done|].
    change (Str.split_on sep (String sep rest)
            = EmptyString :: Str.split_on sep rest).
    cbn. by rewrite Ascii.eqb_refl.
  - unfold Chars.free. cbn. intros [Ha Hp]%andb_true_iff.
    apply negb_true_iff in Ha. destruct (IH Hp) as [IH1 IH2].
    change (String a piece ++ String sep rest)
      with (String a (piece ++ String sep rest)).
    cbn. by rewrite Ha, IH1, IH2.
Qed.

(** [sep.join(parts).split(sep)] gives the parts back when none of them
    holds the separator. *)
Lemma split_on_join (sep : ascii) (parts : list string) :
  parts <> [] ->
  Forall (fun p => Chars.free sep p = true) parts ->
  Str.split_on sep (Str.join (String sep EmptyString) parts) = parts.
Proof.
  intros Hne Hall. induction Hall as [|p parts Hp Hparts IH]; [done|].
  destruct parts as [|q parts].
  - cbn. by apply split_on_piece.
  - change (Str.join (String sep EmptyString) (p :: q :: parts))
      with (p ++ String sep (Str.join (String sep EmptyString) (q :: parts))).
    destruct (split_on_piece sep p
                (Str.join (String sep EmptyString) (q :: parts)) Hp)
      as [_ ->].
    by rewrite IH.
Qed.

(** The pieces [split] cuts hold no separator. *)
Lemma split_on_free (sep : ascii) (s : string) :
  Forall (fun p => Chars.free sep p = true) (Str.split_on sep s).
Proof.
  induction s as [|a s IH]; [by repeat constructor|]. cbn.
  destruct (Ascii.eqb a sep) eqn:Ha; [by constructor|].
  destruct (Str.split_on sep s) as [|piece rest].
  - repeat constructor. unfold Chars.free. cbn. by rewrite Ha.
  - inversion IH as [|? ? Hpiece Hrest]; subst. constructor; [|done].
    unfold Chars.free in *. cbn. by rewrite Ha.
Qed.

Lemma all_append (f : ascii -> bool) (s1 s2 : string) :
  Chars.all f (s1 ++ s2) = Chars.all f s1 && Chars.all f s2.
Proof.
  induction s1 as [|a s1 IH]; [done|].
  change (Chars.all f (String a (s1 ++ s2))
          = Chars.all f (String a s1) && Chars.all f s2).
  cbn. by rewrite IH, andb_assoc.
Qed.

(** The characters of a phrase hold no byte the phrase does not hold. *)
Lemma chars_all (f : ascii -> bool) (s : string) :
  Chars.all f s = true ->
  Forall (fun c => Chars.all f c = true) (Unicode.chars s).
Proof.
  rewrite <- (text_chars s) at 1. generalize (Unicode.chars s).
  intros l. induction l as [|c l IH]; [constructor|].
  cbn [Unicode.text]. rewrite all_append.
  intros [Hc Hl]%andb_true_iff. constructor; [done|by apply IH].
Qed.

(** The tokens of a phrase hold no byte the phrase does not hold. *)
Lemma tokens_all (f : ascii -> bool) (l : list string) :
  Forall (fun c => Chars.all f c = true) l ->
  Forall (fun w => Chars.all f w = true) (Spec.tokens l).
Proof.
  induction 1 as [|c l Hc _ IH]; [constructor|]. cbn [Spec.tokens].
  destruct (Unicode.isspace c); [done|].
  destruct (Spec.starts_blank l); [by constructor|].
  destruct (Spec.tokens l) as [|t rest]; [by repeat constructor|].
  apply Forall_cons in IH as [Ht Hrest]. constructor; [|done].
  by rewrite all_append, Hc, Ht.
Qed.

Lemma join_all (f : ascii -> bool) (sep : string) (pieces : list string) :
  Chars.all f sep = true ->
  Forall (fun w => Chars.all f w = true) pieces ->
  Chars.all f (Str.join sep pieces) = true.
Proof.
  intros Hsep Hall. induction Hall as [|p pieces Hp _ IH]; [done|].
  destruct pieces as [|q pieces]; [done|].
  change (Str.join sep (p :: q :: pieces))
    with (p ++ sep ++ Str.join sep (q :: pieces)).
  by rewrite !all_append, Hp, Hsep, IH.
Qed.

(** No translation of the built-in table holds a slash. *)
Lemma TRANSLATION_DICT_free :
  map_Forall (fun _ v => Chars.free "/" v = true) TRANSLATION_DICT.
Proof. apply (bool_decide_unpack _). by vm_compute. Qed.

(** A segment without slash is translated without slash when no cached
    translation holds one. *)
Lemma translate_free (cache : gmap string string) (s : string) :
  map_Forall (fun _ v => Chars.free "/" v = true) cache ->
  Chars.free "/" s = true ->
  Chars.free "/" (translate cache s) = true.
Proof.
  intros Hcache Hs. unfold translate.
  destruct (cache !! s) as [t|] eqn:Hc; [by eapply Hcache|].
  destruct (TRANSLATION_DICT !! s) as [t|] eqn:Hd;
    [by eapply TRANSLATION_DICT_free|].
  rewrite foldl_translate_word. cbn [app].
  apply join_all; [done|]. rewrite split_tokens.
  apply Forall_fmap.
  eapply Forall_impl; [by apply tokens_all, chars_all|].
  intros w Hw. unfold compose, Spec.resolve_token.
  destruct (cache !! w) as [t|] eqn:Hwc; [by eapply Hcache|].
  destruct (TRANSLATION_DICT !! w) as [t|] eqn:Hwd;
    [by eapply TRANSLATION_DICT_free|done].
Qed.

(** X12: when no cached translation holds a slash, the English path of a
    translated category has the segments of its German path, each
    translated on its own: same depth, same order. *)
Theorem translate_category_translates_path_segment_by_segment
    (cache : gmap string string) (category translated : OekobaudatCategory) :
  map_Forall (fun _ v => Chars.free "/" v = true) cache ->
  translate_category cache category = Some translated ->
  exists path path_en,
    full_path_de category = Some path
    /\ full_path_en translated = Some path_en
    /\ Str.split_on "/" path_en = translate cache <$> Str.split_on "/" path.
Proof.
  intros Hcache. unfold translate_category.
  destruct (name_de category) as [german|]; [|done].
  destruct (full_path_de category) as [path|]; [|done]. cbn.
  intros [= <-]. exists path. eexists. split; [done|]. split; [done|].
  apply split_on_join.
  - by destruct (Str.split_on "/" path) eqn:Hsplit;
      [destruct path; cbn in Hsplit;
       repeat (case_match; simplify_eq)|].
  - apply Forall_fmap. eapply Forall_impl; [apply split_on_free|].
    intros s Hs. unfold compose. by apply translate_free.
Qed.

Lemma translate_category_path_witness :
  exists path path_en,
    full_path_de Examples.zement = Some path
    /\ full_path_en
         (default Examples.zement
            (translate_category Examples.cache Examples.zement))
       = Some path_en
    /\ Str.split_on "/" path_en
       = translate Examples.cache <$> Str.split_on "/" path.
Proof.
  apply (translate_category_translates_path_segment_by_segment
           Examples.cache Examples.zement).
  - apply (bool_decide_unpack _). by vm_compute.
  - by vm_compute.
Defined.
End ResolutionMore.

(** ** When the build aborts *)
Section BuildAborts.
Import Py BuildRdf.
Context {alphanumeric : Unicode.Alphanumeric}.

(** The loop over the keys fails as soon as it fails at one key. *)
Lemma add_keys_None (cats : Categories) (l : list (option string))
    (k : option string) (g0 : Graph) :
  k ∈ l ->
  (forall g, add_category_to_graph cats k g = None) ->
  foldr (fun cat_id acc => graph ← acc; add_category_to_graph cats cat_id graph)
        (Some g0) l = None.
Proof.
  intros Hk Hfail. induction l as [|k' l IH]; [by apply elem_of_nil in Hk|].
  cbn [foldr]. apply elem_of_cons in Hk as [<-|Hk].
  - destruct (foldr _ (Some g0) l) as [g|]; [apply Hfail|done].
  - by rewrite IH.
Qed.

(** Translation keeps the categories well stored and named. *)
Lemma translate_all_keeps (cache : gmap string string)
    (cats translated : Categories) :
  well_stored cats ->
  (forall k c, cats !! k = Some c -> is_Some (name_de c)) ->
  (forall k, translated !! k = cats !! k ≫= translate_category cache) ->
  well_stored translated
  /\ (forall k c, translated !! k = Some c -> is_Some (name_de c)).
Proof.
  intros Hw Hnames Hlookup.
  assert (Hback : forall k c', translated !! k = Some c' ->
            exists c, cats !! k = Some c /\ id c' = id c
                      /\ name_de c' = name_de c
                      /\ parent_id c' = parent_id c
                      /\ full_path_de c' = full_path_de c).
  { intros k c' Hk'. rewrite Hlookup in Hk'.
    destruct (cats !! k) as [c|]; [|done]. cbn in Hk'.
    exists c. split; [done|]. by apply translate_category_Some in Hk'. }
  split.
  - intros k c' Hk'.
    destruct (Hback k c' Hk') as (c & Hk & Hi & Hn & Hp & Hpath).
    destruct (Hw k c Hk) as (Hid' & Hpath' & Hpar).
    rewrite Hi, Hn, Hpath, Hp. split; [done|]. split; [done|].
    intros p Hpp. destruct (Hpar p Hpp) as [pc Hpc].
    rewrite Hlookup, Hpc. cbn. unfold translate_category.
    destruct (Hnames _ pc Hpc) as [n Hn'].
    destruct (Hw _ pc Hpc) as (_ & [path Hpath''] & _); [by rewrite Hn'|].
    by rewrite Hn', Hpath''.
  - intros k c' Hk'. destruct (Hback k c' Hk') as (c & Hk & _ & Hn & _).
    rewrite Hn. by eapply Hnames.
Qed.

(** X13: the build of the ontology aborts exactly when the file does not
    parse or a stored category has no name; this holds of
    [build_complete_graph] and of [main] with any translation cache. *)
Theorem build_aborts_iff_unparsable_or_unnamed
    (source : Source) (cache : gmap string string) :
  let unnamed :=
    exists cats k c, parse_xml source = Some cats
                     /\ cats !! k = Some c /\ name_de c = None in
  (build_complete_graph source = None <-> source = Unparsable \/ unnamed)
  /\ (main source cache = None <-> source = Unparsable \/ unnamed).
Proof.
  cbn zeta. destruct source as [|root].
  { split; split; (by left) || done. }
  assert (Hsome : exists cats, parse_xml (Document root) = Some cats)
    by (cbn; destruct (find_process_categories root); eauto).
  destruct Hsome as [cats Hparse].
  pose proof (parse_xml_well_stored _ _ Hparse) as Hw.
  unfold build_complete_graph, main. rewrite Hparse. cbn.
  destruct (decide (map_Forall (fun _ c => is_Some (name_de c)) cats))
    as [Hnames|Hnot].
  - assert (Hno : ~ (Document root = Unparsable
                     \/ exists cats0 k c, Some cats = Some cats0
                          /\ cats0 !! k = Some c /\ name_de c = None)).
    { intros [?|(cats0 & k & c & [= <-] & Hk & Hn)]; [done|].
      destruct (Hnames k c Hk) as [n Hn']. congruence. }
    split; (split; [|by intros ?]); intros Hfail; exfalso.
    + destruct (add_all_spec cats Hw Hnames) as (g & Hg & _). congruence.
    + destruct (translate_all_Some cache cats Hw Hnames)
        as (translated & Ht & Hlookup).
      rewrite Ht in Hfail. cbn in Hfail.
      destruct (translate_all_keeps cache cats translated Hw Hnames Hlookup)
        as [Hw' Hnames'].
      destruct (add_all_spec translated Hw' Hnames') as (g & Hg & _).
      by rewrite Hg in Hfail.
  - apply map_not_Forall in Hnot as (k & c & Hk & Hn); [|apply _].
    assert (Hnone : name_de c = None).
    { destruct (name_de c) eqn:E; [|done]. exfalso. apply Hn. eauto. }
    split; (split; [intros _; right; by exists cats, k, c|intros _]).
    + apply (add_keys_None cats _ k).
      * apply list_elem_of_fmap. exists (k, c). split; [done|].
        by apply elem_of_map_to_list.
      * intros g. unfold add_category_to_graph, category_triples.
        by rewrite Hk, Hnone.
    + unfold translate_all. rewrite decide_False; [done|].
      intros Hall. destruct (Hall k c Hk) as [c' Hc'].
      unfold translate_category in Hc'. by rewrite Hnone in Hc'.
Qed.
End BuildAborts.

(** ** The list parser of the mapper, and the dict of the ontology builder *)
Section ListParser.
Import Py BuildRdf.

Local Abbreviation parse_categories := OekobaudatParser.parse_categories.
Local Abbreviation category_of := OekobaudatParser.category_of.
Local Abbreviation listed := OekobaudatParser.listed.
Local Abbreviation stored := OekobaudatParser.stored.

(** The dict obtained by storing listed categories one after the other. *)
Local Abbreviation store_listed :=
  (foldl (fun (d : gmap (option string)
                         (option string * option string * option string))
              (c : MapLlm.OekobaudatCategory) =>
            <[MapLlm.id c := listed c]> d)).

Lemma parse_categories_eq (tag : string) (attrib : list (string * string))
    (children : list Element) (parent_id parent_path : option string)
    (categories : list MapLlm.OekobaudatCategory) :
  parse_categories (Elem tag attrib children) parent_id parent_path categories
  = foldl (OekobaudatParser.turn parent_id parent_path) categories children.
Proof.
  cbn [OekobaudatParser.parse_categories]. revert categories.
  induction children as [|c children IH]; intros categories; [done|].
  cbn [foldl]. unfold OekobaudatParser.turn at 2.
  destruct (is_category c); apply IH.
Qed.

(** The parser only appends to the list it is given. *)
Lemma parse_categories_app (parent_elem : Element) :
  forall (parent_id parent_path : option string)
         (categories : list MapLlm.OekobaudatCategory),
    parse_categories parent_elem parent_id parent_path categories
    = (categories ++ parse_categories parent_elem parent_id parent_path [])%list.
Proof.
  induction parent_elem as [tag attrib children IH]
    using Element_children_ind.
  intros parent_id parent_path categories.
  rewrite !parse_categories_eq. revert categories.
  induction IH as [|c children Hc _ IHchildren]; intros categories.
  - cbn. by rewrite app_nil_r.
  - cbn [foldl].
    rewrite (IHchildren (OekobaudatParser.turn _ _ categories c)).
    rewrite (IHchildren (OekobaudatParser.turn _ _ [] c)).
    rewrite app_assoc. f_equal.
    unfold OekobaudatParser.turn. destruct (is_category c).
    + cbn zeta. rewrite (Hc _ _ (categories ++ _)%list).
      rewrite (Hc _ _ ([] ++ _)%list). cbn [app]. by rewrite <- app_assoc.
    + by rewrite app_nil_r.
Qed.

(** What one turn of the loop appends for a child. *)
Lemma turn_app (parent_id parent_path : option string)
    (categories : list MapLlm.OekobaudatCategory) (c : Element) :
  OekobaudatParser.turn parent_id parent_path categories c
  = (categories
     ++ if is_category c
        then category_of c parent_id parent_path
             :: parse_categories c (get c "id")
                  (path_below parent_path (get c "name")) []
        else [])%list.
Proof.
  unfold OekobaudatParser.turn. destruct (is_category c).
  - cbn zeta. rewrite parse_categories_app. by rewrite <- app_assoc.
  - by rewrite app_nil_r.
Qed.

Lemma foldl_turn_app (parent_id parent_path : option string)
    (children : list Element) :
  forall categories : list MapLlm.OekobaudatCategory,
    foldl (OekobaudatParser.turn parent_id parent_path) categories children
    = (categories
       ++ flat_map (fun c =>
            if is_category c
            then category_of c parent_id parent_path
                 :: parse_categories c (get c "id")
                      (path_below parent_path (get c "name")) []
            else []) children)%list.
Proof.
  induction children as [|c children IH]; intros categories.
  - cbn. by rewrite app_nil_r.
  - cbn [foldl flat_map]. rewrite IH, turn_app. by rewrite <- app_assoc.
Qed.

(** The list holds one category per element the recursion reaches, in the
    order of the calls, with the id and name the element declares. *)
Lemma parse_categories_rows (parent_elem : Element) :
  forall parent_id parent_path : option string,
    (fun c => (MapLlm.id c, MapLlm.name_de c, MapLlm.uri c))
    <$> parse_categories parent_elem parent_id parent_path []
    = (fun node => (get node "id", get node "name",
                    "https://oekobaudat.de/category/" ++ fmt (get node "id")))
      <$> visited parent_elem.
Proof.
  induction parent_elem as [tag attrib children IH]
    using Element_children_ind.
  intros parent_id parent_path.
  rewrite parse_categories_eq, foldl_turn_app, visited_eq. cbn [app].
  induction IH as [|c children Hc _ IHchildren]; [done|].
  cbn [flat_map]. rewrite !fmap_app, IHchildren. f_equal.
  destruct (is_category c); [|done].
  rewrite !fmap_cons. by rewrite Hc.
Qed.

(** Storing a node in the builder's dict, seen through what the list
    parser keeps of it. *)
Lemma store_stored (category : Element) (parent_id parent_path : option string)
    (level : Z) (cats : Categories) :
  stored <$> store category parent_id parent_path level cats
  = <[get category "id" := listed (category_of category parent_id parent_path)]>
      (stored <$> cats).
Proof.
  unfold store. cbn zeta.
  match goal with
  | |- context [<[_ := ?o]> cats] => set (cat_obj := o)
  end.
  assert (Hins : stored <$> <[get category "id" := cat_obj]> cats
                 = <[get category "id" :=
                       listed (category_of category parent_id parent_path)]>
                     (stored <$> cats)) by (by rewrite fmap_insert).
  destruct (truthy_opt parent_id && _); [|done].
  rewrite <- Hins. apply map_eq. intros k.
  rewrite !lookup_fmap, lookup_alter.
  destruct (decide (parent_id = k)) as [->|]; [|done].
  by destruct (<[get category "id" := cat_obj]> cats !! k).
Qed.

(** The builder's recursion stores what the list parser appends. *)
Lemma parse_categories_recursive_stored (parent_elem : Element) :
  forall (parent_id parent_path : option string) (level : Z)
         (cats : Categories),
    stored <$> parse_categories_recursive parent_elem parent_id parent_path
                 level cats
    = store_listed (stored <$> cats)
        (parse_categories parent_elem parent_id parent_path []).
Proof.
  induction parent_elem as [tag attrib children IH]
    using Element_children_ind.
  intros parent_id parent_path level cats.
  rewrite parse_categories_recursive_eq, parse_categories_eq, foldl_turn_app.
  cbn [app]. revert cats.
  induction IH as [|c children Hc _ IHchildren]; intros cats; [done|].
  cbn [foldl flat_map]. rewrite foldl_app, IHchildren. f_equal.
  unfold BuildRdf.turn. destruct (is_category c); [|done].
  cbn [foldl]. by rewrite Hc, store_stored.
Qed.

Lemma dom_store_listed (l : list MapLlm.OekobaudatCategory) :
  forall d, dom (store_listed d l) = dom d ∪ list_to_set (MapLlm.id <$> l).
Proof.
  induction l as [|c l IH]; intros d.
  - cbn. set_solver.
  - cbn [foldl]. rewrite IH, dom_insert_L, fmap_cons. set_solver.
Qed.

Lemma size_ids_le (l : list (option string)) :
  size (list_to_set (C := gset (option string)) l) <= length l.
Proof.
  induction l as [|x l IH]; [done|].
  cbn [list_to_set length]. rewrite size_union_alt, size_singleton.
  assert (size (list_to_set l ∖ {[x]} : gset (option string))
          <= size (list_to_set l : gset (option string)))
    by (apply subseteq_size; set_solver).
  lia.
Qed.

(** A list without repetition is as long as the set of its entries is
    large, and no other list is. *)
Lemma size_list_to_set_NoDup (l : list (option string)) :
  size (list_to_set (C := gset (option string)) l) = length l <-> NoDup l.
Proof.
  split; [|apply size_list_to_set].
  induction l as [|x l IH]; intros Hsize; [constructor|].
  pose proof (size_ids_le l) as Hle.
  cbn [list_to_set length] in Hsize.
  destruct (decide (x ∈ l)) as [Hin|Hout].
  - exfalso.
    assert (Heq : {[x]} ∪ list_to_set l =@{gset (option string)} list_to_set l)
      by set_solver.
    rewrite Heq in Hsize. lia.
  - rewrite size_union in Hsize by set_solver.
    rewrite size_singleton in Hsize.
    constructor; [done|]. apply IH. lia.
Qed.

(** X14: the list parser of the mapper drops nothing: its list holds one
    category per [category] element reached in the document, in document
    order, with the id and the name the element declares and the category
    URI made of the id; a document that does not parse ends the run. *)
Theorem parse_lists_every_category_element_in_order :
  OekobaudatParser.parse Unparsable = None
  /\ forall root,
       exists categories,
         OekobaudatParser.parse (Document root) = Some categories
         /\ (fun c => (MapLlm.id c, MapLlm.name_de c, MapLlm.uri c))
            <$> categories
            = (fun node =>
                 (get node "id", get node "name",
                  "https://oekobaudat.de/category/" ++ fmt (get node "id")))
              <$> visited_in root.
Proof.
  split; [done|]. intros root. unfold OekobaudatParser.parse, visited_in.
  destruct (find_process_categories root) as [categories_elem|].
  - eexists. split; [done|]. apply parse_categories_rows.
  - by exists [].
Qed.

(** X15: the dict the ontology builder parses from a source is what one gets
    by storing the categories of the mapper's list under their ids one
    after the other, as far as name, parent id and path go: the two parsers
    agree, and of several categories with one id the builder keeps the
    last. *)
Theorem builder_dict_is_the_mappers_list_stored_in_order
    (source : Source) :
  fmap stored <$> parse_xml source
  = store_listed ∅ <$> OekobaudatParser.parse source.
Proof.
  destruct source as [|root]; [done|].
  unfold parse_xml, OekobaudatParser.parse.
  destruct (find_process_categories root) as [categories_elem|]; cbn.
  - f_equal. rewrite parse_categories_recursive_stored.
    by rewrite fmap_empty.
  - by rewrite fmap_empty.
Qed.

(** X16: the builder never stores more categories than the mapper lists,
    and as many exactly when no id (the absent one included) is declared
    by two category elements. *)
Theorem builder_stores_as_many_iff_ids_are_distinct (root : Element) :
  exists cats categories,
    parse_xml (Document root) = Some cats
    /\ OekobaudatParser.parse (Document root) = Some categories
    /\ size cats <= length categories
    /\ (size cats = length categories <-> NoDup (MapLlm.id <$> categories)).
Proof.
  unfold parse_xml, OekobaudatParser.parse.
  destruct (find_process_categories root) as [categories_elem|].
  - eexists _, _. split; [done|]. split; [done|].
    set (cats := parse_categories_recursive categories_elem None (Some "") 0 ∅).
    set (categories := parse_categories categories_elem None (Some "") []).
    assert (Hsize : size cats
                    = size (list_to_set (C := gset (option string))
                              (MapLlm.id <$> categories))).
    { rewrite <- size_dom. f_equal.
      rewrite <- (dom_fmap_L stored cats). unfold cats.
      rewrite parse_categories_recursive_stored, dom_store_listed.
      rewrite fmap_empty, dom_empty_L. set_solver. }
    rewrite Hsize, <- (length_fmap MapLlm.id categories).
    split; [apply size_ids_le|apply size_list_to_set_NoDup].
  - exists ∅, []. split; [done|]. split; [done|].
    rewrite map_size_empty. cbn. split; [lia|]. split; [constructor|done].
Qed.
End ListParser.

(** ** The hierarchy in the list of the mapper *)
Section ListHierarchy.
Import Py BuildRdf OekobaudatParser.

Lemma handed_down_app (categories more : list MapLlm.OekobaudatCategory)
    (parent_id parent_path : option string) :
  handed_down categories parent_id parent_path ->
  handed_down (categories ++ more) parent_id parent_path.
Proof.
  intros [Htop|(j & p & Hj & Hid & Hpath)]; [by left|].
  right. exists j, p. split; [|done]. by apply lookup_app_l_Some.
Qed.

(** Appending the category built for a node keeps the list placed. *)
Lemma placed_snoc (categories : list MapLlm.OekobaudatCategory)
    (category : Element) (parent_id parent_path : option string) :
  placed categories -> handed_down categories parent_id parent_path ->
  placed (categories ++ [category_of category parent_id parent_path]).
Proof.
  intros Hplaced Hdown i c Hi.
  apply lookup_app_Some in Hi as [Hi|[Hlen Hi]].
  - destruct (Hplaced i c Hi) as [Htop|(j & p & Hlt & Hj & Hchild)];
      [by left|].
    right. exists j, p. split; [done|]. split; [|done].
    by apply lookup_app_l_Some.
  - apply list_lookup_singleton_Some in Hi as [Hzero <-].
    destruct Hdown as [[-> ->]|(j & p & Hj & -> & ->)].
    + by left.
    + right. exists j, p. split; [|split; [|done]].
      * apply lookup_lt_Some in Hj. lia.
      * by apply lookup_app_l_Some.
Qed.

(** The recursion keeps the list placed. *)
Lemma parse_categories_placed (parent_elem : Element) :
  forall (parent_id parent_path : option string)
         (categories : list MapLlm.OekobaudatCategory),
    placed categories -> handed_down categories parent_id parent_path ->
    placed (parse_categories parent_elem parent_id parent_path categories).
Proof.
  induction parent_elem as [tag attrib children IH]
    using Element_children_ind.
  intros parent_id parent_path categories.
  rewrite parse_categories_eq. revert categories.
  induction IH as [|c children Hc _ IHchildren];
    intros categories Hplaced Hdown; [done|].
  cbn [foldl]. apply IHchildren.
  - unfold turn. destruct (is_category c); [|done]. cbn zeta.
    apply Hc; [by apply placed_snoc|].
    right. exists (length categories), (category_of c parent_id parent_path).
    split; [|done]. by apply list_lookup_middle.
  - rewrite turn_app. by apply handed_down_app.
Qed.

(** X17: in the list of the mapper every category is a top-level one, with
    no parent id and its name as its path, or follows its parent in the
    list: it carries the parent's id (absent when the parent declares
    none) as its parent id and the parent's path extended by its own name
    as its path. *)
Theorem listed_category_is_top_level_or_follows_its_parent
    (source : Source) (categories : list MapLlm.OekobaudatCategory)
    (i : nat) (c : MapLlm.OekobaudatCategory) :
  parse source = Some categories ->
  categories !! i = Some c ->
  top_level c
  \/ exists j p, (j < i)%nat /\ categories !! j = Some p /\ child_of p c.
Proof.
  destruct source as [|root]; [done|]. unfold parse.
  destruct (find_process_categories root) as [categories_elem|];
    intros [= <-]; [|done].
  apply parse_categories_placed; [|by left].
  by intros j p Hj.
Qed.
End ListHierarchy.

(** ** The list of the mapper on concrete documents *)
Section ListParserRuns.
Import Py BuildRdf OekobaudatParser Examples.

(** [Zement] below the node without id: no parent id, and yet the path of
    a child. *)
Lemma listed_category_witness :
  let zement :=
    {| MapLlm.id := Some "1.1.01"; MapLlm.name_de := Some "Zement";
       MapLlm.parent_id := None;
       MapLlm.full_path_de :=
         Some "Mineralische Baustoffe/Bindemittel/Zement";
       MapLlm.uri := "https://oekobaudat.de/category/1.1.01" |} in
  top_level zement
  \/ exists j p, (j < 2)%nat
                 /\ default [] (parse nameless_id) !! j = Some p
                 /\ child_of p zement.
Proof.
  apply (listed_category_is_top_level_or_follows_its_parent
           nameless_id (default [] (parse nameless_id)) 2);
    vm_compute; reflexivity.
Defined.
End ListParserRuns.

(** ** The SKOS export of the mappings *)
Section ExportFacts.
Import Py MapLlm RdfGenerator.
Variable query_llm : Prompt -> Reply.
Variable json_loads : string -> option json.
Variable float_of_str : string -> option pyfloat.

Local Abbreviation create_mapping :=
  (MapLlm.create_mapping query_llm json_loads float_of_str).


Lemma is_label_true (v : json) (label : string) :
  is_label v label = true <-> v = JStr label.
Proof.
  destruct v; cbn; try (split; [discriminate|discriminate]).
  rewrite String.eqb_eq. split; [by intros ->|by intros [= ->]].
Qed.

(** The predicates of the class description and of the comment are no
    link predicates, and the custom one is none of SKOS. *)
Lemma describing_predicates (p : Term) :
  p ∈ [RDF_type; SKOS_prefLabel; SKOS_notation; RDFS_comment] ->
  p ∉ link_predicates.
Proof.
  rewrite !elem_of_cons, elem_of_nil.
  intros [->|[->|[->|[->|[]]]]];
    apply (proj1 (bool_decide_eq_false _)); by vm_compute.
Qed.

Lemma noMatch_is_not_of_skos :
  BSDD_noMatch ∉ [SKOS_exactMatch; SKOS_closeMatch; SKOS_related].
Proof. apply (proj1 (bool_decide_eq_false _)). by vm_compute. Qed.

Lemma elem_of_class_triples (m : Mapping) (s p o : Term) :
  (s, p, o) ∈ class_triples m ->
  p ∈ [RDF_type; SKOS_prefLabel; SKOS_notation; RDFS_comment].
Proof.
  unfold class_triples. rewrite !elem_of_union, !elem_of_singleton.
  intros [[[= _ -> _]|[= _ -> _]]|[= _ -> _]]; set_solver.
Qed.

(** X18: a mapping that [create_mapping] produced with a confidence below
    0.5 is exported as a [bsdd:noMatch] link with its comment, whatever
    label the model gave: the export adds the class description, that link
    and the comment, and no SKOS link. *)
Theorem low_confidence_is_exported_as_noMatch
    (cls : BsddClass) (cats : list OekobaudatCategory) (m : Mapping)
    (graph : Graph) :
  create_mapping cls cats = Some m ->
  flt (confidence_score m) (Fin (1 # 2)) = true ->
  add_mapping (Some m) graph
  = graph ∪ class_triples m
    ∪ {[ (bsdd_uri m, BSDD_noMatch, oeko_uri m);
         (bsdd_uri m, RDFS_comment, no_match_comment m) ]}
  /\ forall s p o,
       p ∈ [SKOS_exactMatch; SKOS_closeMatch; SKOS_related] ->
       (s, p, o) ∈ add_mapping (Some m) graph -> (s, p, o) ∈ graph.
Proof.
  intros (response & _ & _ & Hm)%create_mapping_Some Hlow.
  apply mapping_of_response_Some in Hm
    as (result & _ & _ & _ & _ & _ & _ & _ & _ & _ & Hlbl).
  rewrite Hlow in Hlbl.
  assert (Heq : add_mapping (Some m) graph
                = graph ∪ class_triples m
                  ∪ {[ (bsdd_uri m, BSDD_noMatch, oeko_uri m);
                       (bsdd_uri m, RDFS_comment, no_match_comment m) ]}).
  { unfold add_mapping, class_triples. rewrite Hlbl. cbn. set_solver. }
  split; [done|]. intros s p o Hp. rewrite Heq.
  rewrite !elem_of_union, !elem_of_singleton.
  intros [[?|Hc]|[[= _ -> _]|[= _ -> _]]]; [done|..]; exfalso.
  - apply elem_of_class_triples, describing_predicates in Hc.
    apply Hc. unfold link_predicates. set_solver.
  - by apply noMatch_is_not_of_skos.
  - apply (describing_predicates RDFS_comment); [set_solver|].
    unfold link_predicates. set_solver.
Qed.

(** X19: a mapping whose match type is none of the four labels (another
    string, or no string at all) is exported with its class description
    only: no link to its category is written. *)
Theorem unknown_label_is_exported_without_link
    (m : Mapping) (graph : Graph) :
  (forall label,
     label ∈ ["exactMatch"; "closeMatch"; "relatedMatch"; "noMatch"] ->
     match_type m <> JStr label) ->
  add_mapping (Some m) graph = graph ∪ class_triples m
  /\ forall s p o,
       p ∈ link_predicates ->
       (s, p, o) ∈ add_mapping (Some m) graph -> (s, p, o) ∈ graph.
Proof.
  intros Hnone.
  assert (Hfalse : forall label,
            label ∈ ["exactMatch"; "closeMatch"; "relatedMatch"; "noMatch"] ->
            is_label (match_type m) label = false).
  { intros label Hl. apply not_true_iff_false.
    rewrite is_label_true. by apply Hnone. }
  assert (Heq : add_mapping (Some m) graph = graph ∪ class_triples m).
  { unfold add_mapping, class_triples. cbn zeta.
    rewrite !Hfalse by set_solver. set_solver. }
  split; [done|]. intros s p o Hp. rewrite Heq, elem_of_union.
  intros [?|Hc]; [done|].
  by apply elem_of_class_triples, describing_predicates in Hc.
Qed.


End ExportFacts.

(** ** The export on concrete mappings *)
Section ExportRuns.
Import Py MapLlm RdfGenerator Examples Answers.

(** Scenario 6, third case, exported. *)
Lemma low_confidence_witness :
  add_mapping (Some (mapping_to A1 "noMatch" (1 # 4) "weak")) ∅
  = ∅ ∪ class_triples (mapping_to A1 "noMatch" (1 # 4) "weak")
    ∪ {[ (bsdd_uri (mapping_to A1 "noMatch" (1 # 4) "weak"), BSDD_noMatch,
          oeko_uri (mapping_to A1 "noMatch" (1 # 4) "weak"));
         (bsdd_uri (mapping_to A1 "noMatch" (1 # 4) "weak"), RDFS_comment,
          no_match_comment (mapping_to A1 "noMatch" (1 # 4) "weak")) ]}
  /\ forall s p o,
       p ∈ [SKOS_exactMatch; SKOS_closeMatch; SKOS_related] ->
       (s, p, o) ∈ add_mapping
                     (Some (mapping_to A1 "noMatch" (1 # 4) "weak")) ∅ ->
       (s, p, o) ∈ (∅ : Graph).
Proof.
  apply (low_confidence_is_exported_as_noMatch
           (says text_low) (loads_one text_low json_low) no_float
           product taxonomy); vm_compute; reflexivity.
Defined.

(** The answer labelled [broadMatch] gives a mapping, and the mapping no
    link. *)
Lemma unknown_label_witness :
  create_mapping (says text_broad) (loads_one text_broad json_broad)
    no_float product taxonomy
  = Some (mapping_to A1 "broadMatch" (3 # 4) "wider")
  /\ add_mapping (Some (mapping_to A1 "broadMatch" (3 # 4) "wider")) ∅
     = ∅ ∪ class_triples (mapping_to A1 "broadMatch" (3 # 4) "wider").
Proof.
  split; [by vm_compute|].
  apply (unknown_label_is_exported_without_link
           (mapping_to A1 "broadMatch" (3 # 4) "wider") ∅).
  intros label Hl. rewrite !elem_of_cons, elem_of_nil in Hl.
  destruct Hl as [->|[->|[->|[->|[]]]]]; vm_compute; discriminate.
Defined.
End ExportRuns.

(** ** The mapper's link targets and the ontology's cross-references *)
Section CrossReference.
Import Py BuildRdf.
Context {alphanumeric : Unicode.Alphanumeric}.
Variable query_llm : MapLlm.Prompt -> MapLlm.Reply.
Variable json_loads : string -> option json.
Variable float_of_str : string -> option pyfloat.

(** A loop over keys that ran through has added the triples of every
    stored key. *)
Lemma add_keys_Some (cats : Categories) (l : list (option string))
    (g0 : Graph) :
  forall g,
    foldr (fun cat_id acc =>
             graph ← acc; add_category_to_graph cats cat_id graph)
          (Some g0) l = Some g ->
    forall k c,
      k ∈ l -> cats !! k = Some c ->
      exists added, category_triples cats k c = Some added /\ added ⊆ g.
Proof.
  induction l as [|k' l IH]; intros g Hg k c Hk Hc;
    [by apply elem_of_nil in Hk|].
  cbn [foldr] in Hg.
  destruct (foldr _ (Some g0) l) as [g'|] eqn:Hg'; [|done]. cbn in Hg.
  unfold add_category_to_graph in Hg.
  apply elem_of_cons in Hk as [->|Hk].
  - rewrite Hc in Hg.
    destruct (category_triples cats k' c) as [added|]; [|done].
    cbn in Hg. injection Hg as <-. exists added. split; [done|set_solver].
  - destruct (IH g' eq_refl k c Hk Hc) as (added & Hadded & Hsub).
    exists added. split; [done|].
    destruct (cats !! k') as [c'|]; [|by injection Hg as <-].
    destruct (category_triples cats k' c') as [added'|]; [|done].
    cbn in Hg. injection Hg as <-. set_solver.
Qed.

(** The rows of the mapper's list are those of the elements reached. *)
Lemma parse_rows (root : Element)
    (categories : list MapLlm.OekobaudatCategory) :
  OekobaudatParser.parse (Document root) = Some categories ->
  (fun c => (MapLlm.id c, MapLlm.name_de c, MapLlm.uri c)) <$> categories
  = (fun node => (get node "id", get node "name",
                  "https://oekobaudat.de/category/" ++ fmt (get node "id")))
    <$> visited_in root.
Proof.
  unfold OekobaudatParser.parse, visited_in.
  destruct (find_process_categories root) as [categories_elem|];
    intros [= <-]; [apply parse_categories_rows|done].
Qed.

(** X21: the two steps meet on the category node.  When the mapper and the
    ontology builder read the same source, the category selected for a
    mapping declares an id, and the ontology is built, the node the mapping
    links to is the category namespace followed by that id, and the
    ontology holds a class cross-referenced to this very node. *)
Theorem mapping_target_is_cross_referenced_in_the_ontology
    (source : Source) (categories : list MapLlm.OekobaudatCategory)
    (cls : MapLlm.BsddClass) (m : MapLlm.Mapping) (i : string) (g : Graph) :
  OekobaudatParser.parse source = Some categories ->
  MapLlm.create_mapping query_llm json_loads float_of_str cls categories
  = Some m ->
  MapLlm.id (MapLlm.oekobaudat_category m) = Some i ->
  build_complete_graph source = Some g ->
  RdfGenerator.oeko_uri m = RdfGenerator.URIRef (OEKOCAT ++ i)
  /\ exists node, (node, okobaudatCategory, URIRef (OEKOCAT ++ i)) ∈ g.
Proof.
  intros Hparse (response & _ & _ & Hm)%create_mapping_Some Hid Hbuild.
  apply mapping_of_response_Some in Hm
    as (result & wanted & _ & _ & _ & Hfind & _).
  apply find_some in Hfind as [Hin%list_elem_of_In _].
  destruct source as [|root]; [done|].
  apply (list_elem_of_fmap_2
           (fun c => (MapLlm.id c, MapLlm.name_de c, MapLlm.uri c))) in Hin.
  rewrite (parse_rows root categories Hparse) in Hin.
  apply list_elem_of_fmap in Hin as (node & [= Hi _ Huri] & Hnode).
  rewrite Hid in Hi. split.
  { unfold RdfGenerator.oeko_uri. rewrite Huri, <- Hi. done. }
  unfold build_complete_graph, parse_xml in Hbuild.
  unfold visited_in in Hnode.
  destruct (find_process_categories root) as [categories_elem|];
    [|by apply elem_of_nil in Hnode].
  cbn in Hbuild.
  destruct (parse_categories_recursive_spec categories_elem None (Some "")
              0 ∅ well_stored_empty) as (_ & _ & Hvis); [done|].
  destruct (Hvis node Hnode) as [c Hc]. rewrite <- Hi in Hc.
  destruct (add_keys_Some _ _ _ _ Hbuild (Some i) c) as (added & Hadded & Hsub);
    [|done|].
  { apply list_elem_of_fmap. exists (Some i, c). split; [done|].
    by apply elem_of_map_to_list. }
  assert (Hname : is_Some (name_de c)).
  { unfold category_triples in Hadded. by destruct (name_de c). }
  destruct Hname as [n Hn]. exists (class_uri n). apply Hsub.
  apply (category_triples_xref _ _ _ _ _ _ Hadded). by exists n.
Qed.
End CrossReference.

(** ** The cross-reference on a concrete document *)
Section CrossReferenceRuns.
Import Py BuildRdf Examples Answers.
Local Existing Instance Examples.latin1.

Lemma mapping_target_witness :
  RdfGenerator.oeko_uri (mapping_to vollholz "closeMatch" (3 # 4) "wood")
  = RdfGenerator.URIRef (OEKOCAT ++ "3.1")
  /\ exists node,
       (node, okobaudatCategory, URIRef (OEKOCAT ++ "3.1"))
       ∈ default ∅ (build_complete_graph holz_vollholz).
Proof.
  apply (mapping_target_is_cross_referenced_in_the_ontology
           (says text_vollholz) (loads_one text_vollholz json_vollholz)
           no_float holz_vollholz
           (default [] (OekobaudatParser.parse holz_vollholz)) product
           (mapping_to vollholz "closeMatch" (3 # 4) "wood") "3.1"
           (default ∅ (build_complete_graph holz_vollholz)));
    [by vm_compute|by vm_compute|by vm_compute|].
  assert (Hbuilt : is_Some (build_complete_graph holz_vollholz))
    by (apply (bool_decide_unpack _); by vm_compute).
  destruct (build_complete_graph holz_vollholz);
    [reflexivity|by destruct Hbuilt].
Defined.
End CrossReferenceRuns.

(** ** Fenced answers *)
Section Fences.
Import Py Str LlmMatcherAzure.

Local Abbreviation newline := (ascii_of_nat 10).
Local Abbreviation backquote := (ascii_of_nat 96).

Lemma split_on_nonempty (sep : ascii) (s : string) : split_on sep s <> [].
Proof.
  destruct s as [|a s]; [done|]. cbn.
  destruct (Ascii.eqb a sep); [done|]. by destruct (split_on sep s).
Qed.

(** Splitting at a separator splits the text before and the text after
    it. *)
Lemma split_on_append (sep : ascii) (s t : string) :
  split_on sep (s ++ String sep t) = (split_on sep s ++ split_on sep t)%list.
Proof.
  induction s as [|a s IH].
  - change (split_on sep (String sep t)
            = (EmptyString :: split_on sep t)%list).
    cbn. by rewrite Ascii.eqb_refl.
  - change (split_on sep (String a (s ++ String sep t))
            = (split_on sep (String a s) ++ split_on sep t)%list).
    cbn [split_on]. rewrite IH.
    destruct (Ascii.eqb a sep); [done|].
    pose proof (split_on_nonempty sep s) as Hne.
    by destruct (split_on sep s).
Qed.

(** Joining the pieces of a text with the separator gives the text back. *)
Lemma join_split_on (sep : ascii) (s : string) :
  join (String sep EmptyString) (split_on sep s) = s.
Proof.
  induction s as [|a s IH]; [done|]. cbn [split_on].
  pose proof (split_on_nonempty sep s) as Hne.
  destruct (Ascii.eqb a sep) eqn:Ha.
  - apply Ascii.eqb_eq in Ha as ->.
    destruct (split_on sep s) as [|p rest]; [done|].
    change (join (String sep EmptyString) (EmptyString :: p :: rest))
      with (String sep (join (String sep EmptyString) (p :: rest))).
    by rewrite IH.
  - destruct (split_on sep s) as [|p rest]; [done|].
    destruct rest as [|q rest].
    + cbn in IH. cbn. by rewrite IH.
    + change (join (String sep EmptyString) (String a p :: q :: rest))
        with (String a (join (String sep EmptyString) (p :: q :: rest))).
      by rewrite IH.
Qed.

(** Replacing a pattern leaves a text alone that does not hold the
    pattern's first character. *)
Lemma replace_free (q : ascii) (old_rest new s : string) :
  Chars.free q s = true -> replace (String q old_rest) new s = s.
Proof.
  unfold replace. induction s as [|a s IH]; [done|].
  unfold Chars.free. cbn [Chars.all].
  intros [Ha Hs]%andb_true_iff. apply negb_true_iff in Ha.
  cbn [replace_from String.prefix].
  destruct (ascii_dec q a) as [->|_]; [by rewrite Ascii.eqb_refl in Ha|].
  f_equal. by apply IH.
Qed.

Lemma prefix_append (p s t : string) :
  String.prefix p s = true -> String.prefix p (s ++ t) = true.
Proof.
  revert s. induction p as [|a p IH]; intros s;
    [intros _; by destruct (s ++ t)|].
  destruct s as [|b s]; [done|].
  change (String.prefix (String a p) (String b s) = true ->
          String.prefix (String a p) (String b (s ++ t)) = true).
  cbn [String.prefix]. destruct (ascii_dec a b); [apply IH|done].
Qed.

(** The clean-up drops the first and the last line of a fenced answer of
    three lines or more and keeps what is between them. *)
Lemma unfence_lines (first body last : string) :
  Chars.free newline first = true ->
  Chars.free newline last = true ->
  Chars.free backquote body = true ->
  unfence (first ++ String newline (body ++ String newline last))
  = strip body.
Proof.
  intros Hfirst Hlast Hbody. unfold unfence. cbn zeta.
  destruct (split_on_piece newline first (body ++ String newline last) Hfirst)
    as [_ ->].
  rewrite split_on_append.
  destruct (split_on_piece newline last EmptyString Hlast) as [-> _].
  assert (Hlen : (2 <? length (first :: split_on newline body ++ [last]))%nat
                 = true).
  { apply Nat.ltb_lt. cbn [length]. rewrite length_app. cbn.
    pose proof (split_on_nonempty newline body).
    destruct (split_on newline body); [done|]. cbn. lia. }
  rewrite Hlen. unfold inner. cbn [tail].
  rewrite removelast_last, join_split_on.
  assert (Htagged : replace (fence ++ "json") "" body = body)
    by exact (replace_free backquote _ _ body Hbody).
  assert (Hbare : replace fence "" body = body)
    by exact (replace_free backquote _ _ body Hbody).
  by rewrite Htagged, Hbare.
Qed.

Variable query_azure_openai : Prompt -> MapLlm.Reply.
Variable json_loads : string -> option json.
Variable float_of_str : string -> option pyfloat.

(** X22: an answer wrapped in a markdown fence is read as its body.  When
    the stripped reply starts with a fence and has three lines or more, the
    first and the last line are dropped whatever else they hold, and the
    result is the one of the stripped text between them, provided that text
    holds no backquote. *)
Theorem fenced_answer_is_read_as_its_body
    (bsdd_class_name bsdd_definition : string)
    (oekobaudat_categories : list Candidate) (top_n : Z)
    (text first body last : string) :
  query_azure_openai
    (create_prompt bsdd_class_name bsdd_definition
       (upto oekobaudat_categories top_n))
  = MapLlm.Content (Some text) ->
  strip text = first ++ String newline (body ++ String newline last) ->
  String.prefix fence first = true ->
  Chars.free newline first = true ->
  Chars.free newline last = true ->
  Chars.free backquote body = true ->
  find_best_match_llm query_azure_openai json_loads float_of_str
    bsdd_class_name bsdd_definition oekobaudat_categories top_n
  = result_of_text json_loads float_of_str (strip body).
Proof.
  intros Hq Htext Hfence Hfirst Hlast Hbody.
  unfold find_best_match_llm. cbn zeta. rewrite Hq, Htext.
  rewrite (prefix_append _ _ _ Hfence).
  by rewrite unfence_lines.
Qed.
End Fences.

(** ** A fenced answer *)
Section FencesRuns.
Import Py LlmMatcherAzure Examples Answers.

Lemma fenced_answer_witness :
  find_best_match_llm (fun _ => MapLlm.Content (Some fenced_low))
    (loads_one text_low json_low) no_float "Gypsum board" "" [] 10
  = result_of_text (loads_one text_low json_low) no_float (strip text_low).
Proof.
  apply (fenced_answer_is_read_as_its_body
           (fun _ => MapLlm.Content (Some fenced_low))
           (loads_one text_low json_low) no_float "Gypsum board" "" [] 10
           fenced_low (fence ++ "json") text_low fence);
    vm_compute; reflexivity.
Defined.
End FencesRuns.
